(** * Discussion moderation engine: a shallow embedding and its properties

    The development follows [DiscussionEngine.ts] and [types.ts]: the
    dominance scorer [calculateDominance] and the event reducer
    [DiscussionEngine] (constructor, [setState], [autoAdvanceIfNeeded],
    [nextTurn], [updateMetrics], [send]).

    Modelling choices.
    - A JavaScript [number] holding a time or a score is an exact
      rational ([Q]); comparisons are the boolean ones of [QArith].
      Rounding of IEEE doubles, [NaN] and the infinities are outside the
      model: the statements about the talk-time books are made for
      sessions of whole seconds ([exact_run]), in which every number
      booked is a whole number of at most [Number.MAX_SAFE_INTEGER] and
      the doubles of the source add and subtract without rounding.
      [turnIndex] only ever holds integers and is a [Z], so that
      [indexOf] can return [-1] as in the source.
    - [Record<string, number>] is a finite map [gmap string Q]; a missing
      key reads as [None] (JavaScript [undefined]).  Properties inherited
      from [Object.prototype] are outside the model: a statement that
      depends on the lookup of a name without an entry assumes the name
      [ordinary], that is, none of [Object_prototype_names].
    - [string | null] is [option string]; [null] and [undefined] are both
      [None] (the engine never distinguishes them).
    - The mutable engine object is a value of type [DiscussionEngine]
      passed explicitly: every method takes the engine and returns the
      engine after the call.

    Around the engine the development also follows what [App.tsx]
    computes from a snapshot ([isImbalanceMeasureActive],
    [roundProgressInfo]) and its pause toggle ([handleToggleSilence]),
    the scorer and [computeQuietSpeaker] of the earlier engine variant
    (module [Legacy]), and the advisory sentence of [geminiService.ts]
    (module [GeminiService]), where the module-level cache is passed
    explicitly and the outcome of the awaited call is an argument. *)

From Stdlib Require Import ZArith QArith Qminmax Lia Lqa.
From stdpp Require Import gmap strings pretty list fin_maps.

Local Open Scope Z_scope.

(** ** Data model ([types.ts]) *)

Module DiscussionState.
Inductive t : Set :=
  | MONITORING | IMBALANCE | NUDGE | STRUCTURED | PAUSE | CHECKIN.

#[global] Instance eq_dec : EqDecision t.
Proof. solve_decision. Defined.
End DiscussionState.

Record EngineContext : Type := mkContext {
  speakers : list string;
  activeSpeaker : option string;
  quietSpeaker : option string;
  talkTime : gmap string Q;
  totalSeconds : Q;
  silenceSeconds : Q;
  totalTalkTime : Q;
  currentMonologueSeconds : Q;
  autoMode : bool;
  quietMode : bool;
  imbalanceScoreThreshold : Q;
  imbalanceHoldSeconds : Q;
  nudgeHoldSeconds : Q;
  turnHoldSeconds : Q;
  imbalanceSince : option Q;
  nudgeSince : option Q;
  stateSince : Q;
  turnSince : Q;
  turnOrder : list string;
  turnIndex : Z;
  dominanceScore : Q;
  imbalanceFlag : bool
}.

Inductive DiscussionEvent : Type :=
  | SPEAKER_SET (name : string)
  | SILENCE
  | TICK (seconds : Q)
  | NEXT_TURN
  | SET_QUIET_SPEAKER (name : option string)
  | SET_AUTO_MODE (enabled : bool)
  | SET_QUIET_MODE (enabled : bool)
  | TURNS_COMPLETE
  | PAUSE_DONE
  | CHECKIN (canContinue : bool)
  | ADD_SPEAKER (name : string)
  | REMOVE_SPEAKER (name : string)
  | SET_TALK_TIME (name : string) (seconds : Q)
  | SET_SILENCE (seconds : Q)
  | FORCE_STATE (state : DiscussionState.t).

(** The part of [Partial<EngineContext>] that the constructor reads. *)
Record Thresholds : Type := mkThresholds {
  th_autoMode : option bool;
  th_imbalanceScoreThreshold : option Q
}.

Definition no_thresholds : Thresholds :=
  {| th_autoMode := None; th_imbalanceScoreThreshold := None |}.

(** The engine object: its two private fields. *)
Record DiscussionEngine : Type := mkEngine {
  ctx : EngineContext;
  state : DiscussionState.t
}.

(** ** Field assignments [this.ctx.f = v] *)

Definition set_speakers (v : list string) (c : EngineContext) : EngineContext :=
  {| speakers := v; activeSpeaker := activeSpeaker c;
     quietSpeaker := quietSpeaker c; talkTime := talkTime c;
     totalSeconds := totalSeconds c; silenceSeconds := silenceSeconds c;
     totalTalkTime := totalTalkTime c;
     currentMonologueSeconds := currentMonologueSeconds c;
     autoMode := autoMode c; quietMode := quietMode c;
     imbalanceScoreThreshold := imbalanceScoreThreshold c;
     imbalanceHoldSeconds := imbalanceHoldSeconds c;
     nudgeHoldSeconds := nudgeHoldSeconds c;
     turnHoldSeconds := turnHoldSeconds c;
     imbalanceSince := imbalanceSince c; nudgeSince := nudgeSince c;
     stateSince := stateSince c; turnSince := turnSince c;
     turnOrder := turnOrder c; turnIndex := turnIndex c;
     dominanceScore := dominanceScore c; imbalanceFlag := imbalanceFlag c |}.

Definition set_activeSpeaker (v : option string) (c : EngineContext) : EngineContext :=
  {| speakers := speakers c; activeSpeaker := v;
     quietSpeaker := quietSpeaker c; talkTime := talkTime c;
     totalSeconds := totalSeconds c; silenceSeconds := silenceSeconds c;
     totalTalkTime := totalTalkTime c;
     currentMonologueSeconds := currentMonologueSeconds c;
     autoMode := autoMode c; quietMode := quietMode c;
     imbalanceScoreThreshold := imbalanceScoreThreshold c;
     imbalanceHoldSeconds := imbalanceHoldSeconds c;
     nudgeHoldSeconds := nudgeHoldSeconds c;
     turnHoldSeconds := turnHoldSeconds c;
     imbalanceSince := imbalanceSince c; nudgeSince := nudgeSince c;
     stateSince := stateSince c; turnSince := turnSince c;
     turnOrder := turnOrder c; turnIndex := turnIndex c;
     dominanceScore := dominanceScore c; imbalanceFlag := imbalanceFlag c |}.

Definition set_quietSpeaker (v : option string) (c : EngineContext) : EngineContext :=
  {| speakers := speakers c; activeSpeaker := activeSpeaker c;
     quietSpeaker := v; talkTime := talkTime c;
     totalSeconds := totalSeconds c; silenceSeconds := silenceSeconds c;
     totalTalkTime := totalTalkTime c;
     currentMonologueSeconds := currentMonologueSeconds c;
     autoMode := autoMode c; quietMode := quietMode c;
     imbalanceScoreThreshold := imbalanceScoreThreshold c;
     imbalanceHoldSeconds := imbalanceHoldSeconds c;
     nudgeHoldSeconds := nudgeHoldSeconds c;
     turnHoldSeconds := turnHoldSeconds c;
     imbalanceSince := imbalanceSince c; nudgeSince := nudgeSince c;
     stateSince := stateSince c; turnSince := turnSince c;
     turnOrder := turnOrder c; turnIndex := turnIndex c;
     dominanceScore := dominanceScore c; imbalanceFlag := imbalanceFlag c |}.

Definition set_talkTime (v : gmap string Q) (c : EngineContext) : EngineContext :=
  {| speakers := speakers c; activeSpeaker := activeSpeaker c;
     quietSpeaker := quietSpeaker c; talkTime := v;
     totalSeconds := totalSeconds c; silenceSeconds := silenceSeconds c;
     totalTalkTime := totalTalkTime c;
     currentMonologueSeconds := currentMonologueSeconds c;
     autoMode := autoMode c; quietMode := quietMode c;
     imbalanceScoreThreshold := imbalanceScoreThreshold c;
     imbalanceHoldSeconds := imbalanceHoldSeconds c;
     nudgeHoldSeconds := nudgeHoldSeconds c;
     turnHoldSeconds := turnHoldSeconds c;
     imbalanceSince := imbalanceSince c; nudgeSince := nudgeSince c;
     stateSince := stateSince c; turnSince := turnSince c;
     turnOrder := turnOrder c; turnIndex := turnIndex c;
     dominanceScore := dominanceScore c; imbalanceFlag := imbalanceFlag c |}.

Definition set_totalSeconds (v : Q) (c : EngineContext) : EngineContext :=
  {| speakers := speakers c; activeSpeaker := activeSpeaker c;
     quietSpeaker := quietSpeaker c; talkTime := talkTime c;
     totalSeconds := v; silenceSeconds := silenceSeconds c;
     totalTalkTime := totalTalkTime c;
     currentMonologueSeconds := currentMonologueSeconds c;
     autoMode := autoMode c; quietMode := quietMode c;
     imbalanceScoreThreshold := imbalanceScoreThreshold c;
     imbalanceHoldSeconds := imbalanceHoldSeconds c;
     nudgeHoldSeconds := nudgeHoldSeconds c;
     turnHoldSeconds := turnHoldSeconds c;
     imbalanceSince := imbalanceSince c; nudgeSince := nudgeSince c;
     stateSince := stateSince c; turnSince := turnSince c;
     turnOrder := turnOrder c; turnIndex := turnIndex c;
     dominanceScore := dominanceScore c; imbalanceFlag := imbalanceFlag c |}.

Definition set_silenceSeconds (v : Q) (c : EngineContext) : EngineContext :=
  {| speakers := speakers c; activeSpeaker := activeSpeaker c;
     quietSpeaker := quietSpeaker c; talkTime := talkTime c;
     totalSeconds := totalSeconds c; silenceSeconds := v;
     totalTalkTime := totalTalkTime c;
     currentMonologueSeconds := currentMonologueSeconds c;
     autoMode := autoMode c; quietMode := quietMode c;
     imbalanceScoreThreshold := imbalanceScoreThreshold c;
     imbalanceHoldSeconds := imbalanceHoldSeconds c;
     nudgeHoldSeconds := nudgeHoldSeconds c;
     turnHoldSeconds := turnHoldSeconds c;
     imbalanceSince := imbalanceSince c; nudgeSince := nudgeSince c;
     stateSince := stateSince c; turnSince := turnSince c;
     turnOrder := turnOrder c; turnIndex := turnIndex c;
     dominanceScore := dominanceScore c; imbalanceFlag := imbalanceFlag c |}.

Definition set_totalTalkTime (v : Q) (c : EngineContext) : EngineContext :=
  {| speakers := speakers c; activeSpeaker := activeSpeaker c;
     quietSpeaker := quietSpeaker c; talkTime := talkTime c;
     totalSeconds := totalSeconds c; silenceSeconds := silenceSeconds c;
     totalTalkTime := v;
     currentMonologueSeconds := currentMonologueSeconds c;
     autoMode := autoMode c; quietMode := quietMode c;
     imbalanceScoreThreshold := imbalanceScoreThreshold c;
     imbalanceHoldSeconds := imbalanceHoldSeconds c;
     nudgeHoldSeconds := nudgeHoldSeconds c;
     turnHoldSeconds := turnHoldSeconds c;
     imbalanceSince := imbalanceSince c; nudgeSince := nudgeSince c;
     stateSince := stateSince c; turnSince := turnSince c;
     turnOrder := turnOrder c; turnIndex := turnIndex c;
     dominanceScore := dominanceScore c; imbalanceFlag := imbalanceFlag c |}.

Definition set_currentMonologueSeconds (v : Q) (c : EngineContext) : EngineContext :=
  {| speakers := speakers c; activeSpeaker := activeSpeaker c;
     quietSpeaker := quietSpeaker c; talkTime := talkTime c;
     totalSeconds := totalSeconds c; silenceSeconds := silenceSeconds c;
     totalTalkTime := totalTalkTime c; currentMonologueSeconds := v;
     autoMode := autoMode c; quietMode := quietMode c;
     imbalanceScoreThreshold := imbalanceScoreThreshold c;
     imbalanceHoldSeconds := imbalanceHoldSeconds c;
     nudgeHoldSeconds := nudgeHoldSeconds c;
     turnHoldSeconds := turnHoldSeconds c;
     imbalanceSince := imbalanceSince c; nudgeSince := nudgeSince c;
     stateSince := stateSince c; turnSince := turnSince c;
     turnOrder := turnOrder c; turnIndex := turnIndex c;
     dominanceScore := dominanceScore c; imbalanceFlag := imbalanceFlag c |}.

Definition set_autoMode (v : bool) (c : EngineContext) : EngineContext :=
  {| speakers := speakers c; activeSpeaker := activeSpeaker c;
     quietSpeaker := quietSpeaker c; talkTime := talkTime c;
     totalSeconds := totalSeconds c; silenceSeconds := silenceSeconds c;
     totalTalkTime := totalTalkTime c;
     currentMonologueSeconds := currentMonologueSeconds c; autoMode := v;
     quietMode := quietMode c;
     imbalanceScoreThreshold := imbalanceScoreThreshold c;
     imbalanceHoldSeconds := imbalanceHoldSeconds c;
     nudgeHoldSeconds := nudgeHoldSeconds c;
     turnHoldSeconds := turnHoldSeconds c;
     imbalanceSince := imbalanceSince c; nudgeSince := nudgeSince c;
     stateSince := stateSince c; turnSince := turnSince c;
     turnOrder := turnOrder c; turnIndex := turnIndex c;
     dominanceScore := dominanceScore c; imbalanceFlag := imbalanceFlag c |}.

Definition set_quietMode (v : bool) (c : EngineContext) : EngineContext :=
  {| speakers := speakers c; activeSpeaker := activeSpeaker c;
     quietSpeaker := quietSpeaker c; talkTime := talkTime c;
     totalSeconds := totalSeconds c; silenceSeconds := silenceSeconds c;
     totalTalkTime := totalTalkTime c;
     currentMonologueSeconds := currentMonologueSeconds c;
     autoMode := autoMode c; quietMode := v;
     imbalanceScoreThreshold := imbalanceScoreThreshold c;
     imbalanceHoldSeconds := imbalanceHoldSeconds c;
     nudgeHoldSeconds := nudgeHoldSeconds c;
     turnHoldSeconds := turnHoldSeconds c;
     imbalanceSince := imbalanceSince c; nudgeSince := nudgeSince c;
     stateSince := stateSince c; turnSince := turnSince c;
     turnOrder := turnOrder c; turnIndex := turnIndex c;
     dominanceScore := dominanceScore c; imbalanceFlag := imbalanceFlag c |}.

Definition set_imbalanceSince (v : option Q) (c : EngineContext) : EngineContext :=
  {| speakers := speakers c; activeSpeaker := activeSpeaker c;
     quietSpeaker := quietSpeaker c; talkTime := talkTime c;
     totalSeconds := totalSeconds c; silenceSeconds := silenceSeconds c;
     totalTalkTime := totalTalkTime c;
     currentMonologueSeconds := currentMonologueSeconds c;
     autoMode := autoMode c; quietMode := quietMode c;
     imbalanceScoreThreshold := imbalanceScoreThreshold c;
     imbalanceHoldSeconds := imbalanceHoldSeconds c;
     nudgeHoldSeconds := nudgeHoldSeconds c;
     turnHoldSeconds := turnHoldSeconds c; imbalanceSince := v;
     nudgeSince := nudgeSince c; stateSince := stateSince c;
     turnSince := turnSince c; turnOrder := turnOrder c;
     turnIndex := turnIndex c; dominanceScore := dominanceScore c;
     imbalanceFlag := imbalanceFlag c |}.

Definition set_stateSince (v : Q) (c : EngineContext) : EngineContext :=
  {| speakers := speakers c; activeSpeaker := activeSpeaker c;
     quietSpeaker := quietSpeaker c; talkTime := talkTime c;
     totalSeconds := totalSeconds c; silenceSeconds := silenceSeconds c;
     totalTalkTime := totalTalkTime c;
     currentMonologueSeconds := currentMonologueSeconds c;
     autoMode := autoMode c; quietMode := quietMode c;
     imbalanceScoreThreshold := imbalanceScoreThreshold c;
     imbalanceHoldSeconds := imbalanceHoldSeconds c;
     nudgeHoldSeconds := nudgeHoldSeconds c;
     turnHoldSeconds := turnHoldSeconds c;
     imbalanceSince := imbalanceSince c; nudgeSince := nudgeSince c;
     stateSince := v; turnSince := turnSince c; turnOrder := turnOrder c;
     turnIndex := turnIndex c; dominanceScore := dominanceScore c;
     imbalanceFlag := imbalanceFlag c |}.

Definition set_turnSince (v : Q) (c : EngineContext) : EngineContext :=
  {| speakers := speakers c; activeSpeaker := activeSpeaker c;
     quietSpeaker := quietSpeaker c; talkTime := talkTime c;
     totalSeconds := totalSeconds c; silenceSeconds := silenceSeconds c;
     totalTalkTime := totalTalkTime c;
     currentMonologueSeconds := currentMonologueSeconds c;
     autoMode := autoMode c; quietMode := quietMode c;
     imbalanceScoreThreshold := imbalanceScoreThreshold c;
     imbalanceHoldSeconds := imbalanceHoldSeconds c;
     nudgeHoldSeconds := nudgeHoldSeconds c;
     turnHoldSeconds := turnHoldSeconds c;
     imbalanceSince := imbalanceSince c; nudgeSince := nudgeSince c;
     stateSince := stateSince c; turnSince := v; turnOrder := turnOrder c;
     turnIndex := turnIndex c; dominanceScore := dominanceScore c;
     imbalanceFlag := imbalanceFlag c |}.

Definition set_turnOrder (v : list string) (c : EngineContext) : EngineContext :=
  {| speakers := speakers c; activeSpeaker := activeSpeaker c;
     quietSpeaker := quietSpeaker c; talkTime := talkTime c;
     totalSeconds := totalSeconds c; silenceSeconds := silenceSeconds c;
     totalTalkTime := totalTalkTime c;
     currentMonologueSeconds := currentMonologueSeconds c;
     autoMode := autoMode c; quietMode := quietMode c;
     imbalanceScoreThreshold := imbalanceScoreThreshold c;
     imbalanceHoldSeconds := imbalanceHoldSeconds c;
     nudgeHoldSeconds := nudgeHoldSeconds c;
     turnHoldSeconds := turnHoldSeconds c;
     imbalanceSince := imbalanceSince c; nudgeSince := nudgeSince c;
     stateSince := stateSince c; turnSince := turnSince c; turnOrder := v;
     turnIndex := turnIndex c; dominanceScore := dominanceScore c;
     imbalanceFlag := imbalanceFlag c |}.

Definition set_turnIndex (v : Z) (c : EngineContext) : EngineContext :=
  {| speakers := speakers c; activeSpeaker := activeSpeaker c;
     quietSpeaker := quietSpeaker c; talkTime := talkTime c;
     totalSeconds := totalSeconds c; silenceSeconds := silenceSeconds c;
     totalTalkTime := totalTalkTime c;
     currentMonologueSeconds := currentMonologueSeconds c;
     autoMode := autoMode c; quietMode := quietMode c;
     imbalanceScoreThreshold := imbalanceScoreThreshold c;
     imbalanceHoldSeconds := imbalanceHoldSeconds c;
     nudgeHoldSeconds := nudgeHoldSeconds c;
     turnHoldSeconds := turnHoldSeconds c;
     imbalanceSince := imbalanceSince c; nudgeSince := nudgeSince c;
     stateSince := stateSince c; turnSince := turnSince c;
     turnOrder := turnOrder c; turnIndex := v;
     dominanceScore := dominanceScore c; imbalanceFlag := imbalanceFlag c |}.

Definition set_dominanceScore (v : Q) (c : EngineContext) : EngineContext :=
  {| speakers := speakers c; activeSpeaker := activeSpeaker c;
     quietSpeaker := quietSpeaker c; talkTime := talkTime c;
     totalSeconds := totalSeconds c; silenceSeconds := silenceSeconds c;
     totalTalkTime := totalTalkTime c;
     currentMonologueSeconds := currentMonologueSeconds c;
     autoMode := autoMode c; quietMode := quietMode c;
     imbalanceScoreThreshold := imbalanceScoreThreshold c;
     imbalanceHoldSeconds := imbalanceHoldSeconds c;
     nudgeHoldSeconds := nudgeHoldSeconds c;
     turnHoldSeconds := turnHoldSeconds c;
     imbalanceSince := imbalanceSince c; nudgeSince := nudgeSince c;
     stateSince := stateSince c; turnSince := turnSince c;
     turnOrder := turnOrder c; turnIndex := turnIndex c; dominanceScore := v;
     imbalanceFlag := imbalanceFlag c |}.

Definition set_imbalanceFlag (v : bool) (c : EngineContext) : EngineContext :=
  {| speakers := speakers c; activeSpeaker := activeSpeaker c;
     quietSpeaker := quietSpeaker c; talkTime := talkTime c;
     totalSeconds := totalSeconds c; silenceSeconds := silenceSeconds c;
     totalTalkTime := totalTalkTime c;
     currentMonologueSeconds := currentMonologueSeconds c;
     autoMode := autoMode c; quietMode := quietMode c;
     imbalanceScoreThreshold := imbalanceScoreThreshold c;
     imbalanceHoldSeconds := imbalanceHoldSeconds c;
     nudgeHoldSeconds := nudgeHoldSeconds c;
     turnHoldSeconds := turnHoldSeconds c;
     imbalanceSince := imbalanceSince c; nudgeSince := nudgeSince c;
     stateSince := stateSince c; turnSince := turnSince c;
     turnOrder := turnOrder c; turnIndex := turnIndex c;
     dominanceScore := dominanceScore c; imbalanceFlag := v |}.

(** [this.ctx.f = ...] inside a method, and sequencing of statements. *)
Definition upd (f : EngineContext → EngineContext) (e : DiscussionEngine)
  : DiscussionEngine :=
  {| ctx := f (ctx e); state := state e |}.

Notation "e '|>' f" := (f e) (at level 45, left associativity, only parsing).

(** ** JavaScript primitives used by the engine *)

(** [a >= b], [a <= b] and [a < b] on numbers. *)
Definition geb (a b : Q) : bool := Qle_bool b a.
Definition leb (a b : Q) : bool := Qle_bool a b.
Definition ltb (a b : Q) : bool := negb (Qle_bool b a).

(** [Math.max(x, ...l)] for a non-empty argument list. *)
Fixpoint Math_max (x : Q) (l : list Q) : Q :=
  match l with
  | [] => x
  | y :: l' => Math_max (Qmax x y) l'
  end.

(** [m[k] || 0]. *)
Definition get_or_0 (m : gmap string Q) (k : string) : Q :=
  default 0%Q (m !! k).

(** Truthiness of a [string | null]: [null] and the empty string are falsy. *)
Definition truthy (o : option string) : bool :=
  match o with
  | Some s => bool_decide (s ≠ "")
  | None => false
  end.

(** [o || null] for [o : string | undefined]. *)
Definition or_null (o : option string) : option string :=
  if truthy o then o else None.

(** [l[i]] for an integer index; out of range is [undefined]. *)
Definition at_index (l : list string) (i : Z) : option string :=
  if i <? 0 then None else l !! Z.to_nat i.

(** [l.indexOf(x)]: the first position of [x], or [-1]. *)
Fixpoint indexOf_from (i : Z) (l : list string) (x : string) : Z :=
  match l with
  | [] => -1
  | y :: l' => if bool_decide (y = x) then i else indexOf_from (i + 1) l' x
  end.

Definition indexOf (l : list string) (x : string) : Z := indexOf_from 0 l x.

(** [l.includes(x)]. *)
Definition includes (l : list string) (x : string) : bool :=
  bool_decide (x ∈ l).

(** [a === b] for [a : string | null] and a string [b]. *)
Definition is_name (a : option string) (b : string) : bool :=
  bool_decide (a = Some b).

(** [const m = {}; l.forEach(s => m[s] = 0)]. *)
Definition zeroed (l : list string) : gmap string Q :=
  fold_left (λ m s, <[s := 0%Q]> m) l ∅.

(** ** The dominance scorer *)

Definition epsilon : Q := 1 # 1000000.

Definition calculateDominance (talkTime : gmap string Q)
    (speakers : list string) (totalTalkTime : Q) : Q :=
  if (length speakers =? 0)%nat || leb totalTalkTime 0 then 0%Q
  else
    let times := map (get_or_0 talkTime) speakers in
    let max := match times with
               | [] => 0%Q (* not reached: [speakers] is non-empty here *)
               | t :: ts => Math_max t ts
               end in
    let mean := (totalTalkTime / inject_Z (Z.of_nat (length speakers)))%Q in
    ((max - mean) / (totalTalkTime + epsilon))%Q.

(** ** The engine *)

Module DiscussionEngine.

Definition constructor (speakers0 : list string) (thresholds : Thresholds)
  : DiscussionEngine :=
  {| ctx :=
       {| speakers := speakers0;
          activeSpeaker := None;
          quietSpeaker := None;
          talkTime := zeroed speakers0;
          totalSeconds := 0;
          silenceSeconds := 0;
          totalTalkTime := 0;
          currentMonologueSeconds := 0;
          autoMode := default true (th_autoMode thresholds);
          quietMode := false;
          imbalanceScoreThreshold :=
            default (35 # 100) (th_imbalanceScoreThreshold thresholds);
          imbalanceHoldSeconds := 15;
          nudgeHoldSeconds := 15;
          turnHoldSeconds := 60;
          imbalanceSince := None;
          nudgeSince := None;
          stateSince := 0;
          turnSince := 0;
          turnOrder := [];
          turnIndex := 0;
          dominanceScore := 0;
          imbalanceFlag := false |};
     state := DiscussionState.MONITORING |}.

Definition updateMetrics (e : DiscussionEngine) : DiscussionEngine :=
  let e := e |> upd (λ c, set_dominanceScore
                 (calculateDominance (talkTime c) (speakers c) (totalTalkTime c)) c) in
  let isGracePeriod := ltb (totalSeconds (ctx e)) 15 in
  if bool_decide (state e = DiscussionState.STRUCTURED)
     || bool_decide (state e = DiscussionState.PAUSE)
     || bool_decide (state e = DiscussionState.NUDGE)
     || bool_decide (state e = DiscussionState.CHECKIN)
     || quietMode (ctx e)
     || isGracePeriod
  then e |> upd (set_imbalanceFlag false)
  else
    let isScoreImbalanced :=
      geb (dominanceScore (ctx e)) (imbalanceScoreThreshold (ctx e)) in
    let isMonologueImbalanced := geb (currentMonologueSeconds (ctx e)) 15 in
    e |> upd (set_imbalanceFlag (isScoreImbalanced || isMonologueImbalanced)).

Definition setState (next : DiscussionState.t) (e : DiscussionEngine)
  : DiscussionEngine :=
  let prevState := state e in
  if bool_decide (prevState = next) then e
  else
    let e := {| ctx := ctx e; state := next |} in
    let e :=
      match state e with
      | DiscussionState.MONITORING =>
          let e :=
            if bool_decide (prevState = DiscussionState.CHECKIN) then
              e |> upd (set_totalSeconds 0)
                |> upd (set_totalTalkTime 0)
                |> upd (set_currentMonologueSeconds 0)
                |> upd (set_silenceSeconds 0)
                |> upd (set_imbalanceSince None)
                |> upd (set_imbalanceFlag false)
                |> upd (set_dominanceScore 0)
                |> upd (λ c, set_talkTime (zeroed (speakers c)) c)
            else e in
          e |> upd (set_activeSpeaker None)
      | DiscussionState.STRUCTURED =>
          let order := speakers (ctx e) in
          e |> upd (set_turnOrder order)
            |> upd (set_turnIndex 0)
            |> upd (set_activeSpeaker (or_null (at_index order 0)))
            |> upd (λ c, set_turnSince (totalSeconds c) c)
            |> upd (set_currentMonologueSeconds 0)
      | DiscussionState.PAUSE =>
          e |> upd (set_activeSpeaker None)
            |> upd (set_silenceSeconds 0)
            |> upd (set_currentMonologueSeconds 0)
      | DiscussionState.CHECKIN =>
          e |> upd (set_activeSpeaker None)
            |> upd (set_currentMonologueSeconds 0)
      | _ => e
      end in
    e |> upd (λ c, set_stateSince (totalSeconds c) c)
      |> updateMetrics.

Definition nextTurn (e : DiscussionEngine) : DiscussionEngine :=
  if negb (bool_decide (state e = DiscussionState.STRUCTURED)) then e
  else
    let e := e |> upd (λ c, set_turnIndex (turnIndex c + 1) c) in
    if Z.of_nat (length (turnOrder (ctx e))) <=? turnIndex (ctx e)
    then setState DiscussionState.PAUSE e
    else
      e |> upd (λ c, set_activeSpeaker (at_index (turnOrder c) (turnIndex c)) c)
        |> upd (λ c, set_turnSince (totalSeconds c) c)
        |> upd (set_currentMonologueSeconds 0).

Definition autoAdvanceIfNeeded (e : DiscussionEngine) : DiscussionEngine :=
  if negb (autoMode (ctx e)) then e
  else
    let now := totalSeconds (ctx e) in
    match state e with
    | DiscussionState.MONITORING =>
        if quietMode (ctx e) then e |> upd (set_imbalanceSince None)
        else if imbalanceFlag (ctx e) then
          let since := default now (imbalanceSince (ctx e)) in
          let e := e |> upd (set_imbalanceSince (Some since)) in
          if geb (now - since) (imbalanceHoldSeconds (ctx e)) then
            e |> upd (set_imbalanceSince None) |> setState DiscussionState.IMBALANCE
          else e
        else e |> upd (set_imbalanceSince None)
    | DiscussionState.IMBALANCE =>
        if geb (now - stateSince (ctx e)) 15 then setState DiscussionState.NUDGE e else e
    | DiscussionState.NUDGE =>
        if geb (now - stateSince (ctx e)) (nudgeHoldSeconds (ctx e))
        then setState DiscussionState.STRUCTURED e else e
    | DiscussionState.STRUCTURED =>
        let turnElapsed := (now - turnSince (ctx e))%Q in
        if (0 <? Z.of_nat (length (turnOrder (ctx e))))
           && geb turnElapsed (turnHoldSeconds (ctx e))
        then nextTurn e else e
    | DiscussionState.PAUSE =>
        if geb (now - stateSince (ctx e)) 20 then setState DiscussionState.CHECKIN e else e
    | DiscussionState.CHECKIN =>
        if geb (now - stateSince (ctx e)) 20 then setState DiscussionState.MONITORING e else e
    end.

(** The [TICK] case of [send] up to, and excluding, its calls of
    [updateMetrics] and [autoAdvanceIfNeeded]. *)
Definition tick_effects (dt : Q) (e : DiscussionEngine) : DiscussionEngine :=
  let e := e |> upd (λ c, set_totalSeconds (totalSeconds c + dt) c) in
  let silent :=
    e |> upd (λ c, set_silenceSeconds (silenceSeconds c + dt) c)
      |> upd (set_currentMonologueSeconds 0) in
  match activeSpeaker (ctx e) with
  | Some a =>
      if truthy (Some a) && bool_decide (is_Some (talkTime (ctx e) !! a))
      then
        e |> upd (λ c, set_talkTime
                   (<[a := (get_or_0 (talkTime c) a + dt)%Q]> (talkTime c)) c)
          |> upd (λ c, set_totalTalkTime (totalTalkTime c + dt) c)
          |> upd (λ c, set_currentMonologueSeconds
                         (currentMonologueSeconds c + dt) c)
          |> upd (set_silenceSeconds 0)
      else silent
  | None => silent
  end.

Definition send (event : DiscussionEvent) (e : DiscussionEngine)
  : DiscussionEngine :=
  match event with
  | SPEAKER_SET name =>
      let e :=
        if negb (is_name (activeSpeaker (ctx e)) name)
        then e |> upd (set_currentMonologueSeconds 0) else e in
      if bool_decide (state e = DiscussionState.STRUCTURED) then
        let idx := indexOf (turnOrder (ctx e)) name in
        if negb (idx =? -1) then
          e |> upd (set_turnIndex idx)
            |> upd (set_activeSpeaker (Some name))
            |> upd (λ c, set_turnSince (totalSeconds c) c)
        else e
      else e |> upd (set_activeSpeaker (Some name))
  | SET_QUIET_SPEAKER name => e |> upd (set_quietSpeaker name)
  | SET_AUTO_MODE enabled => e |> upd (set_autoMode enabled)
  | SET_QUIET_MODE enabled => e |> upd (set_quietMode enabled) |> updateMetrics
  | SILENCE =>
      e |> upd (set_activeSpeaker None) |> upd (set_currentMonologueSeconds 0)
  | TICK dt => e |> tick_effects dt |> updateMetrics |> autoAdvanceIfNeeded
  | ADD_SPEAKER name =>
      if negb (includes (speakers (ctx e)) name) then
        e |> upd (λ c, set_speakers (speakers c ++ [name]) c)
          |> upd (λ c, set_talkTime (<[name := 0%Q]> (talkTime c)) c)
          |> updateMetrics
      else e
  | REMOVE_SPEAKER name =>
      let e := e |> upd (λ c, set_speakers
                   (filter (λ s, s ≠ name) (speakers c)) c) in
      let removedTime := get_or_0 (talkTime (ctx e)) name in
      let e := e |> upd (λ c, set_talkTime (delete name (talkTime c)) c) in
      let e := e |> upd (λ c, set_totalTalkTime
                                (Qmax 0 (totalTalkTime c - removedTime)) c) in
      let e :=
        if is_name (activeSpeaker (ctx e)) name then
          e |> upd (set_activeSpeaker None)
            |> upd (set_currentMonologueSeconds 0)
        else e in
      let e :=
        if is_name (quietSpeaker (ctx e)) name
        then e |> upd (set_quietSpeaker None) else e in
      e |> updateMetrics
  | SET_TALK_TIME name seconds =>
      match talkTime (ctx e) !! name with
      | Some oldVal =>
          e |> upd (λ c, set_talkTime
                           (<[name := Qmax 0 seconds]> (talkTime c)) c)
            |> upd (λ c, set_totalTalkTime
                           (totalTalkTime c - oldVal + Qmax 0 seconds) c)
            |> updateMetrics
      | None => e
      end
  | SET_SILENCE seconds =>
      e |> upd (set_silenceSeconds (Qmax 0 seconds)) |> updateMetrics
  | FORCE_STATE next => setState next e
  | NEXT_TURN => nextTurn e
  | TURNS_COMPLETE | PAUSE_DONE | CHECKIN _ => e
  end.

(** [snapshot()] returns the phase and a copy of the context. *)
Definition snapshot (e : DiscussionEngine) : DiscussionState.t * EngineContext :=
  (state e, ctx e).

(** Sending a sequence of events, first to last. *)
Definition run (events : list DiscussionEvent) (e : DiscussionEngine)
  : DiscussionEngine :=
  fold_left (λ e ev, send ev e) events e.

End DiscussionEngine.
Import DiscussionEngine.

(** * Vocabulary of the properties *)

(** ** Scripted scenarios *)

(** An engine for speakers A and B with the default policy constants. *)
Definition engineAB : DiscussionEngine := constructor ["A"; "B"] no_thresholds.

(** [SPEAKER_SET{A}] followed by [k] events [TICK{1}]. *)
Definition A_speaks_for (k : nat) : DiscussionEngine :=
  run (SPEAKER_SET "A" :: repeat (TICK 1) k) engineAB.

(** The phase expected after [k] one-second ticks of A speaking alone. *)
Definition escalation_phase (k : nat) : DiscussionState.t :=
  if (k <? 30)%nat then DiscussionState.MONITORING
  else if (k <? 45)%nat then DiscussionState.IMBALANCE
  else if (k <? 60)%nat then DiscussionState.NUDGE
  else DiscussionState.STRUCTURED.

(** The escalation scenario after [k] ticks, as a test that evaluates. *)
Definition escalation_check (k : nat) : bool :=
  let e := A_speaks_for k in
  Qeq_bool (totalSeconds (ctx e)) (inject_Z (Z.of_nat k))
  && bool_decide (activeSpeaker (ctx e) = Some "A")
  && bool_decide (state e = escalation_phase k).

(** The grace-period scenario after [k] ticks, as a test that evaluates. *)
Definition grace_check (k : nat) : bool :=
  let c := ctx (A_speaks_for k) in
  negb (imbalanceFlag c)
  && ltb (totalSeconds c) 15
  && ((k =? 0)%nat || geb (dominanceScore c) (imbalanceScoreThreshold c)).

(** The talk times [{A: a, B: b}]. *)
Definition talkAB (a b : Q) : gmap string Q := <["A" := a]> (<["B" := b]> ∅).

(** A script of accounting events with one negative [TICK]. *)
Definition backward_script : list DiscussionEvent :=
  [SET_TALK_TIME "A" 100; TICK 15; TICK 15; TICK 15; TICK 15;
   TICK (-200); REMOVE_SPEAKER "B"].

(** A lone speaker A has talked for 15 seconds. *)
Definition monologue15 : DiscussionEngine :=
  run [SPEAKER_SET "A"; TICK 15] (constructor ["A"] no_thresholds).

(** ** The scorer *)

(** [x] is the largest element of [l]. *)
Definition is_largest (x : Q) (l : list Q) : Prop :=
  x ∈ l ∧ Forall (λ y, (y <= x)%Q) l.

(** ** Talk-time accounting *)

Definition sumQ (l : list Q) : Q := foldr Qplus 0%Q l.

(** The sum of all [talkTime] values. *)
Definition sumTalk (m : gmap string Q) : Q := sumQ ((map_to_list m).*2).

(** The keys of [talkTime] are exactly the speakers. *)
Definition keys_ok (e : DiscussionEngine) : Prop :=
  ∀ k, is_Some (talkTime (ctx e) !! k) ↔ k ∈ speakers (ctx e).

(** The books are in order: [totalTalkTime] is the sum of the [talkTime]
    values and no talk time is negative. *)
Definition books_ok (e : DiscussionEngine) : Prop :=
  (totalTalkTime (ctx e) == sumTalk (talkTime (ctx e)))%Q ∧
  map_Forall (λ _ v, (0 <= v)%Q) (talkTime (ctx e)).

(** Events whose [TICK]s do not run the clock backwards. *)
Definition forward (ev : DiscussionEvent) : Prop :=
  match ev with
  | TICK dt => (0 <= dt)%Q
  | _ => True
  end.

(** The four kinds of events that touch the talk-time books. *)
Definition accounting_event (ev : DiscussionEvent) : Prop :=
  match ev with
  | ADD_SPEAKER _ | REMOVE_SPEAKER _ | SET_TALK_TIME _ _ | TICK _ => True
  | _ => False
  end.

(** ** Where the model and the program coincide *)

(** The property names every JavaScript object inherits from
    [Object.prototype].  For these names the source's [talkTime[name]] is
    not [undefined] even when [talkTime] has no entry of its own for
    [name], so the guards [talkTime[name] !== undefined] of TICK and
    SET_TALK_TIME pass for them and [talkTime[name] || 0] is not a
    number; the finite map of the model has no such entries. *)
Definition Object_prototype_names : list string :=
  ["constructor"; "hasOwnProperty"; "isPrototypeOf"; "propertyIsEnumerable";
   "toLocaleString"; "toString"; "valueOf"; "__proto__";
   "__defineGetter__"; "__defineSetter__"; "__lookupGetter__";
   "__lookupSetter__"].

(** A name for which the record lookups of the source and of the model
    agree. *)
Definition ordinary (name : string) : bool :=
  negb (existsb (String.eqb name) Object_prototype_names).

(** The names an event carries. *)
Definition names_of (ev : DiscussionEvent) : list string :=
  match ev with
  | SPEAKER_SET name | ADD_SPEAKER name | REMOVE_SPEAKER name
  | SET_TALK_TIME name _ => [name]
  | SET_QUIET_SPEAKER (Some name) => [name]
  | _ => []
  end.

Definition ordinary_event (ev : DiscussionEvent) : bool :=
  forallb ordinary (names_of ev).

(** [Number.MAX_SAFE_INTEGER]: up to this bound the doubles of the source
    hold every whole number, and add and subtract them without rounding. *)
Definition MAX_SAFE_INTEGER : Z := 9007199254740991.

(** A whole number. *)
Definition whole (q : Q) : bool := (Qnum q mod Z.pos (Qden q) =? 0)%Z.

Definition integral (q : Q) : Prop := ∃ n : Z, (q == inject_Z n)%Q.

(** A whole number between 0 and [MAX_SAFE_INTEGER]. *)
Definition safe_integer (q : Q) : Prop :=
  ∃ n : Z, 0 ≤ n ≤ MAX_SAFE_INTEGER ∧ (q == inject_Z n)%Q.

(** Events that book whole seconds: a [TICK] a non-negative whole number,
    a SET_TALK_TIME a whole number. *)
Definition whole_seconds (ev : DiscussionEvent) : bool :=
  match ev with
  | TICK dt => whole dt && Qle_bool 0 dt
  | SET_TALK_TIME _ seconds => whole seconds
  | _ => true
  end.

(** The most an event can add to [totalTalkTime]. *)
Definition charge (ev : DiscussionEvent) : Q :=
  match ev with
  | TICK dt => dt
  | SET_TALK_TIME _ seconds => Qmax 0 seconds
  | _ => 0%Q
  end.

Definition regular (ev : DiscussionEvent) : bool :=
  ordinary_event ev && whole_seconds ev.

(** A session on which the talk-time books of the model are those of the
    program: ordinary names only, whole seconds only, and no more seconds
    in all than a double counts exactly. *)
Definition exact_run (sp : list string) (evs : list DiscussionEvent) : bool :=
  forallb ordinary sp
  && forallb regular evs
  && Qle_bool (sumQ (map charge evs)) (inject_Z MAX_SAFE_INTEGER).

(** A session with ordinary names only. *)
Definition ordinary_run (sp : list string) (evs : list DiscussionEvent) : bool :=
  forallb ordinary sp && forallb ordinary_event evs.

(** The books hold whole numbers and [totalTalkTime] is at most [b]. *)
Definition ledger_ok (b : Q) (e : DiscussionEngine) : Prop :=
  integral (totalTalkTime (ctx e)) ∧
  (totalTalkTime (ctx e) <= b)%Q ∧
  map_Forall (λ _ v, integral v) (talkTime (ctx e)).

(** ** Structured turn-taking *)

(** What holds of the turn bookkeeping while the phase is
    STRUCTURED_TURN_TAKING. *)
Definition turn_ok (e : DiscussionEngine) : Prop :=
  state e = DiscussionState.STRUCTURED →
  0 ≤ turnIndex (ctx e) ∧
  (turnIndex (ctx e) < Z.of_nat (length (turnOrder (ctx e))) ∨
   (turnOrder (ctx e) = [] ∧ turnIndex (ctx e) = 0)) ∧
  (activeSpeaker (ctx e) = None ∨
   activeSpeaker (ctx e) = at_index (turnOrder (ctx e)) (turnIndex (ctx e))).

(** The stricter form: the index is always in range and the active speaker
    always is the one whose turn it is. *)
Definition strict_turn_invariant (e : DiscussionEngine) : Prop :=
  state e = DiscussionState.STRUCTURED →
  0 ≤ turnIndex (ctx e) < Z.of_nat (length (turnOrder (ctx e))) ∧
  activeSpeaker (ctx e) = at_index (turnOrder (ctx e)) (turnIndex (ctx e)).

(** ** The clock *)

(** One step of the clock outside [TICK]'s own increment: either the phase
    goes from CHECK_IN to MONITORING and the clock restarts at 0, or the
    clock is untouched. *)
Definition clock_step (e e' : DiscussionEngine) : Prop :=
  (state e = DiscussionState.CHECKIN ∧ state e' = DiscussionState.MONITORING ∧
   totalSeconds (ctx e') = 0%Q) ∨
  (¬ (state e = DiscussionState.CHECKIN ∧ state e' = DiscussionState.MONITORING) ∧
   totalSeconds (ctx e') = totalSeconds (ctx e)).

(** The effects of [TICK(dt)] read off the state at the end of the whole
    [send], with every active name treated as a speaker. *)
Definition tick_as_claimed (dt : Q) (e : DiscussionEngine) : Prop :=
  let e' := send (TICK dt) e in
  (totalSeconds (ctx e') == totalSeconds (ctx e) + dt)%Q ∧
  match activeSpeaker (ctx e) with
  | Some a =>
      (get_or_0 (talkTime (ctx e')) a == get_or_0 (talkTime (ctx e)) a + dt)%Q ∧
      (totalTalkTime (ctx e') == totalTalkTime (ctx e) + dt)%Q ∧
      (currentMonologueSeconds (ctx e')
         == currentMonologueSeconds (ctx e) + dt)%Q ∧
      (silenceSeconds (ctx e') == 0)%Q
  | None =>
      (silenceSeconds (ctx e') == silenceSeconds (ctx e) + dt)%Q ∧
      (currentMonologueSeconds (ctx e') == 0)%Q
  end.

(** The condition of the speaking branch of TICK: the active speaker is
    the non-empty name [a], and [a] has a [talkTime] entry. *)
Definition speaking (e : DiscussionEngine) (a : string) : Prop :=
  activeSpeaker (ctx e) = Some a ∧ a ≠ "" ∧ is_Some (talkTime (ctx e) !! a).

(** Nobody the engine knows is speaking: there is no active speaker, or
    the active name is empty, or it has no [talkTime] entry (and is not
    one of the inherited names, for which the source's guard passes). *)
Definition nobody_speaking (e : DiscussionEngine) : Prop :=
  activeSpeaker (ctx e) = None ∨
  activeSpeaker (ctx e) = Some "" ∨
  ∃ a, activeSpeaker (ctx e) = Some a ∧ ordinary a = true
       ∧ talkTime (ctx e) !! a = None.

(** ** Derived metrics *)

(** The phases in which the imbalance flag is forced to false. *)
Definition suppresses_flag (phase : DiscussionState.t) : bool :=
  match phase with
  | DiscussionState.STRUCTURED | DiscussionState.PAUSE
  | DiscussionState.NUDGE | DiscussionState.CHECKIN => true
  | DiscussionState.MONITORING | DiscussionState.IMBALANCE => false
  end.

(** The imbalance flag as the specification defines it from the rest of
    the state. *)
Definition expected_flag (e : DiscussionEngine) : bool :=
  if suppresses_flag (state e)
     || quietMode (ctx e)
     || ltb (totalSeconds (ctx e)) 15
  then false
  else geb (dominanceScore (ctx e)) (imbalanceScoreThreshold (ctx e))
       || geb (currentMonologueSeconds (ctx e)) 15.

(** Both derived metrics agree with the rest of the state. *)
Definition metrics_fresh (e : DiscussionEngine) : Prop :=
  dominanceScore (ctx e)
    = calculateDominance (talkTime (ctx e)) (speakers (ctx e)) (totalTalkTime (ctx e)) ∧
  imbalanceFlag (ctx e) = expected_flag e.

(** ** Proof automation *)

(** Case analysis on the condition of the first [if] of the goal. *)
Ltac case_if :=
  match goal with |- context [if ?b then _ else _] => destruct b end.

(** * Callers in [App.tsx] *)

Module App.

(** [isImbalanceMeasureActive]: the phases in which the interface shows
    the imbalance measure. *)
Definition isImbalanceMeasureActive (state : DiscussionState.t) : bool :=
  negb (bool_decide (state = DiscussionState.STRUCTURED))
  && negb (bool_decide (state = DiscussionState.PAUSE))
  && negb (bool_decide (state = DiscussionState.NUDGE))
  && negb (bool_decide (state = DiscussionState.CHECKIN)).

Record RoundProgress : Type := mkRoundProgress {
  progressPercent : Q;
  roundElapsed : Q;
  totalRoundSeconds : Q
}.

(** [roundProgressInfo], computed from a snapshot; [null] is [None]. *)
Definition roundProgressInfo (snap : DiscussionState.t * EngineContext)
  : option RoundProgress :=
  let state := fst snap in
  let context := snd snap in
  if negb (bool_decide (state = DiscussionState.STRUCTURED))
     || (length (turnOrder context) =? 0)%nat
  then None
  else
    let speakerCount := inject_Z (Z.of_nat (length (turnOrder context))) in
    let totalRoundSeconds := (speakerCount * turnHoldSeconds context)%Q in
    let turnElapsed := (totalSeconds context - turnSince context)%Q in
    let roundElapsed :=
      (inject_Z (turnIndex context) * turnHoldSeconds context
       + Qmin turnElapsed (turnHoldSeconds context))%Q in
    let progressPercent := (roundElapsed / totalRoundSeconds * 100)%Q in
    Some {| progressPercent := progressPercent;
            roundElapsed := roundElapsed;
            totalRoundSeconds := totalRoundSeconds |}.

(** [handleToggleSilence]: the callback reads the phase of the latest
    snapshot and the component state [previousState], sends one
    FORCE_STATE and may store the phase it left. *)
Definition handleToggleSilence (engine : DiscussionEngine)
    (previousState : option DiscussionState.t)
  : DiscussionEngine * option DiscussionState.t :=
  if bool_decide (fst (snapshot engine) = DiscussionState.PAUSE) then
    (send (FORCE_STATE (default DiscussionState.MONITORING previousState)) engine,
     previousState)
  else
    (send (FORCE_STATE DiscussionState.PAUSE) engine,
     Some (fst (snapshot engine))).

End App.

(** * Vocabulary of the further properties *)

(** The phase that follows [p] in the intervention cycle. *)
Definition next_phase (p : DiscussionState.t) : DiscussionState.t :=
  match p with
  | DiscussionState.MONITORING => DiscussionState.IMBALANCE
  | DiscussionState.IMBALANCE => DiscussionState.NUDGE
  | DiscussionState.NUDGE => DiscussionState.STRUCTURED
  | DiscussionState.STRUCTURED => DiscussionState.PAUSE
  | DiscussionState.PAUSE => DiscussionState.CHECKIN
  | DiscussionState.CHECKIN => DiscussionState.MONITORING
  end.

(** The events whose case in [send] can reach [setState]. *)
Definition may_change_phase (ev : DiscussionEvent) : bool :=
  match ev with
  | TICK _ | FORCE_STATE _ | NEXT_TURN => true
  | _ => false
  end.

(** The fields that hold policy constants, and the unused [nudgeSince]. *)
Definition policy (c : EngineContext) : Q * Q * Q * Q * option Q :=
  (imbalanceScoreThreshold c, imbalanceHoldSeconds c, nudgeHoldSeconds c,
   turnHoldSeconds c, nudgeSince c).

(** Imbalance detection is switched off: by the phase, by quiet mode or by
    the grace period. *)
Definition suppressed (e : DiscussionEngine) : bool :=
  suppresses_flag (state e) || quietMode (ctx e) || ltb (totalSeconds (ctx e)) 15.

(** The stored score is the score of the stored talk times. *)
Definition score_fresh (e : DiscussionEngine) : Prop :=
  dominanceScore (ctx e)
  = calculateDominance (talkTime (ctx e)) (speakers (ctx e)) (totalTalkTime (ctx e)).

(** The flag is down whenever detection is switched off. *)
Definition flag_respects_suppression (e : DiscussionEngine) : Prop :=
  suppressed e = true → imbalanceFlag (ctx e) = false.

(** Both signal invariants at once. *)
Definition signals_ok_aux (e : DiscussionEngine) : Prop :=
  score_fresh e ∧ flag_respects_suppression e.

(** Time stamps do not lie in the future. *)
Definition stamps_ok (e : DiscussionEngine) : Prop :=
  (stateSince (ctx e) <= totalSeconds (ctx e))%Q ∧
  (state e = DiscussionState.STRUCTURED →
   (turnSince (ctx e) <= totalSeconds (ctx e))%Q).


(** The talk history: who spoke for how long, and the clock. *)
Definition history (e : DiscussionEngine)
  : list string * gmap string Q * Q * Q :=
  (speakers (ctx e), talkTime (ctx e), totalTalkTime (ctx e), totalSeconds (ctx e)).

(** ** Proof automation *)

(** Reduce the field reads of a chain of field assignments, and nothing
    else. *)
Ltac engine_cbn :=
  cbn [ctx state upd
       speakers activeSpeaker quietSpeaker talkTime totalSeconds silenceSeconds
       totalTalkTime currentMonologueSeconds autoMode quietMode
       imbalanceScoreThreshold imbalanceHoldSeconds nudgeHoldSeconds
       turnHoldSeconds imbalanceSince nudgeSince stateSince turnSince turnOrder
       turnIndex dominanceScore imbalanceFlag
       set_speakers set_activeSpeaker set_quietSpeaker set_talkTime
       set_totalSeconds set_silenceSeconds set_totalTalkTime
       set_currentMonologueSeconds set_autoMode set_quietMode set_imbalanceSince
       set_stateSince set_turnSince set_turnOrder set_turnIndex
       set_dominanceScore set_imbalanceFlag].

(** The same in a hypothesis. *)
Ltac engine_cbn_in H :=
  cbn [ctx state upd
       speakers activeSpeaker quietSpeaker talkTime totalSeconds silenceSeconds
       totalTalkTime currentMonologueSeconds autoMode quietMode
       imbalanceScoreThreshold imbalanceHoldSeconds nudgeHoldSeconds
       turnHoldSeconds imbalanceSince nudgeSince stateSince turnSince turnOrder
       turnIndex dominanceScore imbalanceFlag
       set_speakers set_activeSpeaker set_quietSpeaker set_talkTime
       set_totalSeconds set_silenceSeconds set_totalTalkTime
       set_currentMonologueSeconds set_autoMode set_quietMode set_imbalanceSince
       set_stateSince set_turnSince set_turnOrder set_turnIndex
       set_dominanceScore set_imbalanceFlag] in H.

(** The time a phase must have lasted before a TICK moves on from it, for
    the four phases that only wait. *)
Definition dwell (c : EngineContext) (p : DiscussionState.t) : Q :=
  match p with
  | DiscussionState.IMBALANCE => 15
  | DiscussionState.NUDGE => nudgeHoldSeconds c
  | DiscussionState.PAUSE | DiscussionState.CHECKIN => 20
  | DiscussionState.MONITORING | DiscussionState.STRUCTURED => 0
  end.

(** The phases that only wait for their time to pass. *)
Definition waits (p : DiscussionState.t) : bool :=
  match p with
  | DiscussionState.IMBALANCE | DiscussionState.NUDGE
  | DiscussionState.PAUSE | DiscussionState.CHECKIN => true
  | DiscussionState.MONITORING | DiscussionState.STRUCTURED => false
  end.

(** * The earlier engine variant *)

(** The scorer and the quiet-speaker search of the earlier
    [DiscussionEngine]; [Infinity] as a running minimum is [None]. *)
Module Legacy.

(** [calculateDominance(talkTime, speakers)]. *)
Definition calculateDominance (talkTime : gmap string Q) (speakers : list string)
  : Q :=
  let times := map (get_or_0 talkTime) speakers in
  let total := fold_left Qplus times 0%Q in
  if leb total 0 then 0%Q
  else
    let max := match times with
               | [] => 0%Q (* not reached: the total of no times is 0 *)
               | t :: ts => Math_max t ts
               end in
    let mean :=
      (total / inject_Z (Z.of_nat (if (length speakers =? 0)%nat then 1
                                   else length speakers)))%Q in
    ((max - mean) / (total + epsilon))%Q.



End Legacy.


(** * The advisory sentence ([geminiService.ts]) *)

Module GeminiService.

Definition IMBALANCE_TEXT : string := "השיח אינו מאוזן כרגע, ישנם קולות שכמעט לא נשמעים".
Definition NUDGE_TEXT : string := "מאטים רגע, כדי לאפשר לאזן את השיח".
Definition STRUCTURED_TEXT : string := "כדי לתת מקום לכולם נעבור עכשיו לסבב תורות".
Definition PAUSE_TEXT : string := "ניקח רגע של שקט כדי לחשוב ולהפנים את מה שנאמר".
Definition CHECKIN_TEXT : string := "נמשיך בשיח רק אם אין התנגדות מהותית".

(** The two literal sentences of the fallbacks of [getModerationTip]. *)
Definition FALLBACK_TEXT : string := "שיח פורה לכולם!".
Definition RATE_LIMIT_TEXT : string := "נמשיך להקשיב ולנהל שיח מכבד.".

(** What the awaited call of the generative service comes to: a response,
    of which the code reads [response.text?.trim()], or an exception, of
    which it asks whether it reports status 429. *)
Inductive Upstream : Type :=
  | Answered (trimmedText : option string)
  | Failed (rateLimited : bool).

(** The value of an enum member, as a template string prints it. *)
Definition state_name (state : DiscussionState.t) : string :=
  match state with
  | DiscussionState.MONITORING => "monitoring"
  | DiscussionState.IMBALANCE => "imbalanceDetected"
  | DiscussionState.NUDGE => "nudge"
  | DiscussionState.STRUCTURED => "structuredTurnTaking"
  | DiscussionState.PAUSE => "reflectionPause"
  | DiscussionState.CHECKIN => "checkIn"
  end.

(** [`${state}-${context.speakers.length}`]. *)
Definition cacheKey (state : DiscussionState.t) (context : EngineContext) : string :=
  state_name state +:+ "-" +:+ pretty (length (speakers context)).

(** A [string | undefined] in a condition or on the left of [||]: the
    value when it is truthy. *)
Definition nonempty (o : option string) : option string :=
  match o with
  | Some s => if bool_decide (s = "") then None else Some s
  | None => None
  end.

(** [getModerationTip] up to its [await]: the tip, when the function
    returns without calling the service, or the cache key it goes on
    with. *)
Definition getModerationTip_begin (state : DiscussionState.t)
    (context : EngineContext) (tipCache : gmap string string) : string + string :=
  match state with
  | DiscussionState.IMBALANCE => inl IMBALANCE_TEXT
  | DiscussionState.NUDGE => inl NUDGE_TEXT
  | DiscussionState.STRUCTURED => inl STRUCTURED_TEXT
  | DiscussionState.PAUSE => inl PAUSE_TEXT
  | DiscussionState.CHECKIN => inl CHECKIN_TEXT
  | DiscussionState.MONITORING =>
      let cacheKey := cacheKey state context in
      match nonempty (tipCache !! cacheKey) with
      | Some cached => inl cached
      | None => inr cacheKey
      end
  end.

(** [getModerationTip] from its [await] on, on the cache as it is then. *)
Definition getModerationTip_resume (cacheKey : string) (upstream : Upstream)
    (tipCache : gmap string string) : string * gmap string string :=
  match upstream with
  | Answered trimmedText =>
      let text := default FALLBACK_TEXT (nonempty trimmedText) in
      (text, <[cacheKey := text]> tipCache)
  | Failed rateLimited =>
      if rateLimited then (RATE_LIMIT_TEXT, tipCache)
      else (FALLBACK_TEXT, tipCache)
  end.

(** A call of [getModerationTip(state, context)] during which no other
    call writes the module-level [tipCache], which is passed in and
    returned with the tip. *)
Definition getModerationTip (upstream : Upstream) (state : DiscussionState.t)
    (context : EngineContext) (tipCache : gmap string string)
    : string * gmap string string :=
  match getModerationTip_begin state context tipCache with
  | inl tip => (tip, tipCache)
  | inr cacheKey => getModerationTip_resume cacheKey upstream tipCache
  end.

(** One call after the other. *)
Definition calls (script : list (Upstream * DiscussionState.t * EngineContext))
    (tipCache : gmap string string) : gmap string string :=
  fold_left (fun cache c => (getModerationTip c.1.1 c.1.2 c.2 cache).2)
    script tipCache.

End GeminiService.

(** * Properties *)

(** ** The dominance scorer *)

Lemma Qmax_cases (x y : Q) : Qmax x y = x ∨ Qmax x y = y.
Proof.
  unfold Qmax, GenericMinMax.gmax. destruct (x ?= y)%Q; auto.
Qed.

Lemma Math_max_elem (x : Q) (l : list Q) : Math_max x l ∈ x :: l.
Proof.
  revert x. induction l as [|y l IH]; intros x; simpl.
  - left.
  - pose proof (IH (Qmax x y)) as H. clear IH.
    apply elem_of_cons in H as [H|H]; [|do 2 right; exact H].
    rewrite H. destruct (Qmax_cases x y) as [E|E]; rewrite E.
    + left.
    + right; left.
Qed.

Lemma Math_max_upper (x : Q) (l : list Q) :
  Forall (λ y, (y <= Math_max x l)%Q) (x :: l).
Proof.
  revert x. induction l as [|y l IH]; intros x; simpl.
  - repeat constructor. apply Qle_refl.
  - specialize (IH (Qmax x y)). inversion IH as [|? ? Hm Hl]; subst.
    constructor; [|constructor; [|exact Hl]].
    + eapply Qle_trans; [apply Q.le_max_l | exact Hm].
    + eapply Qle_trans; [apply Q.le_max_r | exact Hm].
Qed.

Lemma Math_max_largest (x : Q) (l : list Q) : is_largest (Math_max x l) (x :: l).
Proof. split; [apply Math_max_elem | apply Math_max_upper]. Qed.

Lemma calculateDominance_nondegenerate tt (sp : list string) tot :
  sp ≠ [] → (0 < tot)%Q →
  ∃ mx, is_largest mx (map (get_or_0 tt) sp) ∧
    calculateDominance tt sp tot =
      ((mx - tot / inject_Z (Z.of_nat (length sp))) / (tot + (1 # 1000000)))%Q.
Proof.
  intros Hsp Htot. unfold calculateDominance, leb.
  destruct sp as [|s sp]; [done|]. simpl length. simpl Nat.eqb. simpl orb.
  destruct (Qle_bool tot 0) eqn:E.
  { apply Qle_bool_iff in E. exfalso. eapply Qlt_not_le; eauto. }
  simpl map. eexists. split; [apply Math_max_largest | reflexivity].
Qed.

Lemma calculateDominance_tied tt (sp : list string) (tot t : Q) :
  (∀ s, s ∈ sp → (get_or_0 tt s == t)%Q) →
  (tot == inject_Z (Z.of_nat (length sp)) * t)%Q →
  (calculateDominance tt sp tot == 0)%Q.
Proof.
  intros Hall Htot.
  destruct sp as [|s0 sp]; [reflexivity|].
  destruct (Qlt_le_dec 0 tot) as [Hpos|Hle].
  2:{ unfold calculateDominance, leb. apply Qle_bool_iff in Hle. rewrite Hle.
      rewrite orb_true_r. reflexivity. }
  destruct (calculateDominance_nondegenerate tt (s0 :: sp) tot) as (mx & [Hin _] & ->);
    [done | exact Hpos |].
  apply list_elem_of_fmap in Hin as (s & -> & Hs).
  assert (Hn : ~ (inject_Z (Z.of_nat (length (s0 :: sp))) == 0)%Q).
  { simpl length. rewrite Nat2Z.inj_succ. unfold Qeq. simpl. lia. }
  assert (Hd : ~ (tot + (1 # 1000000) == 0)%Q).
  { intros H. apply (Qlt_irrefl 0). rewrite <- H at 2.
    rewrite <- (Qplus_0_r 0) at 1.
    apply Qplus_lt_le_compat; [exact Hpos | discriminate]. }
  rewrite (Hall s Hs).
  set (n := inject_Z (Z.of_nat (length (s0 :: sp)))) in *.
  assert (E : (t - tot / n == 0)%Q) by (rewrite Htot; field; exact Hn).
  rewrite E. field. exact Hd.
Qed.

(** C2, as the code has it.  The dominance scorer returns 0 when the
    speaker list is empty or [totalTalkTime <= 0]; otherwise, for listed
    speakers none of whom bears a property name of [Object.prototype], it
    returns [(max - mean) / (totalTalkTime + 1e-6)] where [max] is the
    largest talk time among the listed speakers (a missing entry counting
    as 0) and [mean = totalTalkTime / |speakers|].  For speakers tied at a
    talk time [t] the score is 0 provided [totalTalkTime] is exactly
    [|speakers| * t], and [score({A:30,B:0},[A,B],30)] lies between
    0.499999 and 0.5. *)
Theorem calculateDominance_spec (tt : gmap string Q) (sp : list string) (tot : Q) :
  (sp = [] ∨ (tot <= 0)%Q → calculateDominance tt sp tot = 0%Q) ∧
  (sp ≠ [] → (0 < tot)%Q → forallb ordinary sp = true →
     ∃ mx, is_largest mx (map (get_or_0 tt) sp) ∧
       calculateDominance tt sp tot =
         ((mx - tot / inject_Z (Z.of_nat (length sp))) / (tot + (1 # 1000000)))%Q) ∧
  (∀ t : Q, (∀ s, s ∈ sp → (get_or_0 tt s == t)%Q) →
     (tot == inject_Z (Z.of_nat (length sp)) * t)%Q →
     (calculateDominance tt sp tot == 0)%Q) ∧
  ((499999 # 1000000) <= calculateDominance (talkAB 30 0) ["A"; "B"] 30)%Q ∧
  (calculateDominance (talkAB 30 0) ["A"; "B"] 30 < 1 # 2)%Q.
Proof.
  split; [|split; [|split; [|split]]].
  - intros [->|Hle]; [reflexivity|].
    unfold calculateDominance, leb. apply Qle_bool_iff in Hle. rewrite Hle.
    rewrite orb_true_r. reflexivity.
  - intros Hne Hpos _. apply calculateDominance_nondegenerate; assumption.
  - intros t. apply calculateDominance_tied.
  - vm_compute. discriminate.
  - vm_compute. reflexivity.
Qed.

Lemma calculateDominance_spec_witness :
  calculateDominance ∅ [] 0 = 0%Q ∧
  (∃ mx, is_largest mx (map (get_or_0 (talkAB 30 0)) ["A"; "B"]) ∧
     calculateDominance (talkAB 30 0) ["A"; "B"] 30 =
       ((mx - 30 / inject_Z (Z.of_nat (length ["A"; "B"]))) / (30 + (1 # 1000000)))%Q) ∧
  (calculateDominance (talkAB 10 10) ["A"; "B"] 20 == 0)%Q.
Proof.
  refine (conj _ (conj _ _)).
  - destruct (calculateDominance_spec ∅ [] 0) as (H & _).
    apply H. left. reflexivity.
  - destruct (calculateDominance_spec (talkAB 30 0) ["A"; "B"] 30) as (_ & H & _).
    apply H; [discriminate | reflexivity | reflexivity].
  - destruct (calculateDominance_spec (talkAB 10 10) ["A"; "B"] 20) as (_ & _ & H & _).
    apply (H 10%Q).
    + intros s Hs. apply elem_of_cons in Hs as [->|Hs]; [reflexivity|].
      apply elem_of_cons in Hs as [->|Hs]; [reflexivity|].
      apply elem_of_nil in Hs. destruct Hs.
    + reflexivity.
Defined.

(** C2 fails for tied speakers when [totalTalkTime] is not the sum of
    their talk times: the scorer takes the total from its caller, and with
    two speakers tied at 10 seconds and a total of 30 the score is
    negative. *)
Lemma calculateDominance_tied_with_other_total :
  (∀ s, s ∈ ["A"; "B"] → (get_or_0 (talkAB 10 10) s == 10)%Q) ∧
  (calculateDominance (talkAB 10 10) ["A"; "B"] 30 == -5000000 # 30000001)%Q ∧
  ¬ (calculateDominance (talkAB 10 10) ["A"; "B"] 30 == 0)%Q.
Proof.
  refine (conj _ (conj _ _)).
  - intros s Hs. apply elem_of_cons in Hs as [->|Hs]; [reflexivity|].
    apply elem_of_cons in Hs as [->|Hs]; [reflexivity|].
    apply elem_of_nil in Hs. destruct Hs.
  - vm_compute. reflexivity.
  - vm_compute. discriminate.
Qed.

(** ** The scripted scenarios *)

Lemma escalation_check_all : forallb escalation_check (seq 0 61) = true.
Proof. vm_compute. reflexivity. Qed.

(** C1. With speakers A and B, the default policy constants and
    [autoMode = true], after [SPEAKER_SET{A}] and [k <= 60] events [TICK{1}]
    the clock reads [k], A is the active speaker, and the phase is
    MONITORING for [k < 30], IMBALANCE_DETECTED for [30 <= k < 45], NUDGE
    for [45 <= k < 60] and STRUCTURED_TURN_TAKING for [k = 60]: the phase
    changes on the ticks that make [totalSeconds] 30, 45 and 60. *)
Theorem escalation_timeline (k : nat) :
  (k ≤ 60)%nat →
  autoMode (ctx engineAB) = true ∧
  (totalSeconds (ctx (A_speaks_for k)) == inject_Z (Z.of_nat k))%Q ∧
  activeSpeaker (ctx (A_speaks_for k)) = Some "A" ∧
  state (A_speaks_for k) = escalation_phase k.
Proof.
  intros Hk. split; [reflexivity|].
  pose proof escalation_check_all as H.
  rewrite forallb_forall in H. specialize (H k).
  unfold escalation_check in H.
  rewrite !andb_true_iff, !bool_decide_eq_true in H.
  destruct H as [[H1 H2] H3]; [apply in_seq; lia|].
  apply Qeq_bool_iff in H1. auto.
Qed.

Lemma escalation_timeline_witness :
  state (A_speaks_for 29) = DiscussionState.MONITORING ∧
  state (A_speaks_for 30) = DiscussionState.IMBALANCE ∧
  state (A_speaks_for 44) = DiscussionState.IMBALANCE ∧
  state (A_speaks_for 45) = DiscussionState.NUDGE ∧
  state (A_speaks_for 59) = DiscussionState.NUDGE ∧
  state (A_speaks_for 60) = DiscussionState.STRUCTURED.
Proof.
  refine (conj _ (conj _ (conj _ (conj _ (conj _ _))))).
  - apply (escalation_timeline 29). lia.
  - apply (escalation_timeline 30). lia.
  - apply (escalation_timeline 44). lia.
  - apply (escalation_timeline 45). lia.
  - apply (escalation_timeline 59). lia.
  - apply (escalation_timeline 60). lia.
Defined.

Lemma grace_check_all : forallb grace_check (seq 0 15) = true.
Proof. vm_compute. reflexivity. Qed.

(** C5. With speakers A and B, after [SPEAKER_SET{A}] and after each of the
    14 following [TICK{1}] events [imbalanceFlag] is false: [totalSeconds]
    is below 15, although from the first tick on the dominance score is
    at least the threshold. *)
Theorem grace_period_suppresses_flag (k : nat) :
  (k ≤ 14)%nat →
  let c := ctx (A_speaks_for k) in
  imbalanceFlag c = false ∧
  (totalSeconds c < 15)%Q ∧
  ((1 ≤ k)%nat → (imbalanceScoreThreshold c <= dominanceScore c)%Q).
Proof.
  intros Hk c.
  pose proof grace_check_all as H.
  rewrite forallb_forall in H. specialize (H k).
  unfold grace_check in H. fold c in H.
  rewrite !andb_true_iff, negb_true_iff, orb_true_iff in H.
  destruct H as [[H1 H2] H3]; [apply in_seq; lia|].
  split; [exact H1|]. split.
  - unfold ltb in H2. apply negb_true_iff in H2.
    apply Qnot_le_lt. intros Hle. apply Qle_bool_iff in Hle. congruence.
  - intros H1k. destruct H3 as [H3|H3].
    + apply Nat.eqb_eq in H3. lia.
    + apply Qle_bool_iff. exact H3.
Qed.

Lemma grace_period_suppresses_flag_witness :
  imbalanceFlag (ctx (A_speaks_for 14)) = false ∧
  (imbalanceScoreThreshold (ctx (A_speaks_for 14))
     <= dominanceScore (ctx (A_speaks_for 14)))%Q.
Proof.
  split.
  - apply (grace_period_suppresses_flag 14). lia.
  - apply (grace_period_suppresses_flag 14); lia.
Defined.

(** ** Building blocks: what each method leaves alone *)

Lemma run_app evs1 evs2 e : run (evs1 ++ evs2) e = run evs2 (run evs1 e).
Proof. unfold run. apply fold_left_app. Qed.

Lemma run_invariant (P : DiscussionEngine → Prop) (A : DiscussionEvent → Prop) :
  (∀ e ev, A ev → P e → P (send ev e)) →
  ∀ evs e, Forall A evs → P e → P (run evs e).
Proof.
  intros Hstep evs. induction evs as [|ev evs IH]; intros e HA HP; [exact HP|].
  inversion HA; subst. simpl. apply IH; [assumption|]. apply Hstep; assumption.
Qed.

Lemma updateMetrics_eq e :
  ∃ d b, updateMetrics e = e |> upd (set_dominanceScore d) |> upd (set_imbalanceFlag b).
Proof.
  unfold updateMetrics.
  case_if; eexists _, _; reflexivity.
Qed.

Lemma updateMetrics_state e : state (updateMetrics e) = state e.
Proof. destruct (updateMetrics_eq e) as (d & b & ->). reflexivity. Qed.

Lemma setState_state next e : state (setState next e) = next.
Proof.
  unfold setState. case_bool_decide as H; [exact H|].
  rewrite updateMetrics_state. destruct next; try reflexivity.
  simpl. case_bool_decide; reflexivity.
Qed.

(** ** [indexOf] and indexing *)

Lemma indexOf_from_spec (l : list string) (x : string) (i : Z) :
  0 ≤ i →
  (indexOf_from i l x = -1 ∧ x ∉ l) ∨
  (i ≤ indexOf_from i l x < i + Z.of_nat (length l) ∧
   l !! Z.to_nat (indexOf_from i l x - i) = Some x).
Proof.
  revert i. induction l as [|y l IH]; intros i Hi; simpl.
  - left. split; [reflexivity | apply not_elem_of_nil].
  - case_bool_decide as Hy.
    + right. subst y. split; [lia|]. replace (i - i) with 0 by lia. reflexivity.
    + destruct (IH (i + 1)) as [[E Hn]|[Hr Hl]]; [lia | |].
      * left. split; [exact E|]. rewrite not_elem_of_cons. split; [congruence | exact Hn].
      * right. split; [lia|].
        replace (Z.to_nat (indexOf_from (i + 1) l x - i))
          with (S (Z.to_nat (indexOf_from (i + 1) l x - (i + 1)))) by lia.
        exact Hl.
Qed.

Lemma indexOf_spec (l : list string) (x : string) :
  (indexOf l x = -1 ∧ x ∉ l) ∨
  (0 ≤ indexOf l x < Z.of_nat (length l) ∧ at_index l (indexOf l x) = Some x).
Proof.
  unfold indexOf, at_index.
  destruct (indexOf_from_spec l x 0) as [H|[Hr Hl]]; [lia | left; exact H | right].
  split; [lia|]. rewrite Z.sub_0_r in Hl.
  destruct (Z.ltb_spec (indexOf_from 0 l x) 0); [lia | exact Hl].
Qed.

Lemma at_index_Some_lt (l : list string) (i : Z) (x : string) :
  at_index l i = Some x → 0 ≤ i < Z.of_nat (length l).
Proof.
  unfold at_index. destruct (Z.ltb_spec i 0) as [Hneg|Hpos]; [discriminate|].
  intros Hl. apply lookup_lt_Some in Hl. lia.
Qed.

(** ** The structured-turn invariant *)

Lemma turn_ok_updateMetrics e : turn_ok e → turn_ok (updateMetrics e).
Proof. destruct (updateMetrics_eq e) as (d & b & ->). exact id. Qed.

Lemma or_null_cases (o : option string) : or_null o = None ∨ or_null o = o.
Proof. unfold or_null. destruct (truthy o); auto. Qed.

Lemma turn_ok_setState next e : turn_ok e → turn_ok (setState next e).
Proof.
  intros He. unfold setState. case_bool_decide as Hprev; [exact He|].
  apply turn_ok_updateMetrics. intros Hst.
  destruct next; simpl in Hst; try discriminate.
  { revert Hst. case_bool_decide; discriminate. }
  simpl. split; [lia|]. split.
  - destruct (speakers (ctx e)); [right; split; reflexivity | left; simpl; lia].
  - apply or_null_cases.
Qed.

Lemma turn_ok_nextTurn e : turn_ok e → turn_ok (nextTurn e).
Proof.
  intros He. unfold nextTurn. case_bool_decide as Hst; simpl; [|exact He].
  destruct (He Hst) as (H0 & _ & _).
  destruct (Z.leb_spec (Z.of_nat (length (turnOrder (ctx e)))) (turnIndex (ctx e) + 1)).
  - intros Hs. rewrite setState_state in Hs. discriminate.
  - intros _. simpl. split; [lia|]. split; [left; lia | right; reflexivity].
Qed.

Lemma turn_ok_other_phase e : state e ≠ DiscussionState.STRUCTURED → turn_ok e.
Proof. intros H Hs. contradiction. Qed.

Lemma turn_ok_autoAdvanceIfNeeded e : turn_ok e → turn_ok (autoAdvanceIfNeeded e).
Proof.
  intros He. unfold autoAdvanceIfNeeded.
  destruct (autoMode (ctx e)); simpl; [|exact He].
  destruct (state e) eqn:Hst.
  - destruct (quietMode (ctx e)).
    { apply turn_ok_other_phase. simpl. congruence. }
    destruct (imbalanceFlag (ctx e)).
    2:{ apply turn_ok_other_phase. simpl. congruence. }
    simpl. case_if.
    + apply turn_ok_setState, turn_ok_other_phase. simpl. congruence.
    + apply turn_ok_other_phase. simpl. congruence.
  - case_if;
      [apply turn_ok_setState|]; exact He.
  - case_if;
      [apply turn_ok_setState|]; exact He.
  - case_if;
      [apply turn_ok_nextTurn|]; exact He.
  - case_if;
      [apply turn_ok_setState|]; exact He.
  - case_if;
      [apply turn_ok_setState|]; exact He.
Qed.

Lemma turn_ok_tick_effects dt e : turn_ok e → turn_ok (tick_effects dt e).
Proof.
  intros He. unfold tick_effects. simpl.
  destruct (activeSpeaker (ctx e)) as [a|]; [|exact He].
  case_if; exact He.
Qed.

Lemma turn_ok_send ev e : turn_ok e → turn_ok (send ev e).
Proof.
  intros He. destruct ev; simpl; try exact He.
  - (* SPEAKER_SET *)
    assert (He' : turn_ok (if negb (is_name (activeSpeaker (ctx e)) name)
                           then upd (set_currentMonologueSeconds 0) e else e)).
    { destruct (negb _); exact He. }
    revert He'. generalize (if negb (is_name (activeSpeaker (ctx e)) name)
                            then upd (set_currentMonologueSeconds 0) e else e).
    clear e He. intros e He.
    case_bool_decide as Hst.
    + destruct (indexOf_spec (turnOrder (ctx e)) name) as [[E _]|[Hr Hl]].
      * rewrite E. exact He.
      * destruct (Z.eqb_spec (indexOf (turnOrder (ctx e)) name) (-1)); [lia|].
        intros _. simpl. split; [lia|]. split; [left; lia | right; symmetry; exact Hl].
    + apply turn_ok_other_phase. exact Hst.
  - (* SILENCE *)
    intros Hs. destruct (He Hs) as (H0 & H1 & _). simpl. auto.
  - (* TICK *)
    apply turn_ok_autoAdvanceIfNeeded, turn_ok_updateMetrics, turn_ok_tick_effects, He.
  - (* NEXT_TURN *)
    apply turn_ok_nextTurn, He.
  - (* SET_QUIET_MODE *)
    apply turn_ok_updateMetrics. exact He.
  - (* ADD_SPEAKER *)
    destruct (negb _); [apply turn_ok_updateMetrics|]; exact He.
  - (* REMOVE_SPEAKER *)
    apply turn_ok_updateMetrics.
    destruct (is_name (quietSpeaker _) name);
      destruct (is_name (activeSpeaker _) name) eqn:Ha; simpl;
      try exact He; intros Hs; destruct (He Hs) as (H0 & H1 & H2); simpl; auto.
  - (* SET_TALK_TIME *)
    destruct (talkTime (ctx e) !! name); [apply turn_ok_updateMetrics|]; exact He.
  - (* SET_SILENCE *)
    apply turn_ok_updateMetrics. exact He.
  - (* FORCE_STATE *)
    apply turn_ok_setState, He.
Qed.

Lemma turn_ok_constructor sp th : turn_ok (constructor sp th).
Proof. apply turn_ok_other_phase. discriminate. Qed.

(** C4, as the code has it.  In every engine state reached from the
    constructor whose phase is STRUCTURED_TURN_TAKING: [0 <= turnIndex];
    [turnIndex < turnOrder.length] unless [turnOrder] is empty (then
    [turnIndex = 0]); and [activeSpeaker] is either [null] or
    [turnOrder[turnIndex]]. *)
Theorem structured_turn_invariant (sp : list string) (th : Thresholds)
    (evs : list DiscussionEvent) :
  let e := run evs (constructor sp th) in
  state e = DiscussionState.STRUCTURED →
  0 ≤ turnIndex (ctx e) ∧
  (turnIndex (ctx e) < Z.of_nat (length (turnOrder (ctx e))) ∨
   (turnOrder (ctx e) = [] ∧ turnIndex (ctx e) = 0)) ∧
  (activeSpeaker (ctx e) = None ∨
   activeSpeaker (ctx e) = at_index (turnOrder (ctx e)) (turnIndex (ctx e))).
Proof.
  intros e. subst e.
  apply (run_invariant turn_ok (λ _, True)).
  - intros e ev _. apply turn_ok_send.
  - apply Forall_true. done.
  - apply turn_ok_constructor.
Qed.

Lemma structured_turn_invariant_witness :
  let e := run [FORCE_STATE DiscussionState.STRUCTURED; NEXT_TURN]
             (constructor ["A"; "B"; "C"] no_thresholds) in
  0 ≤ turnIndex (ctx e) ∧
  (turnIndex (ctx e) < Z.of_nat (length (turnOrder (ctx e))) ∨
   (turnOrder (ctx e) = [] ∧ turnIndex (ctx e) = 0)) ∧
  (activeSpeaker (ctx e) = None ∨
   activeSpeaker (ctx e) = at_index (turnOrder (ctx e)) (turnIndex (ctx e))).
Proof.
  apply (structured_turn_invariant ["A"; "B"; "C"] no_thresholds
           [FORCE_STATE DiscussionState.STRUCTURED; NEXT_TURN]).
  reflexivity.
Defined.

(** C4 fails after [SILENCE] in structured mode: the active speaker is
    cleared while [turnOrder[turnIndex]] is still A. *)
Lemma strict_turn_invariant_fails_after_SILENCE :
  ¬ strict_turn_invariant
      (run [FORCE_STATE DiscussionState.STRUCTURED; SILENCE] engineAB).
Proof.
  intros H. destruct H as [_ H]; [reflexivity|]. vm_compute in H. discriminate.
Qed.

(** ** Talk-time accounting *)

Lemma sumQ_Permutation (l1 l2 : list Q) : l1 ≡ₚ l2 → (sumQ l1 == sumQ l2)%Q.
Proof.
  induction 1 as [|x l1 l2 _ IH|x y l|l1 l2 l3 _ IH1 _ IH2]; simpl.
  - reflexivity.
  - rewrite IH. reflexivity.
  - ring.
  - rewrite IH1. exact IH2.
Qed.

Lemma sumTalk_empty : sumTalk ∅ = 0%Q.
Proof. unfold sumTalk. rewrite map_to_list_empty. reflexivity. Qed.

Lemma sumTalk_insert_fresh (m : gmap string Q) (k : string) (v : Q) :
  m !! k = None → (sumTalk (<[k := v]> m) == v + sumTalk m)%Q.
Proof.
  intros Hk. unfold sumTalk.
  rewrite (sumQ_Permutation _ ((k, v) :: map_to_list m).*2).
  - reflexivity.
  - apply fmap_Permutation, map_to_list_insert, Hk.
Qed.

Lemma sumTalk_delete (m : gmap string Q) (k : string) :
  (sumTalk (delete k m) == sumTalk m - get_or_0 m k)%Q.
Proof.
  unfold get_or_0. destruct (m !! k) as [v|] eqn:Hk; simpl.
  - rewrite <- (insert_delete_id m k v Hk) at 2.
    rewrite sumTalk_insert_fresh by apply lookup_delete_eq. ring.
  - rewrite delete_id by exact Hk. ring.
Qed.

Lemma sumTalk_insert (m : gmap string Q) (k : string) (v : Q) :
  (sumTalk (<[k := v]> m) == sumTalk m - get_or_0 m k + v)%Q.
Proof.
  rewrite <- insert_delete_eq.
  rewrite sumTalk_insert_fresh by apply lookup_delete_eq.
  rewrite sumTalk_delete. ring.
Qed.

Lemma sumTalk_all_zero (m : gmap string Q) :
  map_Forall (λ _ v, v = 0%Q) m → (sumTalk m == 0)%Q.
Proof.
  induction m as [|k v m Hk IH] using map_ind; intros Hall.
  - rewrite sumTalk_empty. reflexivity.
  - rewrite sumTalk_insert_fresh by exact Hk.
    apply map_Forall_insert in Hall as [-> Hall]; [|exact Hk].
    rewrite IH by exact Hall. ring.
Qed.

Lemma zeroed_lookup (l : list string) (k : string) :
  zeroed l !! k = if bool_decide (k ∈ l) then Some 0%Q else None.
Proof.
  unfold zeroed.
  assert (G : ∀ m : gmap string Q,
    fold_left (λ m s, <[s := 0%Q]> m) l m !! k
    = if bool_decide (k ∈ l) then Some 0%Q else m !! k).
  { induction l as [|s l IH]; intros m; simpl; [reflexivity|].
    rewrite IH. destruct (decide (k = s)) as [->|Hne].
    - rewrite lookup_insert_eq.
      rewrite (bool_decide_eq_true_2 (s ∈ s :: l)) by left.
      case_bool_decide; reflexivity.
    - rewrite lookup_insert_ne by congruence.
      case_bool_decide as H1; case_bool_decide as H2; try reflexivity.
      + exfalso. apply H2. right. exact H1.
      + exfalso. apply elem_of_cons in H2 as [?|?]; [congruence | contradiction]. }
  rewrite G. case_bool_decide; [reflexivity | apply lookup_empty].
Qed.

Lemma sumTalk_zeroed (l : list string) : (sumTalk (zeroed l) == 0)%Q.
Proof.
  apply sumTalk_all_zero. intros k v Hk. rewrite zeroed_lookup in Hk.
  case_bool_decide; congruence.
Qed.

Lemma sumTalk_nonneg (m : gmap string Q) :
  map_Forall (λ _ v, (0 <= v)%Q) m → (0 <= sumTalk m)%Q.
Proof.
  induction m as [|k v m Hk IH] using map_ind; intros Hall.
  - rewrite sumTalk_empty. apply Qle_refl.
  - rewrite sumTalk_insert_fresh by exact Hk.
    apply map_Forall_insert in Hall as [Hv Hall]; [|exact Hk].
    specialize (IH Hall). simpl in Hv.
    rewrite <- (Qplus_0_r 0). apply Qplus_le_compat; assumption.
Qed.

(** *** Keys *)

Lemma keys_ok_constructor sp th : keys_ok (constructor sp th).
Proof.
  intros k. simpl. rewrite zeroed_lookup. case_bool_decide as H; split; intros H'.
  - exact H.
  - eexists; reflexivity.
  - destruct H' as [? ?]; discriminate.
  - contradiction.
Qed.

Lemma keys_ok_updateMetrics e : keys_ok e → keys_ok (updateMetrics e).
Proof. destruct (updateMetrics_eq e) as (d & b & ->). exact id. Qed.

Lemma keys_ok_setState next e : keys_ok e → keys_ok (setState next e).
Proof.
  intros He. unfold setState. case_bool_decide as Hprev; [exact He|].
  apply keys_ok_updateMetrics. destruct next; simpl; try exact He.
  case_bool_decide; [|exact He].
  destruct e as [c st]. apply (keys_ok_constructor (speakers c) no_thresholds).
Qed.

Lemma keys_ok_nextTurn e : keys_ok e → keys_ok (nextTurn e).
Proof.
  intros He. unfold nextTurn. destruct (negb _); [exact He|].
  case_if; [apply keys_ok_setState|]; exact He.
Qed.

Lemma keys_ok_autoAdvanceIfNeeded e : keys_ok e → keys_ok (autoAdvanceIfNeeded e).
Proof.
  intros He. unfold autoAdvanceIfNeeded.
  destruct (negb _); [exact He|].
  destruct (state e); repeat case_if;
    first [ exact He | apply keys_ok_setState; exact He | apply keys_ok_nextTurn; exact He ].
Qed.

Lemma keys_ok_insert_known (e e' : DiscussionEngine) (a : string) (v : Q) :
  is_Some (talkTime (ctx e) !! a) →
  talkTime (ctx e') = <[a := v]> (talkTime (ctx e)) →
  speakers (ctx e') = speakers (ctx e) →
  keys_ok e → keys_ok e'.
Proof.
  intros Ha Ht Hs He k. rewrite Ht, Hs, <- (He k).
  destruct (decide (a = k)) as [->|Hne].
  - rewrite lookup_insert_eq. split; eauto.
  - rewrite lookup_insert_ne by exact Hne. reflexivity.
Qed.

Lemma keys_ok_tick_effects dt e : keys_ok e → keys_ok (tick_effects dt e).
Proof.
  intros He. unfold tick_effects. simpl.
  destruct (activeSpeaker (ctx e)) as [a|]; [|exact He].
  destruct (bool_decide (a ≠ "")); simpl; [|exact He].
  case_bool_decide as Ha; [|exact He].
  eapply keys_ok_insert_known; [exact Ha | reflexivity | reflexivity | exact He].
Qed.

Lemma keys_ok_send ev e : keys_ok e → keys_ok (send ev e).
Proof.
  intros He. destruct ev; simpl; try exact He.
  - (* SPEAKER_SET *)
    destruct (negb _); case_bool_decide; try exact He;
      destruct (negb _); exact He.
  - (* TICK *)
    apply keys_ok_autoAdvanceIfNeeded, keys_ok_updateMetrics, keys_ok_tick_effects, He.
  - (* NEXT_TURN *)
    apply keys_ok_nextTurn, He.
  - (* SET_QUIET_MODE *)
    apply keys_ok_updateMetrics, He.
  - (* ADD_SPEAKER *)
    destruct (negb _); [|exact He]. apply keys_ok_updateMetrics.
    intros k. simpl. rewrite elem_of_app, list_elem_of_singleton, <- (He k).
    destruct (decide (name = k)) as [->|Hne].
    + rewrite lookup_insert_eq. split; eauto.
    + rewrite lookup_insert_ne by exact Hne. split; [auto | intros [?|?]; congruence].
  - (* REMOVE_SPEAKER *)
    apply keys_ok_updateMetrics.
    assert (G : keys_ok
      (e |> upd (λ c, set_speakers (filter (λ s, s ≠ name) (speakers c)) c)
         |> upd (λ c, set_talkTime (delete name (talkTime c)) c))).
    { intros k. simpl. rewrite list_elem_of_filter, <- (He k).
      destruct (decide (name = k)) as [->|Hne].
      - rewrite lookup_delete_eq. split; [intros [? ?]; discriminate | intros [? _]; done].
      - rewrite lookup_delete_ne by exact Hne. split; [split; [congruence|done] | tauto]. }
    destruct (is_name (quietSpeaker _) name);
      destruct (is_name (activeSpeaker _) name); exact G.
  - (* SET_TALK_TIME *)
    destruct (talkTime (ctx e) !! name) as [oldVal|] eqn:Hold; [|exact He].
    apply keys_ok_updateMetrics.
    eapply keys_ok_insert_known; [|reflexivity|reflexivity|exact He].
    rewrite Hold. eauto.
  - (* SET_SILENCE *)
    apply keys_ok_updateMetrics, He.
  - (* FORCE_STATE *)
    apply keys_ok_setState, He.
Qed.

Lemma keys_ok_reachable sp th evs : keys_ok (run evs (constructor sp th)).
Proof.
  apply (run_invariant keys_ok (λ _, True)).
  - intros e ev _. apply keys_ok_send.
  - apply Forall_true. done.
  - apply keys_ok_constructor.
Qed.

(** *** Sums *)

Lemma books_ok_constructor sp th : books_ok (constructor sp th).
Proof.
  split; simpl.
  - rewrite sumTalk_zeroed. reflexivity.
  - intros k v Hk. rewrite zeroed_lookup in Hk.
    case_bool_decide; [|discriminate]. injection Hk as <-. apply Qle_refl.
Qed.

Lemma books_ok_updateMetrics e : books_ok e → books_ok (updateMetrics e).
Proof. destruct (updateMetrics_eq e) as (d & b & ->). exact id. Qed.

Lemma books_ok_setState next e : books_ok e → books_ok (setState next e).
Proof.
  intros He. unfold setState. case_bool_decide as Hprev; [exact He|].
  apply books_ok_updateMetrics. destruct next; simpl; try exact He.
  case_bool_decide; [|exact He].
  destruct e as [c st]. apply (books_ok_constructor (speakers c) no_thresholds).
Qed.

Lemma books_ok_nextTurn e : books_ok e → books_ok (nextTurn e).
Proof.
  intros He. unfold nextTurn. destruct (negb _); [exact He|].
  case_if; [apply books_ok_setState|]; exact He.
Qed.

Lemma books_ok_autoAdvanceIfNeeded e : books_ok e → books_ok (autoAdvanceIfNeeded e).
Proof.
  intros He. unfold autoAdvanceIfNeeded.
  destruct (negb _); [exact He|].
  destruct (state e); repeat case_if;
    first [ exact He | apply books_ok_setState; exact He | apply books_ok_nextTurn; exact He ].
Qed.

Lemma books_ok_tick_effects dt e :
  (0 <= dt)%Q → books_ok e → books_ok (tick_effects dt e).
Proof.
  intros Hdt He. unfold tick_effects. simpl.
  destruct (activeSpeaker (ctx e)) as [a|]; [|exact He].
  destruct (bool_decide (a ≠ "")); simpl; [|exact He].
  case_bool_decide as Ha; [|exact He].
  destruct He as (Hsum & Hpos). destruct Ha as [v Hv].
  split; simpl.
  - rewrite sumTalk_insert, Hsum. ring.
  - apply map_Forall_insert_2; [|exact Hpos].
    unfold get_or_0. rewrite Hv. simpl.
    specialize (Hpos a v Hv). simpl in Hpos.
    rewrite <- (Qplus_0_r 0). apply Qplus_le_compat; assumption.
Qed.

Lemma books_ok_send ev e :
  forward ev → keys_ok e → books_ok e → books_ok (send ev e).
Proof.
  intros Hev Hkeys He. destruct ev; simpl; try exact He.
  - (* SPEAKER_SET *)
    destruct (negb _); case_bool_decide; try exact He;
      destruct (negb _); exact He.
  - (* TICK *)
    apply books_ok_autoAdvanceIfNeeded, books_ok_updateMetrics,
      books_ok_tick_effects; assumption.
  - (* NEXT_TURN *)
    apply books_ok_nextTurn, He.
  - (* SET_QUIET_MODE *)
    apply books_ok_updateMetrics, He.
  - (* ADD_SPEAKER *)
    unfold includes. case_bool_decide as Hin; simpl; [exact He|].
    apply books_ok_updateMetrics. destruct He as (Hsum & Hpos).
    assert (Hfresh : talkTime (ctx e) !! name = None).
    { apply eq_None_not_Some. rewrite (Hkeys name). exact Hin. }
    split; simpl.
    + rewrite sumTalk_insert_fresh by exact Hfresh. rewrite Hsum. ring.
    + apply map_Forall_insert_2; [apply Qle_refl | exact Hpos].
  - (* REMOVE_SPEAKER *)
    apply books_ok_updateMetrics.
    assert (G : books_ok
      (e |> upd (λ c, set_speakers (filter (λ s, s ≠ name) (speakers c)) c)
         |> upd (λ c, set_talkTime (delete name (talkTime c)) c)
         |> upd (λ c, set_totalTalkTime
              (Qmax 0 (totalTalkTime c - get_or_0 (talkTime (ctx e)) name)) c))).
    { destruct He as (Hsum & Hpos).
      assert (Hpos' : map_Forall (λ _ v, (0 <= v)%Q) (delete name (talkTime (ctx e)))).
      { apply map_Forall_delete, Hpos. }
      split; simpl; [|exact Hpos'].
      rewrite Q.max_r.
      - rewrite sumTalk_delete, Hsum. reflexivity.
      - rewrite Hsum, <- sumTalk_delete. apply sumTalk_nonneg, Hpos'. }
    destruct (is_name (quietSpeaker _) name);
      destruct (is_name (activeSpeaker _) name); exact G.
  - (* SET_TALK_TIME *)
    destruct (talkTime (ctx e) !! name) as [oldVal|] eqn:Hold; [|exact He].
    apply books_ok_updateMetrics. destruct He as (Hsum & Hpos).
    split; simpl.
    + rewrite sumTalk_insert, Hsum. unfold get_or_0. rewrite Hold. reflexivity.
    + apply map_Forall_insert_2; [apply Q.le_max_l | exact Hpos].
  - (* SET_SILENCE *)
    apply books_ok_updateMetrics, He.
  - (* FORCE_STATE *)
    apply books_ok_setState, He.
Qed.

(** *** Whole seconds *)

Lemma value_le_sumTalk (m : gmap string Q) (k : string) (v : Q) :
  map_Forall (λ _ x, (0 <= x)%Q) m → m !! k = Some v → (v <= sumTalk m)%Q.
Proof.
  intros Hpos Hk.
  pose proof (sumTalk_delete m k) as Hd. unfold get_or_0 in Hd. rewrite Hk in Hd.
  simpl in Hd.
  assert (H0 : (0 <= sumTalk (delete k m))%Q).
  { apply sumTalk_nonneg, map_Forall_delete, Hpos. }
  lra.
Qed.

Lemma whole_integral (q : Q) : whole q = true → integral q.
Proof.
  unfold whole, integral. intros H. apply Z.eqb_eq in H.
  exists (Qnum q / Z.pos (Qden q)). unfold Qeq. simpl.
  pose proof (Z.div_mod (Qnum q) (Z.pos (Qden q))) as E. lia.
Qed.

Lemma integral_compat (a b : Q) : (a == b)%Q → integral a → integral b.
Proof. intros E [n Hn]. exists n. rewrite <- E. exact Hn. Qed.

Lemma integral_0 : integral 0.
Proof. exists 0. reflexivity. Qed.

Lemma integral_plus (a b : Q) : integral a → integral b → integral (a + b).
Proof.
  intros [n Hn] [m Hm]. exists (n + m). rewrite inject_Z_plus, Hn, Hm. reflexivity.
Qed.

Lemma integral_minus (a b : Q) : integral a → integral b → integral (a - b).
Proof.
  intros [n Hn] [m Hm]. exists (n - m).
  unfold Z.sub. rewrite inject_Z_plus, inject_Z_opp, Hn, Hm. reflexivity.
Qed.

Lemma integral_Qmax (a b : Q) : integral a → integral b → integral (Qmax a b).
Proof.
  intros Ha Hb. destruct (Q.max_dec a b) as [E|E].
  - apply (integral_compat a); [symmetry; exact E | exact Ha].
  - apply (integral_compat b); [symmetry; exact E | exact Hb].
Qed.

Lemma integral_safe (q : Q) :
  integral q → (0 <= q)%Q → (q <= inject_Z MAX_SAFE_INTEGER)%Q → safe_integer q.
Proof.
  intros [n Hn] H0 Hmax. exists n. split; [|exact Hn].
  rewrite Hn in H0, Hmax. change 0%Q with (inject_Z 0) in H0.
  rewrite <- Zle_Qle in H0, Hmax. lia.
Qed.

Lemma regular_forward (ev : DiscussionEvent) : regular ev = true → forward ev.
Proof.
  unfold regular. intros H. apply andb_true_iff in H as [_ H].
  destruct ev; simpl; try exact I.
  simpl in H. apply andb_true_iff in H as [_ H]. apply Qle_bool_iff, H.
Qed.

Lemma charge_nonneg (ev : DiscussionEvent) : regular ev = true → (0 <= charge ev)%Q.
Proof.
  intros H. pose proof (regular_forward ev H) as Hf.
  destruct ev; simpl; try apply Qle_refl.
  - exact Hf.
  - apply Q.le_max_l.
Qed.

Lemma ledger_ok_mono (b b' : Q) (e : DiscussionEngine) :
  (b <= b')%Q → ledger_ok b e → ledger_ok b' e.
Proof.
  intros Hb (Hi & Hle & Hall). split; [exact Hi|]. split; [|exact Hall].
  eapply Qle_trans; eassumption.
Qed.

Lemma ledger_ok_constructor (b : Q) sp th :
  (0 <= b)%Q → ledger_ok b (constructor sp th).
Proof.
  intros Hb. split; [apply integral_0|]. split; [exact Hb|].
  intros k v Hk. simpl in Hk. rewrite zeroed_lookup in Hk.
  case_bool_decide; [|discriminate]. injection Hk as <-. apply integral_0.
Qed.

Lemma ledger_ok_updateMetrics b e : ledger_ok b e → ledger_ok b (updateMetrics e).
Proof. destruct (updateMetrics_eq e) as (d & f & ->). exact id. Qed.

Lemma ledger_ok_setState b next e :
  (0 <= b)%Q → ledger_ok b e → ledger_ok b (setState next e).
Proof.
  intros Hb He. unfold setState. case_bool_decide as Hprev; [exact He|].
  apply ledger_ok_updateMetrics. destruct next; simpl; try exact He.
  case_bool_decide; [|exact He].
  destruct e as [c st]. apply (ledger_ok_constructor b (speakers c) no_thresholds Hb).
Qed.

Lemma ledger_ok_nextTurn b e :
  (0 <= b)%Q → ledger_ok b e → ledger_ok b (nextTurn e).
Proof.
  intros Hb He. unfold nextTurn. destruct (negb _); [exact He|].
  case_if; [apply ledger_ok_setState; [exact Hb|]|]; exact He.
Qed.

Lemma ledger_ok_autoAdvanceIfNeeded b e :
  (0 <= b)%Q → ledger_ok b e → ledger_ok b (autoAdvanceIfNeeded e).
Proof.
  intros Hb He. unfold autoAdvanceIfNeeded.
  destruct (negb _); [exact He|].
  destruct (state e); repeat case_if;
    first [ exact He
          | apply ledger_ok_setState; [exact Hb | exact He]
          | apply ledger_ok_nextTurn; [exact Hb | exact He] ].
Qed.

Lemma ledger_ok_tick_effects b dt e :
  integral dt → (0 <= dt)%Q →
  ledger_ok b e → ledger_ok (b + dt) (tick_effects dt e).
Proof.
  intros Hi Hdt He.
  assert (Hweak : ledger_ok (b + dt) e).
  { apply (ledger_ok_mono b); [lra | exact He]. }
  unfold tick_effects. simpl.
  destruct (activeSpeaker (ctx e)) as [a|]; [|exact Hweak].
  destruct (bool_decide (a ≠ "")); simpl; [|exact Hweak].
  case_bool_decide as Ha; [|exact Hweak].
  destruct He as (Htot & Hle & Hall). destruct Ha as [v Hv].
  split; [|split]; simpl.
  - apply integral_plus; assumption.
  - lra.
  - apply map_Forall_insert_2; [|exact Hall].
    unfold get_or_0. rewrite Hv. simpl.
    apply integral_plus; [exact (Hall a v Hv) | exact Hi].
Qed.

Lemma ledger_ok_send b ev e :
  regular ev = true → (0 <= b)%Q → books_ok e →
  ledger_ok b e → ledger_ok (b + charge ev) (send ev e).
Proof.
  intros Hreg Hb Hbooks He.
  pose proof (charge_nonneg ev Hreg) as Hc.
  assert (Hb' : (0 <= b + charge ev)%Q) by lra.
  assert (Hweak : ledger_ok (b + charge ev) e).
  { apply (ledger_ok_mono b); [lra | exact He]. }
  unfold regular in Hreg. apply andb_true_iff in Hreg as [_ Hw].
  destruct ev; simpl send; try exact Hweak.
  - (* SPEAKER_SET *)
    destruct (negb _); case_bool_decide; try exact Hweak;
      destruct (negb _); exact Hweak.
  - (* TICK *)
    simpl in Hw. apply andb_true_iff in Hw as [Hw Hpos].
    apply Qle_bool_iff in Hpos.
    apply ledger_ok_autoAdvanceIfNeeded; [exact Hb'|].
    apply ledger_ok_updateMetrics, ledger_ok_tick_effects;
      [apply whole_integral, Hw | exact Hpos | exact He].
  - (* NEXT_TURN *)
    apply ledger_ok_nextTurn; assumption.
  - (* SET_QUIET_MODE *)
    apply ledger_ok_updateMetrics, Hweak.
  - (* ADD_SPEAKER *)
    destruct (negb _); [|exact Hweak]. apply ledger_ok_updateMetrics.
    destruct Hweak as (Htot & Hle & Hall).
    split; [exact Htot|]. split; [exact Hle|]. simpl.
    apply map_Forall_insert_2; [apply integral_0 | exact Hall].
  - (* REMOVE_SPEAKER *)
    apply ledger_ok_updateMetrics.
    assert (G : ledger_ok (b + charge (REMOVE_SPEAKER name))
      (e |> upd (λ c, set_speakers (filter (λ s, s ≠ name) (speakers c)) c)
         |> upd (λ c, set_talkTime (delete name (talkTime c)) c)
         |> upd (λ c, set_totalTalkTime
              (Qmax 0 (totalTalkTime c - get_or_0 (talkTime (ctx e)) name)) c))).
    { simpl charge in Hweak, Hb' |- *.
      destruct Hweak as (Htot & Hle & Hall). destruct Hbooks as (Hsum & Hpos).
      assert (Hrem : integral (get_or_0 (talkTime (ctx e)) name)
                     ∧ (0 <= get_or_0 (talkTime (ctx e)) name)%Q).
      { unfold get_or_0. destruct (talkTime (ctx e) !! name) as [v|] eqn:Hv; simpl.
        - split; [exact (Hall name v Hv) | exact (Hpos name v Hv)].
        - split; [apply integral_0 | apply Qle_refl]. }
      destruct Hrem as [Hri Hr0].
      split; [|split]; simpl.
      - apply integral_Qmax; [apply integral_0 | apply integral_minus; assumption].
      - apply Q.max_lub; [exact Hb' | lra].
      - apply map_Forall_delete, Hall. }
    destruct (is_name (quietSpeaker _) name);
      destruct (is_name (activeSpeaker _) name); exact G.
  - (* SET_TALK_TIME *)
    destruct (talkTime (ctx e) !! name) as [oldVal|] eqn:Hold; [|exact Hweak].
    apply ledger_ok_updateMetrics.
    destruct He as (Htot & Hle & Hall). destruct Hbooks as (Hsum & Hpos).
    simpl in Hw. apply whole_integral in Hw.
    pose proof (Hpos name oldVal Hold) as Hold0. simpl in Hold0.
    split; [|split]; simpl.
    + apply integral_plus; [apply integral_minus; [exact Htot | exact (Hall name oldVal Hold)]|].
      apply integral_Qmax; [apply integral_0 | exact Hw].
    + lra.
    + apply map_Forall_insert_2; [|exact Hall].
      apply integral_Qmax; [apply integral_0 | exact Hw].
  - (* SET_SILENCE *)
    apply ledger_ok_updateMetrics, Hweak.
  - (* FORCE_STATE *)
    apply ledger_ok_setState; assumption.
Qed.

Lemma exact_books (evs : list DiscussionEvent) :
  ∀ (e : DiscussionEngine) (b : Q),
    forallb regular evs = true → (0 <= b)%Q →
    keys_ok e → books_ok e → ledger_ok b e →
    keys_ok (run evs e) ∧ books_ok (run evs e)
    ∧ ledger_ok (b + sumQ (map charge evs)) (run evs e).
Proof.
  induction evs as [|ev evs IH]; intros e b Hreg Hb Hk Hbooks Hl.
  - simpl. split; [exact Hk|]. split; [exact Hbooks|].
    apply (ledger_ok_mono b); [lra | exact Hl].
  - simpl in Hreg. apply andb_true_iff in Hreg as [Hev Hreg].
    pose proof (charge_nonneg ev Hev) as Hc.
    destruct (IH (send ev e) (b + charge ev)%Q) as (Hk' & Hb' & Hl').
    + exact Hreg.
    + lra.
    + apply keys_ok_send, Hk.
    + apply books_ok_send; [apply regular_forward, Hev | exact Hk | exact Hbooks].
    + apply ledger_ok_send; assumption.
    + split; [exact Hk'|]. split; [exact Hb'|].
      eapply ledger_ok_mono; [|exact Hl'].
      simpl. lra.
Qed.

(** On an exact run the books are in order and hold safe integers. *)
Lemma exact_run_books (sp : list string) (th : Thresholds)
    (evs : list DiscussionEvent) :
  exact_run sp evs = true →
  let e := run evs (constructor sp th) in
  keys_ok e ∧ books_ok e ∧
  safe_integer (totalTalkTime (ctx e)) ∧
  (∀ name v, talkTime (ctx e) !! name = Some v → safe_integer v).
Proof.
  intros H e. unfold exact_run in H.
  apply andb_true_iff in H as [H Hbudget]. apply andb_true_iff in H as [_ Hreg].
  apply Qle_bool_iff in Hbudget.
  destruct (exact_books evs (constructor sp th) 0 Hreg (Qle_refl 0)
              (keys_ok_constructor sp th) (books_ok_constructor sp th)
              (ledger_ok_constructor 0 sp th (Qle_refl 0)))
    as (Hk & Hb & Hi & Hle & Hall).
  fold e in Hk, Hb, Hi, Hle, Hall.
  split; [exact Hk|]. split; [exact Hb|].
  destruct Hb as (Hsum & Hpos).
  assert (Htot0 : (0 <= totalTalkTime (ctx e))%Q).
  { rewrite Hsum. apply sumTalk_nonneg, Hpos. }
  assert (Htotmax : (totalTalkTime (ctx e) <= inject_Z MAX_SAFE_INTEGER)%Q) by lra.
  split.
  - apply integral_safe; assumption.
  - intros name v Hv. apply integral_safe.
    + exact (Hall name v Hv).
    + exact (Hpos name v Hv).
    + pose proof (value_le_sumTalk _ _ _ Hpos Hv) as Hvs. lra.
Qed.

(** C3, as the code has it.  Take a session in which no speaker and no
    event carries a property name of [Object.prototype], every [TICK]
    carries a non-negative whole number of seconds and every
    SET_TALK_TIME a whole number, and the seconds of all these events
    together do not exceed [Number.MAX_SAFE_INTEGER].  For every engine
    reached from the constructor in such a session, and every further
    sequence of ADD_SPEAKER, REMOVE_SPEAKER, SET_TALK_TIME and TICK events
    of the session, [totalTalkTime] equals the sum of the [talkTime]
    values after the sequence; [totalTalkTime] and every talk time are
    whole numbers between 0 and [Number.MAX_SAFE_INTEGER], which the
    doubles of the source add and subtract without rounding. *)
Theorem totalTalkTime_is_sum (sp : list string) (th : Thresholds)
    (before evs : list DiscussionEvent) :
  exact_run sp (before ++ evs) = true →
  Forall accounting_event evs →
  let e := run evs (run before (constructor sp th)) in
  (totalTalkTime (ctx e) == sumTalk (talkTime (ctx e)))%Q ∧
  safe_integer (totalTalkTime (ctx e)) ∧
  (∀ name v, talkTime (ctx e) !! name = Some v → safe_integer v).
Proof.
  intros Hrun _ e. subst e. rewrite <- run_app.
  destruct (exact_run_books sp th (before ++ evs) Hrun) as (_ & Hb & Htot & Hall).
  split; [apply Hb|]. split; assumption.
Qed.

Lemma totalTalkTime_is_sum_witness :
  let e := run [ADD_SPEAKER "C"; SET_TALK_TIME "A" 40; TICK 20; REMOVE_SPEAKER "B"]
             (run [SPEAKER_SET "B"; TICK 5] engineAB) in
  (totalTalkTime (ctx e) == sumTalk (talkTime (ctx e)))%Q ∧
  safe_integer (totalTalkTime (ctx e)).
Proof.
  intros e.
  destruct (totalTalkTime_is_sum ["A"; "B"] no_thresholds
              [SPEAKER_SET "B"; TICK 5]
              [ADD_SPEAKER "C"; SET_TALK_TIME "A" 40; TICK 20; REMOVE_SPEAKER "B"])
    as (Hsum & Hsafe & _).
  - vm_compute. reflexivity.
  - repeat constructor.
  - split; [exact Hsum | exact Hsafe].
Defined.

(** C3 fails when a [TICK] carries negative seconds: the floor at 0 in
    REMOVE_SPEAKER then cuts [totalTalkTime] off from the sum. *)
Lemma totalTalkTime_not_sum_after_backward_tick :
  Forall accounting_event backward_script ∧
  let e := run backward_script engineAB in
  (totalTalkTime (ctx e) == 0)%Q ∧
  (sumTalk (talkTime (ctx e)) == -100)%Q ∧
  ¬ (totalTalkTime (ctx e) == sumTalk (talkTime (ctx e)))%Q.
Proof.
  split; [repeat constructor|].
  split; [|split]; vm_compute; try reflexivity. discriminate.
Qed.

(** ** The simulation clock *)

Lemma totalSeconds_updateMetrics e :
  totalSeconds (ctx (updateMetrics e)) = totalSeconds (ctx e).
Proof. destruct (updateMetrics_eq e) as (d & b & ->). reflexivity. Qed.

Lemma clock_step_refl e : clock_step e e.
Proof. right. split; [|reflexivity]. intros [H1 H2]. congruence. Qed.

Lemma clock_step_setState next e : clock_step e (setState next e).
Proof.
  unfold setState. case_bool_decide as Hprev; [apply clock_step_refl|].
  unfold clock_step. rewrite updateMetrics_state, totalSeconds_updateMetrics.
  destruct next; simpl;
    try (right; split; [intros [_ ?]; discriminate | reflexivity]).
  case_bool_decide as Hc; simpl.
  - left. auto.
  - right. split; [tauto | reflexivity].
Qed.

Lemma clock_step_nextTurn e : clock_step e (nextTurn e).
Proof.
  unfold nextTurn. case_bool_decide as Hst; simpl; [|apply clock_step_refl].
  case_if.
  - right. rewrite setState_state. split; [intros [_ ?]; discriminate|].
    unfold setState. simpl. rewrite bool_decide_eq_false_2 by congruence.
    rewrite totalSeconds_updateMetrics. reflexivity.
  - right. simpl. split; [intros [? _]; congruence | reflexivity].
Qed.

Lemma clock_step_autoAdvanceIfNeeded e : clock_step e (autoAdvanceIfNeeded e).
Proof.
  unfold autoAdvanceIfNeeded.
  destruct (negb _); [apply clock_step_refl|].
  destruct (state e) eqn:Hst.
  - right. split; [intros [? _]; congruence|].
    repeat case_if; try reflexivity.
    unfold setState. simpl. rewrite Hst. simpl.
    rewrite totalSeconds_updateMetrics. reflexivity.
  - case_if;
      [|apply clock_step_refl].
    pose proof (clock_step_setState DiscussionState.NUDGE e) as [(H & _)|H];
      [congruence | right; exact H].
  - case_if;
      [|apply clock_step_refl].
    pose proof (clock_step_setState DiscussionState.STRUCTURED e) as [(H & _)|H];
      [congruence | right; exact H].
  - case_if;
      [apply clock_step_nextTurn | apply clock_step_refl].
  - case_if;
      [|apply clock_step_refl].
    pose proof (clock_step_setState DiscussionState.CHECKIN e) as [(H & _)|H];
      [congruence | right; exact H].
  - case_if;
      [apply clock_step_setState | apply clock_step_refl].
Qed.

Lemma tick_effects_state dt e : state (tick_effects dt e) = state e.
Proof.
  unfold tick_effects. simpl. destruct (activeSpeaker (ctx e)); [|reflexivity].
  case_if; reflexivity.
Qed.

Lemma tick_effects_totalSeconds dt e :
  totalSeconds (ctx (tick_effects dt e)) = (totalSeconds (ctx e) + dt)%Q.
Proof.
  unfold tick_effects. simpl. destruct (activeSpeaker (ctx e)); [|reflexivity].
  case_if; reflexivity.
Qed.

(** Every event other than [TICK] is a [clock_step]; [TICK] is its own
    increment followed by one. *)
Lemma clock_step_send ev e :
  clock_step (match ev with TICK dt => tick_effects dt e | _ => e end) (send ev e).
Proof.
  destruct ev; simpl; try apply clock_step_refl.
  - (* SPEAKER_SET *)
    right. split; [intros [H1 H2]; revert H2|];
      destruct (negb (is_name _ _)); case_bool_decide;
      try destruct (negb (_ =? _)); simpl; congruence.
  - (* SILENCE *) right. simpl. split; [intros [? ?]; congruence | reflexivity].
  - (* TICK *)
    pose proof (clock_step_autoAdvanceIfNeeded (updateMetrics (tick_effects seconds e))) as H.
    unfold clock_step in *.
    rewrite updateMetrics_state, totalSeconds_updateMetrics in H. exact H.
  - (* NEXT_TURN *) apply clock_step_nextTurn.
  - (* SET_QUIET_SPEAKER *) right. simpl. split; [intros [? ?]; congruence | reflexivity].
  - (* SET_AUTO_MODE *) right. simpl. split; [intros [? ?]; congruence | reflexivity].
  - (* SET_QUIET_MODE *)
    right. rewrite updateMetrics_state, totalSeconds_updateMetrics.
    split; [intros [? ?]; simpl in *; congruence | reflexivity].
  - (* ADD_SPEAKER *)
    destruct (negb _); [|apply clock_step_refl].
    right. rewrite updateMetrics_state, totalSeconds_updateMetrics.
    split; [intros [? ?]; simpl in *; congruence | reflexivity].
  - (* REMOVE_SPEAKER *)
    right. rewrite updateMetrics_state, totalSeconds_updateMetrics.
    destruct (is_name (quietSpeaker _) name);
      destruct (is_name (activeSpeaker _) name);
      (split; [intros [? ?]; simpl in *; congruence | reflexivity]).
  - (* SET_TALK_TIME *)
    destruct (talkTime (ctx e) !! name); [|apply clock_step_refl].
    right. rewrite updateMetrics_state, totalSeconds_updateMetrics.
    split; [intros [? ?]; simpl in *; congruence | reflexivity].
  - (* SET_SILENCE *)
    right. rewrite updateMetrics_state, totalSeconds_updateMetrics.
    split; [intros [? ?]; simpl in *; congruence | reflexivity].
  - (* FORCE_STATE *) apply clock_step_setState.
Qed.

(** C9, as the code has it.  For every engine state and every event whose
    [TICK] seconds are not negative: unless the send takes the phase from
    CHECK_IN to MONITORING, [totalSeconds] after the send is at least its
    value before; when the send does take the phase from CHECK_IN to
    MONITORING, [totalSeconds] is 0 afterwards. *)
Theorem totalSeconds_monotone_between_resets (e : DiscussionEngine)
    (ev : DiscussionEvent) :
  forward ev →
  (¬ (state e = DiscussionState.CHECKIN ∧
      state (send ev e) = DiscussionState.MONITORING) →
   (totalSeconds (ctx e) <= totalSeconds (ctx (send ev e)))%Q) ∧
  (state e = DiscussionState.CHECKIN →
   state (send ev e) = DiscussionState.MONITORING →
   totalSeconds (ctx (send ev e)) = 0%Q).
Proof.
  intros Hev. pose proof (clock_step_send ev e) as H.
  assert (Hst : state (match ev with TICK dt => tick_effects dt e | _ => e end) = state e).
  { destruct ev; try reflexivity. apply tick_effects_state. }
  assert (Hle : (totalSeconds (ctx e) <=
            totalSeconds (ctx (match ev with TICK dt => tick_effects dt e | _ => e end)))%Q).
  { destruct ev; try apply Qle_refl. rewrite tick_effects_totalSeconds.
    simpl in Hev. rewrite <- (Qplus_0_r (totalSeconds (ctx e))) at 1.
    apply Qplus_le_compat; [apply Qle_refl | exact Hev]. }
  unfold clock_step in H. rewrite Hst in H.
  destruct H as [(H1 & H2 & H3)|(Hn & H)]; split.
  - intros Hno. exfalso. apply Hno. auto.
  - intros _ _. exact H3.
  - intros _. rewrite H. exact Hle.
  - intros H1 H2. exfalso. apply Hn. auto.
Qed.

Lemma totalSeconds_monotone_between_resets_witness :
  (totalSeconds (ctx (A_speaks_for 59))
     <= totalSeconds (ctx (send (TICK 1) (A_speaks_for 59))))%Q ∧
  totalSeconds (ctx (send (TICK 1) (A_speaks_for 219))) = 0%Q.
Proof.
  split.
  - apply (totalSeconds_monotone_between_resets (A_speaks_for 59) (TICK 1)).
    + discriminate.
    + intros [H _]. vm_compute in H. discriminate.
  - apply (totalSeconds_monotone_between_resets (A_speaks_for 219) (TICK 1)).
    + discriminate.
    + vm_compute. reflexivity.
    + vm_compute. reflexivity.
Defined.

(** C9 fails at the end of a full intervention cycle: the tick that takes
    the phase from CHECK_IN back to MONITORING restarts the clock, here from
    219 to 0. *)
Lemma totalSeconds_decreases_on_resume :
  let e := A_speaks_for 219 in
  state e = DiscussionState.CHECKIN ∧
  state (send (TICK 1) e) = DiscussionState.MONITORING ∧
  ¬ (totalSeconds (ctx e) <= totalSeconds (ctx (send (TICK 1) e)))%Q.
Proof.
  split; [|split]; vm_compute; try reflexivity. intros H. apply H. reflexivity.
Qed.

(** ** The TICK event *)

Lemma autoAdvanceIfNeeded_manual e :
  autoMode (ctx e) = false → autoAdvanceIfNeeded e = e.
Proof. intros H. unfold autoAdvanceIfNeeded. rewrite H. reflexivity. Qed.

Lemma tick_effects_autoMode dt e :
  autoMode (ctx (tick_effects dt e)) = autoMode (ctx e).
Proof.
  unfold tick_effects. simpl. destruct (activeSpeaker (ctx e)); [|reflexivity].
  case_if; reflexivity.
Qed.

Lemma tick_effects_turnIndex dt e :
  turnIndex (ctx (tick_effects dt e)) = turnIndex (ctx e).
Proof.
  unfold tick_effects. simpl. destruct (activeSpeaker (ctx e)); [|reflexivity].
  case_if; reflexivity.
Qed.

Lemma tick_effects_activeSpeaker dt e :
  activeSpeaker (ctx (tick_effects dt e)) = activeSpeaker (ctx e).
Proof.
  unfold tick_effects. simpl.
  destruct (activeSpeaker (ctx e)) eqn:Ha; [case_if|]; simpl; exact Ha.
Qed.

(** The speaking branch of [tick_effects]. *)
Lemma tick_effects_speaking dt e a :
  speaking e a →
  let m := tick_effects dt e in
  talkTime (ctx m)
    = <[a := (get_or_0 (talkTime (ctx e)) a + dt)%Q]> (talkTime (ctx e)) ∧
  totalTalkTime (ctx m) = (totalTalkTime (ctx e) + dt)%Q ∧
  currentMonologueSeconds (ctx m) = (currentMonologueSeconds (ctx e) + dt)%Q ∧
  silenceSeconds (ctx m) = 0%Q.
Proof.
  intros (Ha & Hne & [v Hv]). unfold tick_effects. simpl. rewrite Ha. simpl.
  rewrite bool_decide_eq_true_2 by exact Hne.
  rewrite bool_decide_eq_true_2 by (rewrite Hv; eauto).
  simpl. auto.
Qed.

(** The silent branch of [tick_effects]. *)
Lemma tick_effects_silent dt e :
  nobody_speaking e →
  let m := tick_effects dt e in
  talkTime (ctx m) = talkTime (ctx e) ∧
  totalTalkTime (ctx m) = totalTalkTime (ctx e) ∧
  silenceSeconds (ctx m) = (silenceSeconds (ctx e) + dt)%Q ∧
  currentMonologueSeconds (ctx m) = 0%Q.
Proof.
  intros [Hnone|[Hempty|(a & Ha & _ & Hv)]]; unfold tick_effects; simpl.
  - rewrite Hnone. simpl. auto.
  - rewrite Hempty. simpl. auto.
  - rewrite Ha. simpl. rewrite (bool_decide_eq_false_2 (is_Some _)).
    + rewrite andb_false_r. simpl. auto.
    + rewrite Hv. intros [? ?]. discriminate.
Qed.

Lemma history_updateMetrics e : history (updateMetrics e) = history e.
Proof. destruct (updateMetrics_eq e) as (d & b & ->). reflexivity. Qed.

Lemma history_setState next e :
  ¬ (state e = DiscussionState.CHECKIN ∧ next = DiscussionState.MONITORING) →
  history (setState next e) = history e.
Proof.
  intros Hn. unfold setState. case_bool_decide as Hprev; [reflexivity|].
  rewrite history_updateMetrics. destruct next; try reflexivity.
  simpl. case_bool_decide as Hc; [exfalso; apply Hn; auto | reflexivity].
Qed.

Lemma history_nextTurn e : history (nextTurn e) = history e.
Proof.
  unfold nextTurn. destruct (negb _); [reflexivity|].
  case_if; [|reflexivity].
  rewrite history_setState; [reflexivity|]. intros [_ H]. discriminate H.
Qed.

(** The autonomous advance touches the talk history only when it takes
    the phase from CHECK_IN to MONITORING. *)
Lemma history_autoAdvanceIfNeeded e :
  ¬ (state e = DiscussionState.CHECKIN
     ∧ state (autoAdvanceIfNeeded e) = DiscussionState.MONITORING) →
  history (autoAdvanceIfNeeded e) = history e.
Proof.
  unfold autoAdvanceIfNeeded. destruct (negb _); [reflexivity|].
  destruct (state e) eqn:Hst; intros Hn.
  - destruct (quietMode (ctx e)); [reflexivity|].
    destruct (imbalanceFlag (ctx e)); [|reflexivity].
    cbv zeta. case_if; [|reflexivity].
    rewrite history_setState; [reflexivity|]. intros [_ H]. discriminate H.
  - case_if; [|reflexivity].
    rewrite history_setState; [reflexivity|]. intros [_ H]. discriminate H.
  - case_if; [|reflexivity].
    rewrite history_setState; [reflexivity|]. intros [_ H]. discriminate H.
  - cbv zeta. case_if; [apply history_nextTurn | reflexivity].
  - case_if; [|reflexivity].
    rewrite history_setState; [reflexivity|]. intros [_ H]. discriminate H.
  - case_if; [|reflexivity].
    exfalso. apply Hn. split; [reflexivity | apply setState_state].
Qed.

Lemma set_imbalanceSince_same (c : EngineContext) :
  set_imbalanceSince (imbalanceSince c) c = c.
Proof. destruct c. reflexivity. Qed.

Lemma upd_imbalanceSince_same (e : DiscussionEngine) :
  e |> upd (set_imbalanceSince (imbalanceSince (ctx e))) = e.
Proof. destruct e as [c st]. unfold upd. simpl. rewrite set_imbalanceSince_same. reflexivity. Qed.

(** When neither the phase nor the turn has moved, the autonomous advance
    has at most started or cleared the imbalance timer. *)
Lemma autoAdvanceIfNeeded_stays e :
  state (autoAdvanceIfNeeded e) = state e →
  turnIndex (ctx (autoAdvanceIfNeeded e)) = turnIndex (ctx e) →
  ∃ since, autoAdvanceIfNeeded e = e |> upd (set_imbalanceSince since).
Proof.
  assert (Hsame : ∃ since, e = e |> upd (set_imbalanceSince since)).
  { eexists. symmetry. apply upd_imbalanceSince_same. }
  unfold autoAdvanceIfNeeded. destruct (negb _); [intros _ _; exact Hsame|].
  destruct (state e) eqn:Hst.
  - destruct (quietMode (ctx e)); [intros _ _; eexists; reflexivity|].
    destruct (imbalanceFlag (ctx e)); [|intros _ _; eexists; reflexivity].
    cbv zeta. case_if; [|intros _ _; eexists; reflexivity].
    rewrite setState_state. discriminate.
  - case_if; [rewrite setState_state; discriminate | intros _ _; exact Hsame].
  - case_if; [rewrite setState_state; discriminate | intros _ _; exact Hsame].
  - cbv zeta. case_if; [|intros _ _; exact Hsame].
    unfold nextTurn. rewrite (bool_decide_eq_true_2 _ Hst). simpl negb. cbv iota.
    case_if.
    + rewrite setState_state. discriminate.
    + intros _ H. engine_cbn_in H. lia.
  - case_if; [rewrite setState_state; discriminate | intros _ _; exact Hsame].
  - case_if; [rewrite setState_state; discriminate | intros _ _; exact Hsame].
Qed.

(** C7, as the code has it.  With [autoMode] off a TICK changes neither
    the phase nor [turnIndex].  Unless the TICK takes the phase from
    CHECK_IN to MONITORING (which starts the session over), after
    [send(TICK(seconds))] [totalSeconds] has advanced by [seconds]; if
    [activeSpeaker] is a non-empty name with a [talkTime] entry,
    [seconds] has been added to that entry and to [totalTalkTime]; if
    nobody known is speaking (no active speaker, or the empty name, or a
    name without a [talkTime] entry that is not a property name of
    [Object.prototype]), the talk times and [totalTalkTime] are as they
    were.  If moreover the TICK leaves the phase and [turnIndex] as they
    were (no autonomous advance), [activeSpeaker] is unchanged, and in
    the first case [seconds] has been added to [currentMonologueSeconds]
    and [silenceSeconds] is 0, in the second [seconds] has been added to
    [silenceSeconds] and [currentMonologueSeconds] is 0. *)
Theorem tick_direct_effects (dt : Q) (e : DiscussionEngine) :
  let e' := send (TICK dt) e in
  (autoMode (ctx e) = false →
   state e' = state e ∧ turnIndex (ctx e') = turnIndex (ctx e)) ∧
  (¬ (state e = DiscussionState.CHECKIN ∧ state e' = DiscussionState.MONITORING) →
   totalSeconds (ctx e') = (totalSeconds (ctx e) + dt)%Q ∧
   (∀ a, speaking e a →
      talkTime (ctx e')
        = <[a := (get_or_0 (talkTime (ctx e)) a + dt)%Q]> (talkTime (ctx e)) ∧
      totalTalkTime (ctx e') = (totalTalkTime (ctx e) + dt)%Q) ∧
   (nobody_speaking e →
      talkTime (ctx e') = talkTime (ctx e) ∧
      totalTalkTime (ctx e') = totalTalkTime (ctx e))) ∧
  (state e' = state e → turnIndex (ctx e') = turnIndex (ctx e) →
   activeSpeaker (ctx e') = activeSpeaker (ctx e) ∧
   (∀ a, speaking e a →
      currentMonologueSeconds (ctx e')
        = (currentMonologueSeconds (ctx e) + dt)%Q ∧
      silenceSeconds (ctx e') = 0%Q) ∧
   (nobody_speaking e →
      silenceSeconds (ctx e') = (silenceSeconds (ctx e) + dt)%Q ∧
      currentMonologueSeconds (ctx e') = 0%Q)).
Proof.
  intros e'.
  set (m := tick_effects dt e).
  set (u := updateMetrics m).
  assert (He' : e' = autoAdvanceIfNeeded u) by reflexivity.
  assert (Hu : ∃ d b, u = m |> upd (set_dominanceScore d) |> upd (set_imbalanceFlag b))
    by apply updateMetrics_eq.
  assert (Hust : state u = state e).
  { unfold u, m. rewrite updateMetrics_state. apply tick_effects_state. }
  assert (Huti : turnIndex (ctx u) = turnIndex (ctx e)).
  { destruct Hu as (d & b & ->). engine_cbn. apply tick_effects_turnIndex. }
  clearbody e' u. subst e'.
  refine (conj _ (conj _ _)).
  - intros Hauto. rewrite autoAdvanceIfNeeded_manual; [split; assumption|].
    destruct Hu as (d & b & ->). engine_cbn.
    unfold m. rewrite tick_effects_autoMode. exact Hauto.
  - intros Hn.
    assert (Hh : history (autoAdvanceIfNeeded u) = history m).
    { rewrite history_autoAdvanceIfNeeded by (rewrite Hust; exact Hn).
      destruct Hu as (d & b & ->). reflexivity. }
    unfold history in Hh. injection Hh as _ Htt Htot Hsec.
    rewrite Hsec, Htt, Htot. refine (conj _ (conj _ _)).
    + apply tick_effects_totalSeconds.
    + intros a Ha. destruct (tick_effects_speaking dt e a Ha) as (H1 & H2 & _).
      split; assumption.
    + intros Hs. destruct (tick_effects_silent dt e Hs) as (H1 & H2 & _).
      split; assumption.
  - intros Hst Hti. rewrite <- Hust in Hst. rewrite <- Huti in Hti.
    destruct (autoAdvanceIfNeeded_stays u Hst Hti) as (since & ->).
    destruct Hu as (d & b & ->). engine_cbn. refine (conj _ (conj _ _)).
    + apply tick_effects_activeSpeaker.
    + intros a Ha. destruct (tick_effects_speaking dt e a Ha) as (_ & _ & H3 & H4).
      split; assumption.
    + intros Hs. destruct (tick_effects_silent dt e Hs) as (_ & _ & H3 & H4).
      split; assumption.
Qed.

Lemma tick_direct_effects_witness :
  (let e := run [SPEAKER_SET "A"] engineAB in
   totalTalkTime (ctx (send (TICK 1) e)) = (totalTalkTime (ctx e) + 1)%Q ∧
   currentMonologueSeconds (ctx (send (TICK 1) e))
     = (currentMonologueSeconds (ctx e) + 1)%Q) ∧
  (let e := run [SPEAKER_SET "Z"] engineAB in
   totalTalkTime (ctx (send (TICK 1) e)) = totalTalkTime (ctx e) ∧
   silenceSeconds (ctx (send (TICK 1) e)) = (silenceSeconds (ctx e) + 1)%Q) ∧
  (let e := constructor ["A"; "B"]
              {| th_autoMode := Some false; th_imbalanceScoreThreshold := None |} in
   state (send (TICK 1) e) = state e).
Proof.
  refine (conj _ (conj _ _)).
  - intros e.
    assert (Hsp : speaking e "A").
    { split; [reflexivity|]. split; [discriminate | vm_compute; eauto]. }
    destruct (tick_direct_effects 1 e) as (_ & Hbooks & Hrest).
    destruct Hbooks as (_ & Htalk & _); [intros [H _]; discriminate H|].
    destruct Hrest as (_ & Hmono & _); [reflexivity | reflexivity |].
    split; [apply (Htalk "A"%string Hsp) | apply (Hmono "A"%string Hsp)].
  - intros e.
    assert (Hno : nobody_speaking e).
    { right. right. exists "Z"%string.
      split; [reflexivity|]. split; [reflexivity | vm_compute; reflexivity]. }
    destruct (tick_direct_effects 1 e) as (_ & Hbooks & Hrest).
    destruct Hbooks as (_ & _ & Hquiet); [intros [H _]; discriminate H|].
    destruct Hrest as (_ & _ & Hsil); [reflexivity | reflexivity |].
    split; [apply (Hquiet Hno) | apply (Hsil Hno)].
  - intros e. destruct (tick_direct_effects 1 e) as (Hoff & _).
    apply Hoff. reflexivity.
Defined.

(** C7 fails for an active name that is not a known speaker: the tick is
    booked as silence. *)
Lemma tick_for_unknown_active_speaker :
  let e := run [SPEAKER_SET "Z"] engineAB in
  let e' := send (TICK 1) e in
  activeSpeaker (ctx e) = Some "Z" ∧
  (totalTalkTime (ctx e') == 0)%Q ∧
  (silenceSeconds (ctx e') == 1)%Q ∧
  ¬ tick_as_claimed 1 e.
Proof.
  refine (conj _ (conj _ (conj _ _))); try (vm_compute; reflexivity).
  intros (_ & _ & H & _). vm_compute in H. discriminate.
Qed.

(** ** Inapplicable events *)

Lemma set_currentMonologueSeconds_same (c : EngineContext) :
  set_currentMonologueSeconds (currentMonologueSeconds c) c = c.
Proof. destruct c. reflexivity. Qed.

(** X27.  What the engine ignores.  SET_TALK_TIME for a name without a
    [talkTime] entry (in reachable states: a name that is not a speaker)
    that is not a property name of [Object.prototype], NEXT_TURN outside
    STRUCTURED_TURN_TAKING, and TURNS_COMPLETE, PAUSE_DONE and CHECKIN
    leave the engine exactly as it is.  SPEAKER_SET with a name absent
    from [turnOrder] while in STRUCTURED_TURN_TAKING leaves the phase and
    every field other than [currentMonologueSeconds] as they are. *)
Theorem inapplicable_events (e : DiscussionEngine) :
  (∀ name seconds, ordinary name = true → talkTime (ctx e) !! name = None →
     send (SET_TALK_TIME name seconds) e = e) ∧
  (∀ name seconds, ordinary name = true → keys_ok e → name ∉ speakers (ctx e) →
     send (SET_TALK_TIME name seconds) e = e) ∧
  (state e ≠ DiscussionState.STRUCTURED → send NEXT_TURN e = e) ∧
  (∀ name, state e = DiscussionState.STRUCTURED → name ∉ turnOrder (ctx e) →
     state (send (SPEAKER_SET name) e) = state e ∧
     ∃ m, ctx (send (SPEAKER_SET name) e)
          = set_currentMonologueSeconds m (ctx e)) ∧
  send TURNS_COMPLETE e = e ∧
  send PAUSE_DONE e = e ∧
  (∀ canContinue, send (CHECKIN canContinue) e = e).
Proof.
  assert (H1 : ∀ name seconds, talkTime (ctx e) !! name = None →
                 send (SET_TALK_TIME name seconds) e = e).
  { intros name seconds H. simpl. rewrite H. reflexivity. }
  split; [intros name seconds _; apply H1|]. split; [|split; [|split; [|auto]]].
  - intros name seconds _ Hk Hn. apply H1. apply eq_None_not_Some.
    rewrite (Hk name). exact Hn.
  - intros Hst. simpl. unfold nextTurn.
    rewrite bool_decide_eq_false_2 by exact Hst. reflexivity.
  - intros name Hst Hn. simpl.
    destruct (indexOf_spec (turnOrder (ctx e)) name) as [[E _]|[_ Hl]].
    2:{ exfalso. apply Hn. unfold at_index in Hl.
        destruct (indexOf (turnOrder (ctx e)) name <? 0); [discriminate|].
        eapply list_elem_of_lookup_2, Hl. }
    destruct (negb (is_name (activeSpeaker (ctx e)) name)); simpl;
      rewrite (bool_decide_eq_true_2 _ Hst), E; simpl.
    + split; [reflexivity|]. eexists; reflexivity.
    + split; [reflexivity|]. exists (currentMonologueSeconds (ctx e)).
      symmetry. apply set_currentMonologueSeconds_same.
Qed.

Lemma inapplicable_events_witness :
  (let e := engineAB in send (SET_TALK_TIME "Z" 7) e = e) ∧
  (let e := engineAB in send NEXT_TURN e = e) ∧
  (let e := run [FORCE_STATE DiscussionState.STRUCTURED; TICK 1] engineAB in
   state (send (SPEAKER_SET "Z") e) = state e).
Proof.
  refine (conj _ (conj _ _)).
  - intros e. destruct (inapplicable_events e) as (H & _).
    apply H; [reflexivity | vm_compute; reflexivity].
  - intros e. destruct (inapplicable_events e) as (_ & _ & H & _).
    apply H. discriminate.
  - intros e. destruct (inapplicable_events e) as (_ & _ & _ & H & _).
    apply (H "Z"%string).
    + reflexivity.
    + vm_compute. intros Hin. inversion Hin as [|? ? ? Hin']; subst.
      inversion Hin' as [|? ? ? Hin'']; subst. inversion Hin''.
Defined.

(** C8 does not hold of the code.  In STRUCTURED_TURN_TAKING with A
    active and a monologue of one second, SPEAKER_SET{Z} for a name
    outside [turnOrder] is ignored as the claim says (the phase, the
    active speaker, [turnIndex] and [turnSince] stay as they are), yet
    [currentMonologueSeconds] is reset to 0: the reset comes before the
    check of [turnOrder].  The counter is documented as the continuous
    talk time of the current active speaker, reset on change or silence;
    here the speaker neither changed nor fell silent. *)
Theorem ignored_SPEAKER_SET_resets_monologue :
  let e := run [FORCE_STATE DiscussionState.STRUCTURED; TICK 1] engineAB in
  let e' := send (SPEAKER_SET "Z") e in
  state e = DiscussionState.STRUCTURED ∧
  ("Z" ∉ turnOrder (ctx e)) ∧
  activeSpeaker (ctx e) = Some "A" ∧
  (currentMonologueSeconds (ctx e) == 1)%Q ∧
  state e' = state e ∧
  activeSpeaker (ctx e') = Some "A" ∧
  turnIndex (ctx e') = turnIndex (ctx e) ∧
  (currentMonologueSeconds (ctx e') == 0)%Q ∧
  e' ≠ e.
Proof.
  refine (conj _ (conj _ (conj _ (conj _ (conj _ (conj _ (conj _ (conj _ _))))))));
    try (vm_compute; reflexivity).
  - vm_compute. intros H. inversion H as [|? ? ? H']; subst.
    inversion H' as [|? ? ? H'']; subst. inversion H''.
  - intros H. apply (f_equal (λ x, currentMonologueSeconds (ctx x))) in H.
    vm_compute in H. discriminate.
Qed.

(** ** Removing a speaker during structured turn-taking *)

Lemma send_REMOVE_SPEAKER_frame (n : string) (e : DiscussionEngine) :
  let r := send (REMOVE_SPEAKER n) e in
  state r = state e ∧
  turnOrder (ctx r) = turnOrder (ctx e) ∧
  turnIndex (ctx r) = turnIndex (ctx e) ∧
  turnSince (ctx r) = turnSince (ctx e) ∧
  turnHoldSeconds (ctx r) = turnHoldSeconds (ctx e) ∧
  autoMode (ctx r) = autoMode (ctx e) ∧
  totalSeconds (ctx r) = totalSeconds (ctx e) ∧
  speakers (ctx r) = filter (λ s, s ≠ n) (speakers (ctx e)).
Proof.
  intros r. assert (Hr : r = send (REMOVE_SPEAKER n) e) by reflexivity.
  clearbody r. cbn [send] in Hr.
  destruct (is_name (quietSpeaker _) n) in Hr;
    destruct (is_name (activeSpeaker _) n) in Hr;
    match type of Hr with
    | context [updateMetrics ?x] => destruct (updateMetrics_eq x) as (d & b & Hm)
    end; rewrite Hm in Hr; subst r; repeat split; reflexivity.
Qed.

Lemma tick_effects_frame (dt : Q) (e : DiscussionEngine) :
  let m := updateMetrics (tick_effects dt e) in
  state m = state e ∧
  turnOrder (ctx m) = turnOrder (ctx e) ∧
  turnIndex (ctx m) = turnIndex (ctx e) ∧
  turnSince (ctx m) = turnSince (ctx e) ∧
  turnHoldSeconds (ctx m) = turnHoldSeconds (ctx e) ∧
  autoMode (ctx m) = autoMode (ctx e) ∧
  totalSeconds (ctx m) = (totalSeconds (ctx e) + dt)%Q ∧
  speakers (ctx m) = speakers (ctx e).
Proof.
  simpl. destruct (updateMetrics_eq (tick_effects dt e)) as (d & b & ->).
  unfold tick_effects. simpl.
  destruct (activeSpeaker (ctx e)); [case_if|]; simpl; repeat split; reflexivity.
Qed.

Lemma nextTurn_lands (e : DiscussionEngine) (n : string) :
  state e = DiscussionState.STRUCTURED →
  at_index (turnOrder (ctx e)) (turnIndex (ctx e) + 1) = Some n →
  nextTurn e
  = e |> upd (λ c, set_turnIndex (turnIndex c + 1) c)
      |> upd (set_activeSpeaker (Some n))
      |> upd (λ c, set_turnSince (totalSeconds c) c)
      |> upd (set_currentMonologueSeconds 0).
Proof.
  intros Hst Hn. unfold nextTurn.
  rewrite (bool_decide_eq_true_2 _ Hst). simpl.
  pose proof (at_index_Some_lt _ _ _ Hn) as Hlt.
  destruct (Z.leb_spec (Z.of_nat (length (turnOrder (ctx e)))) (turnIndex (ctx e) + 1));
    [lia|].
  unfold upd. simpl. rewrite Hn. reflexivity.
Qed.

Lemma not_elem_of_filter_ne (n : string) (l : list string) :
  n ∉ filter (λ s, s ≠ n) l.
Proof. rewrite list_elem_of_filter. intros [H _]. apply H. reflexivity. Qed.

(** A turn advance that lands on position [turnIndex + 1]. *)
Lemma turn_advance_lands (r : DiscussionEngine) (n : string) :
  state r = DiscussionState.STRUCTURED →
  at_index (turnOrder (ctx r)) (turnIndex (ctx r) + 1) = Some n →
  (state (send NEXT_TURN r) = DiscussionState.STRUCTURED ∧
   turnIndex (ctx (send NEXT_TURN r)) = turnIndex (ctx r) + 1 ∧
   activeSpeaker (ctx (send NEXT_TURN r)) = Some n ∧
   speakers (ctx (send NEXT_TURN r)) = speakers (ctx r)) ∧
  (∀ dt : Q,
     autoMode (ctx r) = true →
     (turnHoldSeconds (ctx r)
        <= totalSeconds (ctx r) + dt - turnSince (ctx r))%Q →
     state (send (TICK dt) r) = DiscussionState.STRUCTURED ∧
     turnIndex (ctx (send (TICK dt) r)) = turnIndex (ctx r) + 1 ∧
     activeSpeaker (ctx (send (TICK dt) r)) = Some n ∧
     speakers (ctx (send (TICK dt) r)) = speakers (ctx r)).
Proof.
  intros Hs Hn. split.
  - change (send NEXT_TURN r) with (nextTurn r).
    rewrite (nextTurn_lands r n Hs Hn). simpl. auto.
  - intros dt Hauto Hhold.
    change (send (TICK dt) r)
      with (autoAdvanceIfNeeded (updateMetrics (tick_effects dt r))).
    destruct (tick_effects_frame dt r)
      as (Hst & Hto & Hti & Hts & Hth & Ham & Htot & Hsp).
    set (m := updateMetrics (tick_effects dt r)) in *. clearbody m.
    assert (Hadv : autoAdvanceIfNeeded m = nextTurn m).
    { unfold autoAdvanceIfNeeded.
      rewrite Ham, Hauto, Hst, Hs. simpl.
      rewrite Hto, Hts, Hth, Htot.
      pose proof (at_index_Some_lt _ _ _ Hn) as Hlt.
      destruct (Z.ltb_spec 0 (Z.of_nat (length (turnOrder (ctx r))))); [|lia].
      unfold geb. apply Qle_bool_iff in Hhold. rewrite Hhold. reflexivity. }
    rewrite Hadv, (nextTurn_lands m n).
    + simpl. rewrite Hti, Hsp.
      refine (conj _ (conj eq_refl (conj eq_refl eq_refl))). congruence.
    + congruence.
    + rewrite Hto, Hti. exact Hn.
Qed.

(** C10. REMOVE_SPEAKER changes neither [turnOrder] nor [turnIndex] (nor
    the phase), and the removed name [n] is no longer among [speakers].
    Hence, in STRUCTURED_TURN_TAKING: whenever [n] is not a speaker and
    [turnOrder] holds [n] at position [turnIndex + 1], the next turn
    advance, be it NEXT_TURN or the automatic one of a TICK that completes
    [turnHoldSeconds] with [autoMode] on, makes [n] the active speaker
    although [n] is not a speaker; in particular right after the removal
    of the name at position [turnIndex + 1]. *)
Theorem removed_speaker_still_gets_turn (e : DiscussionEngine) (n : string) :
  (turnOrder (ctx (send (REMOVE_SPEAKER n) e)) = turnOrder (ctx e) ∧
   turnIndex (ctx (send (REMOVE_SPEAKER n) e)) = turnIndex (ctx e) ∧
   state (send (REMOVE_SPEAKER n) e) = state e ∧
   (n ∉ speakers (ctx (send (REMOVE_SPEAKER n) e)))) ∧
  (∀ r : DiscussionEngine,
     state r = DiscussionState.STRUCTURED →
     at_index (turnOrder (ctx r)) (turnIndex (ctx r) + 1) = Some n →
     n ∉ speakers (ctx r) →
     (state (send NEXT_TURN r) = DiscussionState.STRUCTURED ∧
      turnIndex (ctx (send NEXT_TURN r)) = turnIndex (ctx r) + 1 ∧
      activeSpeaker (ctx (send NEXT_TURN r)) = Some n ∧
      (n ∉ speakers (ctx (send NEXT_TURN r)))) ∧
     (∀ dt : Q,
        autoMode (ctx r) = true →
        (turnHoldSeconds (ctx r)
           <= totalSeconds (ctx r) + dt - turnSince (ctx r))%Q →
        state (send (TICK dt) r) = DiscussionState.STRUCTURED ∧
        turnIndex (ctx (send (TICK dt) r)) = turnIndex (ctx r) + 1 ∧
        activeSpeaker (ctx (send (TICK dt) r)) = Some n ∧
        (n ∉ speakers (ctx (send (TICK dt) r))))) ∧
  (state e = DiscussionState.STRUCTURED →
   at_index (turnOrder (ctx e)) (turnIndex (ctx e) + 1) = Some n →
   (activeSpeaker (ctx (send NEXT_TURN (send (REMOVE_SPEAKER n) e))) = Some n ∧
    (n ∉ speakers (ctx (send NEXT_TURN (send (REMOVE_SPEAKER n) e))))) ∧
   (∀ dt : Q,
      autoMode (ctx e) = true →
      (turnHoldSeconds (ctx e)
         <= totalSeconds (ctx e) + dt - turnSince (ctx e))%Q →
      activeSpeaker (ctx (send (TICK dt) (send (REMOVE_SPEAKER n) e))) = Some n ∧
      (n ∉ speakers (ctx (send (TICK dt) (send (REMOVE_SPEAKER n) e)))))).
Proof.
  assert (General : ∀ r : DiscussionEngine,
     state r = DiscussionState.STRUCTURED →
     at_index (turnOrder (ctx r)) (turnIndex (ctx r) + 1) = Some n →
     n ∉ speakers (ctx r) →
     (state (send NEXT_TURN r) = DiscussionState.STRUCTURED ∧
      turnIndex (ctx (send NEXT_TURN r)) = turnIndex (ctx r) + 1 ∧
      activeSpeaker (ctx (send NEXT_TURN r)) = Some n ∧
      (n ∉ speakers (ctx (send NEXT_TURN r)))) ∧
     (∀ dt : Q,
        autoMode (ctx r) = true →
        (turnHoldSeconds (ctx r)
           <= totalSeconds (ctx r) + dt - turnSince (ctx r))%Q →
        state (send (TICK dt) r) = DiscussionState.STRUCTURED ∧
        turnIndex (ctx (send (TICK dt) r)) = turnIndex (ctx r) + 1 ∧
        activeSpeaker (ctx (send (TICK dt) r)) = Some n ∧
        (n ∉ speakers (ctx (send (TICK dt) r))))).
  { intros r Hs Hn Hout.
    destruct (turn_advance_lands r n Hs Hn) as [(N1 & N2 & N3 & N4) HT].
    split.
    - rewrite N4. auto.
    - intros dt Hauto Hhold.
      destruct (HT dt Hauto Hhold) as (T1 & T2 & T3 & T4).
      rewrite T4. auto. }
  pose proof (send_REMOVE_SPEAKER_frame n e) as H. cbv zeta in H.
  revert General H. generalize (send (REMOVE_SPEAKER n) e). intros r General H.
  destruct H as (Hst & Hto & Hti & Hts & Hth & Ham & Htot & Hsp).
  assert (Hout : n ∉ speakers (ctx r)).
  { rewrite Hsp. apply not_elem_of_filter_ne. }
  split; [auto|]. split; [exact General|].
  intros Hs Hn.
  destruct (General r) as [(_ & _ & N3 & N4) HT].
  { congruence. }
  { rewrite Hto, Hti. exact Hn. }
  { exact Hout. }
  split; [auto|].
  intros dt Hauto Hhold.
  destruct (HT dt) as (_ & _ & T3 & T4).
  - congruence.
  - rewrite Hth, Htot, Hts. exact Hhold.
  - auto.
Qed.

Lemma removed_speaker_still_gets_turn_witness :
  let e := run [FORCE_STATE DiscussionState.STRUCTURED] engineAB in
  let r := send (REMOVE_SPEAKER "B") e in
  (activeSpeaker (ctx (send NEXT_TURN r)) = Some "B" ∧
   ("B" ∉ speakers (ctx (send NEXT_TURN r)))) ∧
  (activeSpeaker (ctx (send (TICK 60) r)) = Some "B" ∧
   ("B" ∉ speakers (ctx (send (TICK 60) r)))).
Proof.
  intros e r.
  destruct (removed_speaker_still_gets_turn e "B") as (_ & _ & H).
  destruct H as ((H1 & H2) & H3).
  - reflexivity.
  - reflexivity.
  - destruct (H3 60%Q) as (H4 & H5).
    + reflexivity.
    + vm_compute. discriminate.
    + split; split; assumption.
Defined.

(** ** Freshness of the derived metrics *)

Lemma updateMetrics_unfold e :
  let d := calculateDominance (talkTime (ctx e)) (speakers (ctx e))
             (totalTalkTime (ctx e)) in
  updateMetrics e
  = e |> upd (set_dominanceScore d)
      |> upd (set_imbalanceFlag
                (if suppresses_flag (state e) || quietMode (ctx e)
                    || ltb (totalSeconds (ctx e)) 15
                 then false
                 else geb d (imbalanceScoreThreshold (ctx e))
                      || geb (currentMonologueSeconds (ctx e)) 15)).
Proof.
  intros d. subst d. unfold updateMetrics. destruct e as [c st]. cbn.
  destruct st; cbn; try reflexivity;
    destruct (quietMode c); cbn; try reflexivity;
    destruct (ltb (totalSeconds c) 15); reflexivity.
Qed.

Lemma metrics_fresh_updateMetrics e : metrics_fresh (updateMetrics e).
Proof.
  rewrite updateMetrics_unfold. split; reflexivity.
Qed.

Lemma metrics_fresh_setState next e :
  state e ≠ next → metrics_fresh (setState next e).
Proof.
  intros H. unfold setState. rewrite bool_decide_eq_false_2 by exact H.
  apply metrics_fresh_updateMetrics.
Qed.

Lemma metrics_fresh_nextTurn e : metrics_fresh e → metrics_fresh (nextTurn e).
Proof.
  intros He. unfold nextTurn. case_bool_decide as Hst; simpl; [|exact He].
  case_if.
  - apply metrics_fresh_setState. simpl. congruence.
  - destruct He as [Hd Hf]. unfold metrics_fresh, expected_flag in *.
    simpl. rewrite Hst in *. simpl in *. auto.
Qed.

Lemma metrics_fresh_autoAdvanceIfNeeded e :
  metrics_fresh e → metrics_fresh (autoAdvanceIfNeeded e).
Proof.
  intros He. unfold autoAdvanceIfNeeded.
  destruct (negb _); [exact He|].
  destruct (state e) eqn:Hst; repeat case_if;
    first [ exact He
          | apply metrics_fresh_nextTurn; exact He
          | apply metrics_fresh_setState; simpl; congruence
          | idtac ].
  all: destruct He as [Hd Hf]; unfold metrics_fresh, expected_flag in *;
    simpl; rewrite Hst in *; auto.
Qed.

(** The events after which [send] leaves the metrics fresh, whatever the
    state before. *)
Lemma metrics_fresh_after_recomputing_events ev e :
  match ev with
  | TICK _ | SET_QUIET_MODE _ | REMOVE_SPEAKER _ | SET_SILENCE _ => True
  | ADD_SPEAKER name => name ∉ speakers (ctx e)
  | SET_TALK_TIME name _ => is_Some (talkTime (ctx e) !! name)
  | FORCE_STATE next => state e ≠ next
  | _ => False
  end →
  metrics_fresh (send ev e).
Proof.
  destruct ev; intros H; try contradiction; cbn [send].
  - apply metrics_fresh_autoAdvanceIfNeeded, metrics_fresh_updateMetrics.
  - apply metrics_fresh_updateMetrics.
  - unfold includes. rewrite bool_decide_eq_false_2 by exact H.
    apply metrics_fresh_updateMetrics.
  - apply metrics_fresh_updateMetrics.
  - destruct H as [v ->]. apply metrics_fresh_updateMetrics.
  - apply metrics_fresh_updateMetrics.
  - apply metrics_fresh_setState, H.
Qed.

(** C6 does not hold of the code.  After [SPEAKER_SET{A}; TICK{15}] on an
    engine with the single speaker A the metrics are fresh and
    [imbalanceFlag] is true (a 15-second monologue).  SILENCE, and likewise
    SPEAKER_SET{B}, resets [currentMonologueSeconds] to 0 without
    recomputing: [imbalanceFlag] stays true although the score is 0 and the
    monologue counter is 0, and a recomputation would clear it. *)
Theorem metrics_stale_after_SILENCE_and_SPEAKER_SET :
  metrics_fresh monologue15 ∧
  (imbalanceFlag (ctx (send SILENCE monologue15)) = true ∧
   expected_flag (send SILENCE monologue15) = false ∧
   ¬ metrics_fresh (send SILENCE monologue15)) ∧
  (imbalanceFlag (ctx (send (SPEAKER_SET "B") monologue15)) = true ∧
   expected_flag (send (SPEAKER_SET "B") monologue15) = false ∧
   ¬ metrics_fresh (send (SPEAKER_SET "B") monologue15)).
Proof.
  split; [|split].
  - split; vm_compute; reflexivity.
  - refine (conj _ (conj _ _)); try (vm_compute; reflexivity).
    intros [_ H]. vm_compute in H. discriminate.
  - refine (conj _ (conj _ _)); try (vm_compute; reflexivity).
    intros [_ H]. vm_compute in H. discriminate.
Qed.

(** * Further properties of the engine *)

(** The frame lemmas, with the intermediate engine written out. *)
Lemma send_REMOVE_SPEAKER_unchanged (n : string) (e : DiscussionEngine) :
  state (send (REMOVE_SPEAKER n) e) = state e ∧
  totalSeconds (ctx (send (REMOVE_SPEAKER n) e)) = totalSeconds (ctx e) ∧
  speakers (ctx (send (REMOVE_SPEAKER n) e)) = filter (λ s, s ≠ n) (speakers (ctx e)).
Proof.
  pose proof (send_REMOVE_SPEAKER_frame n e) as H. cbv zeta in H.
  destruct H as (H1 & _ & _ & _ & _ & _ & H2 & H3). auto.
Qed.

Lemma forward_A_speaks (k : nat) :
  Forall forward (SPEAKER_SET "A" :: repeat (TICK 1) k).
Proof.
  constructor; [exact I|].
  induction k as [|k IH]; simpl; constructor; [discriminate | exact IH].
Qed.

Lemma tick_effects_speakers (dt : Q) (e : DiscussionEngine) :
  speakers (ctx (tick_effects dt e)) = speakers (ctx e).
Proof.
  unfold tick_effects. simpl. destruct (activeSpeaker (ctx e)); [case_if|]; reflexivity.
Qed.

(** ** Which events move the phase, and where to *)

Lemma tick_effects_eq_fields dt e :
  state (tick_effects dt e) = state e ∧
  autoMode (ctx (tick_effects dt e)) = autoMode (ctx e).
Proof. split; [apply tick_effects_state | apply tick_effects_autoMode]. Qed.

Lemma nextTurn_phase e :
  state (nextTurn e) = state e ∨
  (state e = DiscussionState.STRUCTURED ∧ state (nextTurn e) = DiscussionState.PAUSE).
Proof.
  unfold nextTurn. case_bool_decide as Hst; simpl; [|left; reflexivity].
  case_if; [right; split; [exact Hst | apply setState_state] | left; reflexivity].
Qed.

Lemma autoAdvanceIfNeeded_phase e :
  state (autoAdvanceIfNeeded e) = state e ∨
  (autoMode (ctx e) = true ∧ state (autoAdvanceIfNeeded e) = next_phase (state e)).
Proof.
  unfold autoAdvanceIfNeeded. destruct (autoMode (ctx e)); simpl; [|left; reflexivity].
  destruct (state e) eqn:Hst; simpl.
  - destruct (quietMode (ctx e)); [left; exact Hst|].
    destruct (imbalanceFlag (ctx e)); [|left; exact Hst].
    simpl. case_if; [right; split; [reflexivity | apply setState_state] | left; exact Hst].
  - case_if; [right; split; [reflexivity | apply setState_state] | left; exact Hst].
  - case_if; [right; split; [reflexivity | apply setState_state] | left; exact Hst].
  - case_if; [|left; exact Hst].
    destruct (nextTurn_phase e) as [H|[_ H]]; rewrite H; [left; exact Hst | right; auto].
  - case_if; [right; split; [reflexivity | apply setState_state] | left; exact Hst].
  - case_if; [right; split; [reflexivity | apply setState_state] | left; exact Hst].
Qed.

Lemma send_keeps_phase ev e :
  may_change_phase ev = false → state (send ev e) = state e.
Proof.
  destruct ev; try discriminate; intros _; cbn [send].
  - (* SPEAKER_SET *)
    destruct (negb (is_name _ _)); case_bool_decide;
      try destruct (negb (_ =? _)); reflexivity.
  - reflexivity.
  - reflexivity.
  - reflexivity.
  - rewrite updateMetrics_state. reflexivity.
  - reflexivity.
  - reflexivity.
  - reflexivity.
  - destruct (negb _); [rewrite updateMetrics_state|]; reflexivity.
  - rewrite updateMetrics_state.
    destruct (is_name (quietSpeaker _) name);
      destruct (is_name (activeSpeaker _) name); reflexivity.
  - destruct (talkTime (ctx e) !! name); [rewrite updateMetrics_state|]; reflexivity.
  - rewrite updateMetrics_state. reflexivity.
Qed.

(** X1. Only TICK, FORCE_STATE and NEXT_TURN can change the phase: every
    other event leaves it as it is.  NEXT_TURN either leaves the phase or
    takes it from STRUCTURED_TURN_TAKING to REFLECTION_PAUSE, and
    FORCE_STATE always ends in the requested phase. *)
Theorem phase_changes_only_by_tick_force_next (ev : DiscussionEvent)
    (e : DiscussionEngine) :
  (may_change_phase ev = false → state (send ev e) = state e) ∧
  (state (send NEXT_TURN e) = state e ∨
   (state e = DiscussionState.STRUCTURED ∧
    state (send NEXT_TURN e) = DiscussionState.PAUSE)) ∧
  (∀ next, state (send (FORCE_STATE next) e) = next).
Proof.
  split; [apply send_keeps_phase|]. split; [apply nextTurn_phase|].
  intros next. apply setState_state.
Qed.

Lemma phase_changes_only_by_tick_force_next_witness :
  state (send (REMOVE_SPEAKER "A") (A_speaks_for 50)) = state (A_speaks_for 50).
Proof.
  destruct (phase_changes_only_by_tick_force_next
              (REMOVE_SPEAKER "A") (A_speaks_for 50)) as (H & _).
  apply H. reflexivity.
Defined.

(** X2. One TICK moves the phase by at most one step of the cycle
    MONITORING, IMBALANCE_DETECTED, NUDGE, STRUCTURED_TURN_TAKING,
    REFLECTION_PAUSE, CHECK_IN, MONITORING, and only with [autoMode] on:
    with [autoMode] off a TICK never changes the phase. *)
Theorem tick_advances_at_most_one_phase (dt : Q) (e : DiscussionEngine) :
  (state (send (TICK dt) e) = state e ∨
   (autoMode (ctx e) = true ∧ state (send (TICK dt) e) = next_phase (state e))) ∧
  (autoMode (ctx e) = false → state (send (TICK dt) e) = state e).
Proof.
  assert (H : state (send (TICK dt) e) = state e ∨
    (autoMode (ctx e) = true ∧ state (send (TICK dt) e) = next_phase (state e))).
  { cbn [send].
    destruct (autoAdvanceIfNeeded_phase (updateMetrics (tick_effects dt e))) as [H|[Ha H]].
    - left. rewrite H, updateMetrics_state. apply tick_effects_state.
    - right. rewrite H, updateMetrics_state, tick_effects_state. split; [|reflexivity].
      destruct (updateMetrics_eq (tick_effects dt e)) as (d & b & Hm).
      rewrite Hm in Ha. simpl in Ha. rewrite tick_effects_autoMode in Ha. exact Ha. }
  split; [exact H|]. intros Hoff. destruct H as [H|[Hon _]]; [exact H | congruence].
Qed.

Lemma tick_advances_at_most_one_phase_witness :
  let e := run [SET_AUTO_MODE false] (A_speaks_for 29) in
  state (send (TICK 1) e) = state e.
Proof.
  intros e. destruct (tick_advances_at_most_one_phase 1 e) as (_ & H).
  apply H. reflexivity.
Defined.

(** ** The derived signals in reachable states *)

Lemma metrics_fresh_score e : metrics_fresh e → score_fresh e.
Proof. intros [H _]. exact H. Qed.

Lemma metrics_fresh_flag e : metrics_fresh e → flag_respects_suppression e.
Proof.
  intros [_ H] Hs. rewrite H. unfold expected_flag. unfold suppressed in Hs.
  rewrite Hs. reflexivity.
Qed.

Lemma signals_of_fresh e : metrics_fresh e → signals_ok_aux e.
Proof. intros H. split; [apply metrics_fresh_score | apply metrics_fresh_flag]; exact H. Qed.

Lemma signals_nextTurn e : signals_ok_aux e → signals_ok_aux (nextTurn e).
Proof.
  intros He. unfold nextTurn. case_bool_decide as Hst; simpl; [|exact He].
  case_if.
  - apply signals_of_fresh, metrics_fresh_setState. simpl. congruence.
  - exact He.
Qed.

Lemma signals_send ev e : signals_ok_aux e → signals_ok_aux (send ev e).
Proof.
  intros He. destruct ev.
  - (* SPEAKER_SET *)
    cbn [send]. destruct (negb (is_name _ _)); case_bool_decide;
      try destruct (negb (_ =? _)); exact He.
  - exact He.
  - apply signals_of_fresh, metrics_fresh_after_recomputing_events. exact I.
  - apply signals_nextTurn, He.
  - exact He.
  - exact He.
  - apply signals_of_fresh, metrics_fresh_after_recomputing_events. exact I.
  - exact He.
  - exact He.
  - exact He.
  - destruct (decide (name ∈ speakers (ctx e))) as [Hin|Hout].
    + cbn [send]. unfold includes. rewrite bool_decide_eq_true_2 by exact Hin. exact He.
    + apply signals_of_fresh, metrics_fresh_after_recomputing_events. exact Hout.
  - apply signals_of_fresh, metrics_fresh_after_recomputing_events. exact I.
  - destruct (talkTime (ctx e) !! name) as [v|] eqn:Hv.
    + apply signals_of_fresh, metrics_fresh_after_recomputing_events.
      rewrite Hv. eauto.
    + cbn [send]. rewrite Hv. exact He.
  - apply signals_of_fresh, metrics_fresh_after_recomputing_events. exact I.
  - destruct (decide (state e = state0)) as [Heq|Hne].
    + cbn [send]. unfold setState. rewrite bool_decide_eq_true_2 by exact Heq. exact He.
    + apply signals_of_fresh, metrics_fresh_after_recomputing_events. exact Hne.
Qed.

Lemma signals_constructor sp th : signals_ok_aux (constructor sp th).
Proof.
  split.
  - unfold score_fresh, calculateDominance. simpl.
    rewrite orb_true_r. reflexivity.
  - intros _. reflexivity.
Qed.

Lemma signals_reachable sp th evs : signals_ok_aux (run evs (constructor sp th)).
Proof.
  apply (run_invariant signals_ok_aux (λ _, True)).
  - intros e ev _. apply signals_send.
  - apply Forall_true. done.
  - apply signals_constructor.
Qed.

(** X3. In every state reached from the constructor, [dominanceScore] is
    the score of the current talk times: the events that skip
    [updateMetrics] change none of its inputs. *)
Theorem dominanceScore_always_fresh (sp : list string) (th : Thresholds)
    (evs : list DiscussionEvent) :
  let e := run evs (constructor sp th) in
  dominanceScore (ctx e)
  = calculateDominance (talkTime (ctx e)) (speakers (ctx e)) (totalTalkTime (ctx e)).
Proof. intros e. apply (signals_reachable sp th evs). Qed.

(** X4. In every state reached from the constructor, [imbalanceFlag] is
    false while the phase is NUDGE, STRUCTURED_TURN_TAKING,
    REFLECTION_PAUSE or CHECK_IN, while [quietMode] is on, and while
    [totalSeconds < 15]; so a raised flag implies that the interface's
    imbalance measure is active. *)
Theorem imbalanceFlag_down_while_suppressed (sp : list string) (th : Thresholds)
    (evs : list DiscussionEvent) :
  let e := run evs (constructor sp th) in
  (suppresses_flag (state e) = true ∨ quietMode (ctx e) = true ∨
   (totalSeconds (ctx e) < 15)%Q →
   imbalanceFlag (ctx e) = false) ∧
  (imbalanceFlag (ctx e) = true → App.isImbalanceMeasureActive (state e) = true).
Proof.
  intros e.
  assert (H : flag_respects_suppression e) by apply (signals_reachable sp th evs).
  assert (G : suppresses_flag (state e) = true ∨ quietMode (ctx e) = true ∨
              (totalSeconds (ctx e) < 15)%Q → imbalanceFlag (ctx e) = false).
  { intros Hc. apply H. unfold suppressed.
    destruct Hc as [Hc|[Hc|Hc]].
    - rewrite Hc. reflexivity.
    - rewrite Hc. apply orb_true_iff. left. apply orb_true_r.
    - apply orb_true_iff. right. unfold ltb. apply negb_true_iff.
      destruct (Qle_bool 15 (totalSeconds (ctx e))) eqn:E; [|reflexivity].
      apply Qle_bool_iff in E. exfalso. eapply Qlt_not_le; eauto. }
  split; [exact G|].
  intros Hflag. destruct (state e) eqn:Hst; try reflexivity;
    rewrite G in Hflag; try discriminate; left; reflexivity.
Qed.

Lemma imbalanceFlag_down_while_suppressed_witness :
  let e := run (SPEAKER_SET "A" :: repeat (TICK 1) 20 ++ [SET_QUIET_MODE true; SILENCE])
             (constructor ["A"; "B"] no_thresholds) in
  imbalanceFlag (ctx e) = false.
Proof.
  intros e.
  destruct (imbalanceFlag_down_while_suppressed ["A"; "B"] no_thresholds
              (SPEAKER_SET "A" :: repeat (TICK 1) 20 ++ [SET_QUIET_MODE true; SILENCE]))
    as (H & _).
  apply H. right. left. vm_compute. reflexivity.
Defined.

(** ** What the engine never writes *)

Lemma policy_updateMetrics e : policy (ctx (updateMetrics e)) = policy (ctx e).
Proof. destruct (updateMetrics_eq e) as (d & b & ->). reflexivity. Qed.

Lemma policy_setState next e : policy (ctx (setState next e)) = policy (ctx e).
Proof.
  unfold setState. case_bool_decide; [reflexivity|].
  rewrite policy_updateMetrics. destruct next; try reflexivity.
  simpl. case_bool_decide; reflexivity.
Qed.

Lemma policy_nextTurn e : policy (ctx (nextTurn e)) = policy (ctx e).
Proof.
  unfold nextTurn. destruct (negb _); [reflexivity|].
  case_if; [rewrite policy_setState|]; reflexivity.
Qed.

Lemma policy_autoAdvanceIfNeeded e :
  policy (ctx (autoAdvanceIfNeeded e)) = policy (ctx e).
Proof.
  unfold autoAdvanceIfNeeded. destruct (negb _); [reflexivity|].
  destruct (state e); repeat case_if;
    rewrite ?policy_setState, ?policy_nextTurn; reflexivity.
Qed.

Lemma policy_tick_effects dt e : policy (ctx (tick_effects dt e)) = policy (ctx e).
Proof.
  unfold tick_effects. simpl. destruct (activeSpeaker (ctx e)); [|reflexivity].
  case_if; reflexivity.
Qed.

Lemma policy_send ev e : policy (ctx (send ev e)) = policy (ctx e).
Proof.
  destruct ev; cbn [send]; try reflexivity.
  - destruct (negb (is_name _ _)); case_bool_decide;
      try destruct (negb (_ =? _)); reflexivity.
  - rewrite policy_autoAdvanceIfNeeded, policy_updateMetrics. apply policy_tick_effects.
  - apply policy_nextTurn.
  - rewrite policy_updateMetrics. reflexivity.
  - destruct (negb _); [rewrite policy_updateMetrics|]; reflexivity.
  - rewrite policy_updateMetrics.
    destruct (is_name (quietSpeaker _) name);
      destruct (is_name (activeSpeaker _) name); reflexivity.
  - destruct (talkTime (ctx e) !! name); [rewrite policy_updateMetrics|]; reflexivity.
  - rewrite policy_updateMetrics. reflexivity.
  - apply policy_setState.
Qed.

Lemma policy_reachable sp th evs :
  policy (ctx (run evs (constructor sp th))) = policy (ctx (constructor sp th)).
Proof.
  apply (run_invariant (λ e, policy (ctx e) = policy (ctx (constructor sp th)))
           (λ _, True)).
  - intros e ev _ He. rewrite policy_send. exact He.
  - apply Forall_true. done.
  - reflexivity.
Qed.

(** X5. No event changes the policy constants: in every state reached
    from the constructor [imbalanceHoldSeconds] and [nudgeHoldSeconds] are
    15, [turnHoldSeconds] is 60, [imbalanceScoreThreshold] is the
    constructor's value (0.35 unless overridden), and [nudgeSince] is
    still [null]. *)
Theorem policy_constants_never_change (sp : list string) (th : Thresholds)
    (evs : list DiscussionEvent) :
  let c := ctx (run evs (constructor sp th)) in
  imbalanceScoreThreshold c = default (35 # 100) (th_imbalanceScoreThreshold th) ∧
  imbalanceHoldSeconds c = 15%Q ∧
  nudgeHoldSeconds c = 15%Q ∧
  turnHoldSeconds c = 60%Q ∧
  nudgeSince c = None.
Proof.
  intros c. pose proof (policy_reachable sp th evs) as H.
  unfold policy in H. fold c in H. simpl in H.
  injection H as H1 H2 H3 H4 H5. auto.
Qed.

(** ** The roster *)

Lemma speakers_updateMetrics e : speakers (ctx (updateMetrics e)) = speakers (ctx e).
Proof. destruct (updateMetrics_eq e) as (d & b & ->). reflexivity. Qed.

Lemma speakers_setState next e : speakers (ctx (setState next e)) = speakers (ctx e).
Proof.
  unfold setState. case_bool_decide; [reflexivity|].
  rewrite speakers_updateMetrics. destruct next; try reflexivity.
  simpl. case_bool_decide; reflexivity.
Qed.

Lemma speakers_nextTurn e : speakers (ctx (nextTurn e)) = speakers (ctx e).
Proof.
  unfold nextTurn. destruct (negb _); [reflexivity|].
  case_if; [rewrite speakers_setState|]; reflexivity.
Qed.

Lemma speakers_autoAdvanceIfNeeded e :
  speakers (ctx (autoAdvanceIfNeeded e)) = speakers (ctx e).
Proof.
  unfold autoAdvanceIfNeeded. destruct (negb _); [reflexivity|].
  destruct (state e); repeat case_if;
    rewrite ?speakers_setState, ?speakers_nextTurn; reflexivity.
Qed.

(** The roster after one event. *)
Lemma speakers_send ev e :
  speakers (ctx (send ev e))
  = match ev with
    | ADD_SPEAKER name =>
        if bool_decide (name ∈ speakers (ctx e)) then speakers (ctx e)
        else speakers (ctx e) ++ [name]
    | REMOVE_SPEAKER name => filter (λ s, s ≠ name) (speakers (ctx e))
    | _ => speakers (ctx e)
    end.
Proof.
  destruct ev;
    first [ lazymatch goal with
            | |- context [send (REMOVE_SPEAKER _)] =>
                apply send_REMOVE_SPEAKER_unchanged
            end
          | cbn [send] ];
    try reflexivity.
  - destruct (negb (is_name _ _)); case_bool_decide;
      try destruct (negb (_ =? _)); reflexivity.
  - rewrite speakers_autoAdvanceIfNeeded, speakers_updateMetrics.
    apply tick_effects_speakers.
  - apply speakers_nextTurn.
  - rewrite speakers_updateMetrics. reflexivity.
  - unfold includes. case_bool_decide; simpl; [reflexivity|].
    rewrite speakers_updateMetrics. reflexivity.
  - destruct (talkTime (ctx e) !! name); [rewrite speakers_updateMetrics|]; reflexivity.
  - rewrite speakers_updateMetrics. reflexivity.
  - apply speakers_setState.
Qed.

Lemma NoDup_speakers_send ev e :
  NoDup (speakers (ctx e)) → NoDup (speakers (ctx (send ev e))).
Proof.
  intros H. rewrite speakers_send. destruct ev; try exact H.
  - case_bool_decide as Hin; [exact H|].
    apply NoDup_app. split; [exact H|]. split; [|apply NoDup_singleton].
    intros x Hx Hx'. apply list_elem_of_singleton in Hx'. subst x. contradiction.
  - apply NoDup_filter, H.
Qed.

(** X6. If the list given to the constructor has no duplicates, the roster
    never has any: ADD_SPEAKER skips a name that is present, and appends a
    new one at the end. *)
Theorem speakers_stay_distinct (sp : list string) (th : Thresholds)
    (evs : list DiscussionEvent) :
  NoDup sp → NoDup (speakers (ctx (run evs (constructor sp th)))).
Proof.
  intros H.
  apply (run_invariant (λ e, NoDup (speakers (ctx e))) (λ _, True)).
  - intros e ev _. apply NoDup_speakers_send.
  - apply Forall_true. done.
  - exact H.
Qed.

Lemma speakers_stay_distinct_witness :
  NoDup (speakers (ctx (run [ADD_SPEAKER "A"; ADD_SPEAKER "C"; ADD_SPEAKER "C"]
                          (constructor ["A"; "B"] no_thresholds)))).
Proof.
  refine (speakers_stay_distinct ["A"; "B"] no_thresholds
            [ADD_SPEAKER "A"; ADD_SPEAKER "C"; ADD_SPEAKER "C"] _).
  apply NoDup_cons. split; [|apply NoDup_singleton].
  intros H. apply list_elem_of_singleton in H. discriminate.
Defined.

(** ** Talk times in reachable states *)

Lemma books_reachable sp th evs :
  Forall forward evs →
  keys_ok (run evs (constructor sp th)) ∧ books_ok (run evs (constructor sp th)).
Proof.
  intros Hf.
  apply (run_invariant (λ e, keys_ok e ∧ books_ok e) forward).
  - intros e ev Hev [Hk Hb]. split.
    + apply keys_ok_send, Hk.
    + apply books_ok_send; assumption.
  - exact Hf.
  - split; [apply keys_ok_constructor | apply books_ok_constructor].
Qed.

(** X7. In every state reached from the constructor by a session in
    which no speaker and no event carries a property name of
    [Object.prototype], [talkTime] has an entry for a name exactly when
    the name is in [speakers]. *)
Theorem talkTime_keys_are_the_speakers (sp : list string) (th : Thresholds)
    (evs : list DiscussionEvent) (name : string) :
  ordinary_run sp evs = true →
  let e := run evs (constructor sp th) in
  is_Some (talkTime (ctx e) !! name) ↔ name ∈ speakers (ctx e).
Proof. intros _ e. apply (keys_ok_reachable sp th evs). Qed.

Lemma talkTime_keys_are_the_speakers_witness :
  let e := run [ADD_SPEAKER "C"; SPEAKER_SET "Z"; TICK 2; REMOVE_SPEAKER "A";
                SET_TALK_TIME "Q" 3]
             (constructor ["A"; "B"] no_thresholds) in
  (is_Some (talkTime (ctx e) !! "C") ↔ "C" ∈ speakers (ctx e)) ∧
  (is_Some (talkTime (ctx e) !! "Z") ↔ "Z" ∈ speakers (ctx e)).
Proof.
  intros e. split.
  - refine (talkTime_keys_are_the_speakers ["A"; "B"] no_thresholds
              [ADD_SPEAKER "C"; SPEAKER_SET "Z"; TICK 2; REMOVE_SPEAKER "A";
               SET_TALK_TIME "Q" 3] "C" _).
    vm_compute. reflexivity.
  - refine (talkTime_keys_are_the_speakers ["A"; "B"] no_thresholds
              [ADD_SPEAKER "C"; SPEAKER_SET "Z"; TICK 2; REMOVE_SPEAKER "A";
               SET_TALK_TIME "Q" 3] "Z" _).
    vm_compute. reflexivity.
Defined.

(** X8. In a session of ordinary names and whole seconds (no speaker or
    event name is a property name of [Object.prototype], every TICK
    carries a non-negative whole number of seconds, every SET_TALK_TIME a
    whole number, and all of them together at most
    [Number.MAX_SAFE_INTEGER]) no talk time is ever negative and
    [totalTalkTime] is never negative: SET_TALK_TIME floors its argument
    at 0 and REMOVE_SPEAKER floors the total at 0. *)
Theorem talk_times_never_negative (sp : list string) (th : Thresholds)
    (evs : list DiscussionEvent) :
  exact_run sp evs = true →
  let e := run evs (constructor sp th) in
  (∀ name v, talkTime (ctx e) !! name = Some v → (0 <= v)%Q) ∧
  (0 <= totalTalkTime (ctx e))%Q.
Proof.
  intros Hrun e.
  destruct (exact_run_books sp th evs Hrun) as (_ & [Hsum Hpos] & _).
  fold e in Hsum, Hpos. split.
  - intros name v Hv. exact (Hpos name v Hv).
  - rewrite Hsum. apply sumTalk_nonneg, Hpos.
Qed.

Lemma talk_times_never_negative_witness :
  let e := run [SET_TALK_TIME "A" (-5); SPEAKER_SET "B"; TICK 3; REMOVE_SPEAKER "B"]
             (constructor ["A"; "B"] no_thresholds) in
  (0 <= totalTalkTime (ctx e))%Q.
Proof.
  intros e.
  destruct (talk_times_never_negative ["A"; "B"] no_thresholds
              [SET_TALK_TIME "A" (-5); SPEAKER_SET "B"; TICK 3; REMOVE_SPEAKER "B"])
    as (_ & H).
  - vm_compute. reflexivity.
  - exact H.
Defined.

(** ** Bounds on the dominance score *)

Lemma sumTalk_le_size (m : gmap string Q) (M : Q) :
  map_Forall (λ _ x, (x <= M)%Q) m →
  (sumTalk m <= inject_Z (Z.of_nat (size m)) * M)%Q.
Proof.
  induction m as [|k v m Hk IH] using map_ind; intros Hall.
  - rewrite sumTalk_empty, map_size_empty. simpl. rewrite Qmult_0_l. apply Qle_refl.
  - rewrite sumTalk_insert_fresh by exact Hk.
    rewrite map_size_insert_None by exact Hk.
    apply map_Forall_insert in Hall as [Hv Hall]; [|exact Hk].
    specialize (IH Hall). simpl in Hv.
    rewrite Nat2Z.inj_succ, <- Z.add_1_r, inject_Z_plus.
    change (inject_Z 1) with 1%Q.
    set (a := inject_Z (Z.of_nat (size m))) in *. clearbody a.
    set (S := sumTalk m) in *. clearbody S.
    assert (E : ((a + 1) * M == a * M + M)%Q) by ring.
    rewrite E. lra.
Qed.

Lemma size_le_length (sp : list string) (m : gmap string Q) :
  (∀ k, is_Some (m !! k) → k ∈ sp) → (size m ≤ length sp)%nat.
Proof.
  revert m. induction sp as [|s sp IH]; intros m Hm.
  - assert (m = ∅) as ->.
    { apply map_empty. intros i. apply eq_None_not_Some. intros Hi.
      apply Hm in Hi. apply elem_of_nil in Hi. exact Hi. }
    rewrite map_size_empty. simpl. lia.
  - assert (Hd : (size (delete s m) ≤ length sp)%nat).
    { apply IH. intros k Hk. destruct (decide (s = k)) as [->|Hne].
      - rewrite lookup_delete_eq in Hk. destruct Hk as [? ?]. discriminate.
      - rewrite lookup_delete_ne in Hk by exact Hne.
        apply Hm in Hk. apply elem_of_cons in Hk as [?|?]; [congruence | assumption]. }
    rewrite map_size_delete in Hd. simpl.
    destruct (m !! s); simpl in Hd; lia.
Qed.

Lemma calculateDominance_total_compat (tt : gmap string Q) (sp : list string)
    (t1 t2 : Q) :
  (t1 == t2)%Q → (calculateDominance tt sp t1 == calculateDominance tt sp t2)%Q.
Proof.
  intros E. unfold calculateDominance, leb.
  assert (Hb : Qle_bool t1 0 = Qle_bool t2 0).
  { destruct (Qle_bool t1 0) eqn:E1; destruct (Qle_bool t2 0) eqn:E2; try reflexivity.
    - apply Qle_bool_iff in E1. rewrite E in E1. apply Qle_bool_iff in E1. congruence.
    - apply Qle_bool_iff in E2. rewrite <- E in E2. apply Qle_bool_iff in E2. congruence. }
  rewrite Hb. case_if; [reflexivity|]. rewrite E. reflexivity.
Qed.

(** The score lies in [[0, 1)] when the books are in order. *)
Lemma calculateDominance_bounds (tt : gmap string Q) (sp : list string) :
  (∀ k, is_Some (tt !! k) ↔ k ∈ sp) →
  map_Forall (λ _ x, (0 <= x)%Q) tt →
  (0 <= calculateDominance tt sp (sumTalk tt) < 1)%Q.
Proof.
  intros Hkeys Hpos.
  destruct sp as [|s0 sp']; [split; vm_compute; [discriminate | reflexivity]|].
  set (sp := s0 :: sp') in *.
  destruct (Qlt_le_dec 0 (sumTalk tt)) as [Htot|Htot].
  2:{ unfold calculateDominance, leb. apply Qle_bool_iff in Htot. rewrite Htot.
      rewrite orb_true_r. split; [apply Qle_refl | reflexivity]. }
  destruct (calculateDominance_nondegenerate tt sp (sumTalk tt))
    as (mx & [Hin Hub] & ->); [discriminate | exact Htot |].
  set (n := inject_Z (Z.of_nat (length sp))).
  assert (Hn : (1 <= n)%Q).
  { unfold n, sp. simpl length. rewrite Nat2Z.inj_succ, <- Z.add_1_r, inject_Z_plus.
    assert (0 <= inject_Z (Z.of_nat (length sp')))%Q.
    { change 0%Q with (inject_Z 0). rewrite <- Zle_Qle. lia. }
    change (inject_Z 1) with 1%Q. lra. }
  (* every stored value is at most [mx], and [mx] is at most the total *)
  assert (Hmx_tot : (mx <= sumTalk tt)%Q).
  { apply list_elem_of_fmap in Hin as (s & -> & Hs). unfold get_or_0.
    destruct (tt !! s) as [v|] eqn:Hv; simpl.
    - eapply value_le_sumTalk; eauto.
    - apply Qlt_le_weak, Htot. }
  assert (Hvals : map_Forall (λ _ x, (x <= mx)%Q) tt).
  { intros k v Hv. simpl.
    assert (Hk : k ∈ sp) by (apply Hkeys; eauto).
    assert (E : get_or_0 tt k = v) by (unfold get_or_0; rewrite Hv; reflexivity).
    rewrite <- E. rewrite Forall_forall in Hub. apply Hub.
    apply list_elem_of_fmap. exists k. split; [reflexivity | exact Hk]. }
  assert (Hmx0 : (0 <= mx)%Q).
  { apply list_elem_of_fmap in Hin as (s & -> & Hs). unfold get_or_0.
    destruct (tt !! s) as [v|] eqn:Hv; simpl; [exact (Hpos s v Hv) | apply Qle_refl]. }
  assert (Hsize : (inject_Z (Z.of_nat (size tt)) <= n)%Q).
  { unfold n. rewrite <- Zle_Qle. apply Nat2Z.inj_le, size_le_length.
    intros k Hk. apply Hkeys, Hk. }
  assert (Htot_n : (sumTalk tt <= n * mx)%Q).
  { eapply Qle_trans; [apply sumTalk_le_size, Hvals|].
    apply Qmult_le_compat_r; assumption. }
  assert (Hmean : (sumTalk tt / n <= mx)%Q).
  { apply Qle_shift_div_r; [lra|]. lra. }
  assert (Hmean0 : (0 < sumTalk tt / n)%Q).
  { apply Qlt_shift_div_l; lra. }
  assert (Hden : (0 < sumTalk tt + (1 # 1000000))%Q) by lra.
  split.
  - apply Qle_shift_div_l; [exact Hden|]. lra.
  - apply Qlt_shift_div_r; [exact Hden|]. lra.
Qed.

(** X9. In a session of ordinary names and whole seconds (as for the
    talk times above), [dominanceScore] lies in the interval [[0, 1)] in
    every state reached from the constructor. *)
Theorem dominanceScore_in_unit_interval (sp : list string) (th : Thresholds)
    (evs : list DiscussionEvent) :
  exact_run sp evs = true →
  let e := run evs (constructor sp th) in
  (0 <= dominanceScore (ctx e) < 1)%Q.
Proof.
  intros Hrun e.
  destruct (exact_run_books sp th evs Hrun) as (Hk & [Hsum Hpos] & _).
  fold e in Hk, Hsum, Hpos.
  pose proof (signals_reachable sp th evs) as [Hfresh _]. fold e in Hfresh.
  pose proof (calculateDominance_bounds _ _ Hk Hpos) as Hb.
  unfold score_fresh in Hfresh.
  assert (E : (dominanceScore (ctx e)
               == calculateDominance (talkTime (ctx e)) (speakers (ctx e))
                    (sumTalk (talkTime (ctx e))))%Q).
  { rewrite Hfresh. apply calculateDominance_total_compat, Hsum. }
  rewrite E. exact Hb.
Qed.

Lemma dominanceScore_in_unit_interval_witness :
  let e := run (SPEAKER_SET "A" :: repeat (TICK 1) 40)
             (constructor ["A"; "B"] no_thresholds) in
  (0 <= dominanceScore (ctx e) < 1)%Q.
Proof.
  refine (dominanceScore_in_unit_interval ["A"; "B"] no_thresholds
            (SPEAKER_SET "A" :: repeat (TICK 1) 40) _).
  vm_compute. reflexivity.
Defined.

(** ** Time stamps and the round progress bar *)

Lemma stamps_updateMetrics e : stamps_ok e → stamps_ok (updateMetrics e).
Proof. destruct (updateMetrics_eq e) as (d & b & ->). exact id. Qed.

Lemma stamps_setState next e : stamps_ok e → stamps_ok (setState next e).
Proof.
  intros He. unfold setState. case_bool_decide as Hprev; [exact He|].
  apply stamps_updateMetrics.
  destruct next; simpl; try case_bool_decide;
    (split; simpl; [apply Qle_refl | intros; first [discriminate | apply Qle_refl]]).
Qed.

Lemma stamps_nextTurn e : stamps_ok e → stamps_ok (nextTurn e).
Proof.
  intros He. unfold nextTurn. destruct (negb _); [exact He|].
  case_if; [apply stamps_setState, He|].
  destruct He as [H1 _]. split; simpl; [exact H1 | intros _; apply Qle_refl].
Qed.

Lemma stamps_autoAdvanceIfNeeded e : stamps_ok e → stamps_ok (autoAdvanceIfNeeded e).
Proof.
  intros He. unfold autoAdvanceIfNeeded.
  destruct (negb _); [exact He|].
  destruct (state e) eqn:Hst; repeat case_if;
    first [ exact He
          | apply stamps_nextTurn; exact He
          | apply stamps_setState; exact He
          | idtac ].
  all: try apply stamps_setState.
  all: destruct He as [H1 H2]; split; simpl; [exact H1 | rewrite Hst; discriminate].
Qed.

Lemma stamps_tick_effects dt e :
  (0 <= dt)%Q → stamps_ok e → stamps_ok (tick_effects dt e).
Proof.
  intros Hdt [H1 H2]. split.
  - rewrite tick_effects_totalSeconds.
    assert (E : stateSince (ctx (tick_effects dt e)) = stateSince (ctx e)).
    { unfold tick_effects. simpl. destruct (activeSpeaker (ctx e)); [case_if|]; reflexivity. }
    rewrite E. lra.
  - rewrite tick_effects_state, tick_effects_totalSeconds. intros Hs.
    assert (E : turnSince (ctx (tick_effects dt e)) = turnSince (ctx e)).
    { unfold tick_effects. simpl. destruct (activeSpeaker (ctx e)); [case_if|]; reflexivity. }
    rewrite E. specialize (H2 Hs). lra.
Qed.

Lemma stamps_send ev e : forward ev → stamps_ok e → stamps_ok (send ev e).
Proof.
  intros Hev He. destruct ev; cbn [send]; try exact He.
  - (* SPEAKER_SET *)
    destruct (negb (is_name _ _)); case_bool_decide;
      try destruct (negb (_ =? _)); try exact He;
      destruct He as [H1 H2]; (split; simpl; [exact H1 | intros _; apply Qle_refl]).
  - apply stamps_autoAdvanceIfNeeded, stamps_updateMetrics, stamps_tick_effects;
      assumption.
  - apply stamps_nextTurn, He.
  - apply stamps_updateMetrics, He.
  - destruct (negb _); [apply stamps_updateMetrics|]; exact He.
  - apply stamps_updateMetrics.
    destruct (is_name (quietSpeaker _) name);
      destruct (is_name (activeSpeaker _) name); exact He.
  - destruct (talkTime (ctx e) !! name); [apply stamps_updateMetrics|]; exact He.
  - apply stamps_updateMetrics, He.
  - apply stamps_setState, He.
Qed.

Lemma stamps_reachable sp th evs :
  Forall forward evs → stamps_ok (run evs (constructor sp th)).
Proof.
  intros Hf. apply (run_invariant stamps_ok forward).
  - intros e ev. apply stamps_send.
  - exact Hf.
  - split; simpl; [apply Qle_refl | discriminate].
Qed.

Lemma turn_ok_reachable sp th evs : turn_ok (run evs (constructor sp th)).
Proof.
  apply (run_invariant turn_ok (λ _, True)).
  - intros e ev _. apply turn_ok_send.
  - apply Forall_true. done.
  - apply turn_ok_constructor.
Qed.

(** X10. As long as no TICK carries negative seconds, the time stamps never
    lie in the future: [stateSince <= totalSeconds] in every state reached
    from the constructor, and [turnSince <= totalSeconds] while the phase
    is STRUCTURED_TURN_TAKING. *)
Theorem time_stamps_not_in_future (sp : list string) (th : Thresholds)
    (evs : list DiscussionEvent) :
  Forall forward evs →
  let e := run evs (constructor sp th) in
  (stateSince (ctx e) <= totalSeconds (ctx e))%Q ∧
  (state e = DiscussionState.STRUCTURED →
   (turnSince (ctx e) <= totalSeconds (ctx e))%Q).
Proof. intros Hf e. apply (stamps_reachable sp th evs Hf). Qed.

Lemma time_stamps_not_in_future_witness :
  let e := run (SPEAKER_SET "A" :: repeat (TICK 1) 100)
             (constructor ["A"; "B"] no_thresholds) in
  (stateSince (ctx e) <= totalSeconds (ctx e))%Q.
Proof.
  intros e.
  destruct (time_stamps_not_in_future ["A"; "B"] no_thresholds
              (SPEAKER_SET "A" :: repeat (TICK 1) 100)) as (H & _).
  - apply forward_A_speaks.
  - exact H.
Defined.

(** X11. As long as no TICK carries negative seconds, whenever
    [roundProgressInfo] of a snapshot of a reachable engine is not [null],
    the round lasts 60 seconds per name of [turnOrder], the elapsed part
    lies between 0 and the whole, and the percentage between 0 and 100. *)
Theorem round_progress_within_bounds (sp : list string) (th : Thresholds)
    (evs : list DiscussionEvent) (p : App.RoundProgress) :
  Forall forward evs →
  let e := run evs (constructor sp th) in
  App.roundProgressInfo (snapshot e) = Some p →
  App.totalRoundSeconds p
    = (inject_Z (Z.of_nat (length (turnOrder (ctx e)))) * 60)%Q ∧
  (0 <= App.roundElapsed p <= App.totalRoundSeconds p)%Q ∧
  (0 <= App.progressPercent p <= 100)%Q.
Proof.
  intros Hf e Hp.
  destruct (stamps_reachable sp th evs Hf) as [_ Hturn]. fold e in Hturn.
  pose proof (turn_ok_reachable sp th evs) as Hok. fold e in Hok.
  pose proof (policy_reachable sp th evs) as Hpol. fold e in Hpol.
  assert (Hhold : turnHoldSeconds (ctx e) = 60%Q).
  { unfold policy in Hpol. simpl in Hpol. injection Hpol as _ _ _ H _. exact H. }
  unfold App.roundProgressInfo, snapshot in Hp. simpl in Hp.
  case_bool_decide as Hst; simpl in Hp; [|discriminate].
  destruct (Nat.eqb_spec (length (turnOrder (ctx e))) 0) as [|Hlen]; [discriminate|].
  injection Hp as <-. simpl. rewrite Hhold.
  destruct (Hok Hst) as (Hi0 & Hi & _).
  destruct Hi as [Hi|[Hnil _]]; [|rewrite Hnil in Hlen; simpl in Hlen; lia].
  specialize (Hturn Hst).
  set (n := inject_Z (Z.of_nat (length (turnOrder (ctx e))))) in *.
  set (i := inject_Z (turnIndex (ctx e))) in *.
  set (el := (totalSeconds (ctx e) - turnSince (ctx e))%Q) in *.
  assert (Hi0' : (0 <= i)%Q).
  { unfold i. change 0%Q with (inject_Z 0). rewrite <- Zle_Qle. exact Hi0. }
  assert (Hin : (i + 1 <= n)%Q).
  { unfold i, n. change 1%Q with (inject_Z 1). rewrite <- inject_Z_plus, <- Zle_Qle. lia. }
  assert (Hel : (0 <= el)%Q) by (unfold el; lra).
  assert (Hmin0 : (0 <= Qmin el 60)%Q) by (apply Q.min_glb; [exact Hel | discriminate]).
  assert (Hmin60 : (Qmin el 60 <= 60)%Q) by apply Q.le_min_r.
  assert (Hd : (0 < n * 60)%Q) by lra.
  split; [reflexivity|]. split; [split; lra|].
  assert (Hq0 : (0 <= (i * 60 + Qmin el 60) / (n * 60))%Q).
  { apply Qle_shift_div_l; [exact Hd | lra]. }
  assert (Hq1 : ((i * 60 + Qmin el 60) / (n * 60) <= 1)%Q).
  { apply Qle_shift_div_r; [exact Hd | lra]. }
  split; lra.
Qed.

Lemma round_progress_within_bounds_witness :
  let e := run (SPEAKER_SET "A" :: repeat (TICK 1) 100)
             (constructor ["A"; "B"] no_thresholds) in
  ∃ p, App.roundProgressInfo (snapshot e) = Some p ∧
       (0 <= App.progressPercent p <= 100)%Q.
Proof.
  intros e.
  destruct (App.roundProgressInfo (snapshot e)) as [p|] eqn:Hp.
  - exists p. split; [reflexivity|].
    destruct (round_progress_within_bounds ["A"; "B"] no_thresholds
                (SPEAKER_SET "A" :: repeat (TICK 1) 100) p) as (_ & _ & H).
    + apply forward_A_speaks.
    + exact Hp.
    + exact H.
  - vm_compute in Hp. discriminate.
Defined.

(** ** Resuming from CHECK_IN, and the talk history *)




Lemma handleToggleSilence_eq e p :
  App.handleToggleSilence e p
  = if bool_decide (state e = DiscussionState.PAUSE)
    then (send (FORCE_STATE (default DiscussionState.MONITORING p)) e, p)
    else (send (FORCE_STATE DiscussionState.PAUSE) e, Some (state e)).
Proof. reflexivity. Qed.

(** X13. Toggling the reflective pause twice from a phase other than
    REFLECTION_PAUSE goes to REFLECTION_PAUSE and back to the phase it
    came from, remembering that phase in between, and leaves the speakers,
    the talk times, [totalTalkTime] and [totalSeconds] as they were. *)
Theorem toggle_silence_twice_restores_phase (e : DiscussionEngine)
    (previousState : option DiscussionState.t) :
  state e ≠ DiscussionState.PAUSE →
  let once := App.handleToggleSilence e previousState in
  let twice := App.handleToggleSilence (fst once) (snd once) in
  state (fst once) = DiscussionState.PAUSE ∧
  snd once = Some (state e) ∧
  state (fst twice) = state e ∧
  snd twice = Some (state e) ∧
  history (fst twice) = history e.
Proof.
  intros Hst once twice. subst twice.
  assert (Honce : once = (setState DiscussionState.PAUSE e, Some (state e))).
  { unfold once. rewrite handleToggleSilence_eq.
    rewrite bool_decide_eq_false_2 by exact Hst. reflexivity. }
  clearbody once. subst once. cbn [fst snd].
  rewrite handleToggleSilence_eq, setState_state.
  rewrite bool_decide_eq_true_2 by reflexivity. cbn [fst snd default send].
  refine (conj eq_refl (conj eq_refl (conj _ (conj eq_refl _)))).
  - apply setState_state.
  - rewrite history_setState.
    + apply history_setState. intros [_ H]. discriminate.
    + intros [H _]. rewrite setState_state in H. discriminate.
Qed.

Lemma toggle_silence_twice_restores_phase_witness :
  let e := A_speaks_for 70 in
  let once := App.handleToggleSilence e None in
  let twice := App.handleToggleSilence (fst once) (snd once) in
  state (fst twice) = state e.
Proof.
  intros e once twice.
  destruct (toggle_silence_twice_restores_phase e None) as (_ & _ & H & _).
  - vm_compute. discriminate.
  - exact H.
Defined.

(** ** A structured round from start to finish *)

Lemma at_index_in_range (l : list string) (i : Z) :
  0 ≤ i < Z.of_nat (length l) → ∃ x, at_index l i = Some x.
Proof.
  intros [H0 Hl]. unfold at_index.
  destruct (Z.ltb_spec i 0); [lia|].
  apply lookup_lt_is_Some_2. lia.
Qed.

Lemma nextTurns_stay (k : nat) (e : DiscussionEngine) :
  state e = DiscussionState.STRUCTURED →
  0 ≤ turnIndex (ctx e) →
  turnIndex (ctx e) + Z.of_nat k < Z.of_nat (length (turnOrder (ctx e))) →
  let e' := run (repeat NEXT_TURN k) e in
  state e' = DiscussionState.STRUCTURED ∧
  turnOrder (ctx e') = turnOrder (ctx e) ∧
  turnIndex (ctx e') = turnIndex (ctx e) + Z.of_nat k ∧
  ((1 ≤ k)%nat →
   activeSpeaker (ctx e')
   = at_index (turnOrder (ctx e)) (turnIndex (ctx e) + Z.of_nat k)).
Proof.
  revert e. induction k as [|k IH]; intros e Hst H0 Hlt.
  - simpl. rewrite Z.add_0_r. repeat split; auto. lia.
  - destruct (at_index_in_range (turnOrder (ctx e)) (turnIndex (ctx e) + 1))
      as [n Hn]; [lia|].
    pose proof (nextTurn_lands e n Hst Hn) as Hstep.
    change (run (repeat NEXT_TURN (S k)) e)
      with (run (repeat NEXT_TURN k) (nextTurn e)).
    set (e1 := nextTurn e) in *.
    assert (F : state e1 = DiscussionState.STRUCTURED ∧
                turnOrder (ctx e1) = turnOrder (ctx e) ∧
                turnIndex (ctx e1) = turnIndex (ctx e) + 1 ∧
                activeSpeaker (ctx e1) = Some n).
    { rewrite Hstep. simpl. auto. }
    clearbody e1. destruct F as (F1 & F2 & F3 & F4).
    destruct (IH e1) as (I1 & I2 & I3 & I4); [exact F1 | lia | rewrite F2, F3; lia |].
    cbv zeta. rewrite I1, I2, I3, F2, F3.
    replace (turnIndex (ctx e) + 1 + Z.of_nat k)
      with (turnIndex (ctx e) + Z.of_nat (S k)) by lia.
    refine (conj eq_refl (conj eq_refl (conj eq_refl _))).
    intros _. destruct k as [|k'].
    + simpl. rewrite F4, <- Hn. reflexivity.
    + rewrite I4 by lia. rewrite F2, F3. f_equal. lia.
Qed.

Lemma nextTurn_finishes (e : DiscussionEngine) :
  state e = DiscussionState.STRUCTURED →
  Z.of_nat (length (turnOrder (ctx e))) ≤ turnIndex (ctx e) + 1 →
  state (nextTurn e) = DiscussionState.PAUSE ∧
  activeSpeaker (ctx (nextTurn e)) = None ∧
  silenceSeconds (ctx (nextTurn e)) = 0%Q ∧
  currentMonologueSeconds (ctx (nextTurn e)) = 0%Q.
Proof.
  intros Hst Hlen. unfold nextTurn.
  rewrite (bool_decide_eq_true_2 _ Hst). simpl.
  destruct (Z.leb_spec (Z.of_nat (length (turnOrder (ctx e)))) (turnIndex (ctx e) + 1));
    [|lia].
  split; [apply setState_state|].
  unfold setState. simpl. rewrite bool_decide_eq_false_2 by congruence.
  match goal with
  | |- context [updateMetrics ?x] => destruct (updateMetrics_eq x) as (d & b & ->)
  end.
  simpl. auto.
Qed.

(** X14. In STRUCTURED_TURN_TAKING with [0 <= turnIndex < turnOrder.length],
    the round runs through the rest of [turnOrder] in order: after [k]
    NEXT_TURN events that stay within [turnOrder] the phase is unchanged,
    [turnIndex] has moved by [k] and (for [k >= 1]) the active speaker is
    the name at that position; the NEXT_TURN that leaves the end of
    [turnOrder], the [(turnOrder.length - turnIndex)]-th, ends the round
    in REFLECTION_PAUSE with no active speaker and with [silenceSeconds]
    and [currentMonologueSeconds] at 0. *)
Theorem structured_round_runs_to_pause (e : DiscussionEngine) (k : nat) :
  state e = DiscussionState.STRUCTURED →
  0 ≤ turnIndex (ctx e) < Z.of_nat (length (turnOrder (ctx e))) →
  (turnIndex (ctx e) + Z.of_nat k < Z.of_nat (length (turnOrder (ctx e))) →
   let e' := run (repeat NEXT_TURN k) e in
   state e' = DiscussionState.STRUCTURED ∧
   turnIndex (ctx e') = turnIndex (ctx e) + Z.of_nat k ∧
   ((1 ≤ k)%nat →
    activeSpeaker (ctx e')
    = at_index (turnOrder (ctx e)) (turnIndex (ctx e) + Z.of_nat k))) ∧
  (turnIndex (ctx e) + Z.of_nat k = Z.of_nat (length (turnOrder (ctx e))) →
   let e' := run (repeat NEXT_TURN k) e in
   state e' = DiscussionState.PAUSE ∧
   activeSpeaker (ctx e') = None ∧
   silenceSeconds (ctx e') = 0%Q ∧
   currentMonologueSeconds (ctx e') = 0%Q).
Proof.
  intros Hst [H0 Hlt]. split.
  - intros Hk. destruct (nextTurns_stay k e Hst H0 Hk) as (A1 & _ & A3 & A4). auto.
  - intros Hk. destruct k as [|k]; [lia|].
    replace (S k) with (k + 1)%nat by lia.
    rewrite repeat_app. cbv zeta. rewrite run_app.
    destruct (nextTurns_stay k e Hst H0) as (A1 & A2 & A3 & _); [lia|].
    cbv zeta in A1, A2, A3. simpl repeat.
    change (run [NEXT_TURN] ?x) with (nextTurn x).
    apply nextTurn_finishes; [exact A1|]. rewrite A2, A3. lia.
Qed.

Lemma structured_round_runs_to_pause_witness :
  let e := send (FORCE_STATE DiscussionState.STRUCTURED)
             (constructor ["A"; "B"; "C"] no_thresholds) in
  activeSpeaker (ctx (run (repeat NEXT_TURN 2) e)) = Some "C" ∧
  state (run (repeat NEXT_TURN 3) e) = DiscussionState.PAUSE.
Proof.
  intros e. split.
  - destruct (structured_round_runs_to_pause e 2) as [H _].
    + reflexivity.
    + simpl. lia.
    + destruct H as (_ & _ & H); [simpl; lia|]. apply H. lia.
  - destruct (structured_round_runs_to_pause e 3) as [_ H].
    + reflexivity.
    + simpl. lia.
    + apply H. reflexivity.
Defined.

(** ** Adding and removing speakers *)

Lemma send_REMOVE_SPEAKER_fields (n : string) (e : DiscussionEngine) :
  talkTime (ctx (send (REMOVE_SPEAKER n) e)) = delete n (talkTime (ctx e)) ∧
  totalTalkTime (ctx (send (REMOVE_SPEAKER n) e))
    = Qmax 0 (totalTalkTime (ctx e) - get_or_0 (talkTime (ctx e)) n) ∧
  activeSpeaker (ctx (send (REMOVE_SPEAKER n) e))
    = (if is_name (activeSpeaker (ctx e)) n then None else activeSpeaker (ctx e)) ∧
  quietSpeaker (ctx (send (REMOVE_SPEAKER n) e))
    = (if is_name (quietSpeaker (ctx e)) n then None else quietSpeaker (ctx e)).
Proof.
  cbn [send].
  match goal with
  | |- context [updateMetrics ?x] => destruct (updateMetrics_eq x) as (d & b & ->)
  end.
  engine_cbn.
  destruct (is_name (activeSpeaker (ctx e)) n); engine_cbn;
    destruct (is_name (quietSpeaker (ctx e)) n); engine_cbn;
    refine (conj eq_refl (conj eq_refl (conj eq_refl eq_refl))).
Qed.

(** X15. After REMOVE_SPEAKER{name} nothing refers to the name any more:
    it is not in [speakers], has no [talkTime] entry, and is neither the
    active nor the quiet speaker; the entries of all other names, and an
    active or quiet speaker with another name, are untouched. *)
Theorem removed_speaker_leaves_no_reference (name : string) (e : DiscussionEngine) :
  let r := send (REMOVE_SPEAKER name) e in
  (name ∉ speakers (ctx r)) ∧
  talkTime (ctx r) !! name = None ∧
  activeSpeaker (ctx r) ≠ Some name ∧
  quietSpeaker (ctx r) ≠ Some name ∧
  (∀ other, other ≠ name →
     talkTime (ctx r) !! other = talkTime (ctx e) !! other ∧
     (other ∈ speakers (ctx r) ↔ other ∈ speakers (ctx e)) ∧
     (activeSpeaker (ctx e) = Some other → activeSpeaker (ctx r) = Some other) ∧
     (quietSpeaker (ctx e) = Some other → quietSpeaker (ctx r) = Some other)).
Proof.
  intros r.
  destruct (send_REMOVE_SPEAKER_fields name e) as (Ht & _ & Ha & Hq).
  destruct (send_REMOVE_SPEAKER_unchanged name e) as (_ & _ & Hs).
  fold r in Ht, Ha, Hq, Hs. clearbody r.
  rewrite Ht, Ha, Hq, Hs. unfold is_name.
  refine (conj _ (conj _ (conj _ (conj _ _)))).
  - apply not_elem_of_filter_ne.
  - apply lookup_delete_eq.
  - case_bool_decide; congruence.
  - case_bool_decide; congruence.
  - intros other Hne. refine (conj _ (conj _ (conj _ _))).
    + apply lookup_delete_ne. congruence.
    + rewrite list_elem_of_filter. tauto.
    + intros H. rewrite H. rewrite bool_decide_eq_false_2 by congruence. reflexivity.
    + intros H. rewrite H. rewrite bool_decide_eq_false_2 by congruence. reflexivity.
Qed.

Lemma removed_speaker_leaves_no_reference_witness :
  let e := run [SET_QUIET_SPEAKER (Some "B")] (A_speaks_for 5) in
  quietSpeaker (ctx (send (REMOVE_SPEAKER "A") e)) = Some "B".
Proof.
  intros e.
  destruct (removed_speaker_leaves_no_reference "A" e) as (_ & _ & _ & _ & H).
  apply (H "B"%string); [discriminate | reflexivity].
Defined.

Lemma send_ADD_SPEAKER_present (name : string) (e : DiscussionEngine) :
  name ∈ speakers (ctx e) → send (ADD_SPEAKER name) e = e.
Proof.
  intros H. cbn [send]. unfold includes.
  rewrite bool_decide_eq_true_2 by exact H. reflexivity.
Qed.

Lemma send_ADD_SPEAKER_fresh (name : string) (e : DiscussionEngine) :
  name ∉ speakers (ctx e) →
  ∃ d b, send (ADD_SPEAKER name) e
         = e |> upd (λ c, set_speakers (speakers c ++ [name]) c)
             |> upd (λ c, set_talkTime (<[name := 0%Q]> (talkTime c)) c)
             |> upd (set_dominanceScore d)
             |> upd (set_imbalanceFlag b).
Proof.
  intros H. cbn [send]. unfold includes.
  rewrite bool_decide_eq_false_2 by exact H. simpl negb. cbv iota.
  apply updateMetrics_eq.
Qed.

(** X16. ADD_SPEAKER{name} is idempotent and never duplicates: for a name
    already in [speakers] it does nothing at all; for a new name it appends
    the name at the end of [speakers] with talk time 0 and leaves every
    other talk time and [totalTalkTime] as they are; either way sending it
    a second time changes nothing. *)
Theorem add_speaker_once_only (name : string) (e : DiscussionEngine) :
  (name ∈ speakers (ctx e) → send (ADD_SPEAKER name) e = e) ∧
  (name ∉ speakers (ctx e) →
   speakers (ctx (send (ADD_SPEAKER name) e)) = speakers (ctx e) ++ [name] ∧
   talkTime (ctx (send (ADD_SPEAKER name) e)) !! name = Some 0%Q ∧
   (∀ other, other ≠ name →
      talkTime (ctx (send (ADD_SPEAKER name) e)) !! other
      = talkTime (ctx e) !! other) ∧
   totalTalkTime (ctx (send (ADD_SPEAKER name) e)) = totalTalkTime (ctx e)) ∧
  send (ADD_SPEAKER name) (send (ADD_SPEAKER name) e) = send (ADD_SPEAKER name) e.
Proof.
  assert (Hfresh : name ∉ speakers (ctx e) →
    speakers (ctx (send (ADD_SPEAKER name) e)) = speakers (ctx e) ++ [name] ∧
    talkTime (ctx (send (ADD_SPEAKER name) e)) !! name = Some 0%Q ∧
    (∀ other, other ≠ name →
       talkTime (ctx (send (ADD_SPEAKER name) e)) !! other
       = talkTime (ctx e) !! other) ∧
    totalTalkTime (ctx (send (ADD_SPEAKER name) e)) = totalTalkTime (ctx e)).
  { intros H. destruct (send_ADD_SPEAKER_fresh name e H) as (d & b & ->). simpl.
    refine (conj eq_refl (conj _ (conj _ eq_refl))).
    - apply lookup_insert_eq.
    - intros other Hne. apply lookup_insert_ne. congruence. }
  split; [apply send_ADD_SPEAKER_present|]. split; [exact Hfresh|].
  apply send_ADD_SPEAKER_present.
  destruct (decide (name ∈ speakers (ctx e))) as [Hin|Hout].
  - rewrite send_ADD_SPEAKER_present by exact Hin. exact Hin.
  - destruct (Hfresh Hout) as (-> & _). apply elem_of_app. right. left.
Qed.

Lemma add_speaker_once_only_witness :
  speakers (ctx (send (ADD_SPEAKER "C") engineAB)) = speakers (ctx engineAB) ++ ["C"] ∧
  send (ADD_SPEAKER "B") engineAB = engineAB.
Proof.
  split.
  - destruct (add_speaker_once_only "C" engineAB) as (_ & H & _).
    destruct H as (H & _); [|exact H].
    vm_compute. intros H. inversion H as [|? ? ? H']; subst.
    inversion H' as [|? ? ? H'']; subst. inversion H''.
  - destruct (add_speaker_once_only "B" engineAB) as (H & _).
    apply H. right. left.
Defined.

(** X17. Adding a new speaker and removing it again restores the roster
    and the talk times: for an engine reached in a session of ordinary
    names and whole seconds (as for the talk times above) and a name that
    is not one of its speakers nor a property name of [Object.prototype],
    ADD_SPEAKER then REMOVE_SPEAKER gives back the same [speakers],
    [talkTime] and [totalTalkTime], and leaves the phase and the clock
    alone. *)
Theorem add_then_remove_restores (sp : list string) (th : Thresholds)
    (evs : list DiscussionEvent) (name : string) :
  exact_run sp evs = true →
  ordinary name = true →
  let e := run evs (constructor sp th) in
  name ∉ speakers (ctx e) →
  let r := run [ADD_SPEAKER name; REMOVE_SPEAKER name] e in
  speakers (ctx r) = speakers (ctx e) ∧
  talkTime (ctx r) = talkTime (ctx e) ∧
  (totalTalkTime (ctx r) == totalTalkTime (ctx e))%Q ∧
  state r = state e ∧
  totalSeconds (ctx r) = totalSeconds (ctx e).
Proof.
  intros Hrun _ e Hout r.
  destruct (exact_run_books sp th evs Hrun) as (Hk & [Hsum Hpos] & _).
  fold e in Hk, Hsum, Hpos.
  assert (Hnone : talkTime (ctx e) !! name = None).
  { apply eq_None_not_Some. rewrite (Hk name). exact Hout. }
  assert (Htot : (0 <= totalTalkTime (ctx e))%Q).
  { rewrite Hsum. apply sumTalk_nonneg, Hpos. }
  destruct (send_ADD_SPEAKER_fresh name e Hout) as (d & b & Ha).
  change r with (send (REMOVE_SPEAKER name) (send (ADD_SPEAKER name) e)).
  clear r. clearbody e.
  set (a := send (ADD_SPEAKER name) e) in *.
  assert (Fa : speakers (ctx a) = speakers (ctx e) ++ [name] ∧
               talkTime (ctx a) = <[name := 0%Q]> (talkTime (ctx e)) ∧
               totalTalkTime (ctx a) = totalTalkTime (ctx e) ∧
               state a = state e ∧
               totalSeconds (ctx a) = totalSeconds (ctx e)).
  { rewrite Ha. simpl. auto. }
  clearbody a. destruct Fa as (A1 & A2 & A3 & A4 & A5).
  destruct (send_REMOVE_SPEAKER_fields name a) as (R1 & R2 & _).
  destruct (send_REMOVE_SPEAKER_unchanged name a) as (R3 & R4 & R5).
  rewrite R1, R2, R3, R4, R5, A1, A2, A3, A4, A5.
  refine (conj _ (conj _ (conj _ (conj eq_refl eq_refl)))).
  - rewrite filter_app.
    assert (E1 : filter (λ s, s ≠ name) (speakers (ctx e)) = speakers (ctx e)).
    { clear -Hout. induction (speakers (ctx e)) as [|x l IH]; [reflexivity|].
      apply not_elem_of_cons in Hout as [Hne Hl].
      rewrite filter_cons_True by congruence. f_equal. apply IH, Hl. }
    rewrite E1. rewrite filter_cons_False by (intros H; apply H; reflexivity).
    rewrite filter_nil. apply app_nil_r.
  - apply delete_insert_id, Hnone.
  - unfold get_or_0. rewrite lookup_insert_eq. simpl.
    rewrite Q.max_r by lra. lra.
Qed.

Lemma add_then_remove_restores_witness :
  let e := run (SPEAKER_SET "A" :: repeat (TICK 1) 7)
             (constructor ["A"; "B"] no_thresholds) in
  talkTime (ctx (run [ADD_SPEAKER "C"; REMOVE_SPEAKER "C"] e)) = talkTime (ctx e).
Proof.
  intros e.
  destruct (add_then_remove_restores ["A"; "B"] no_thresholds
              (SPEAKER_SET "A" :: repeat (TICK 1) 7) "C") as (_ & H & _).
  - vm_compute. reflexivity.
  - reflexivity.
  - vm_compute. intros H. inversion H as [|? ? ? H']; subst.
    inversion H' as [|? ? ? H'']; subst. inversion H''.
  - exact H.
Defined.

(** ** When a TICK moves the phase *)

(** The engine on which [autoAdvanceIfNeeded] runs inside a TICK. *)
Lemma tick_before_advance (dt : Q) (e : DiscussionEngine) :
  ∃ m, send (TICK dt) e = autoAdvanceIfNeeded m ∧
       metrics_fresh m ∧
       state m = state e ∧
       autoMode (ctx m) = autoMode (ctx e) ∧
       quietMode (ctx m) = quietMode (ctx e) ∧
       totalSeconds (ctx m) = (totalSeconds (ctx e) + dt)%Q ∧
       stateSince (ctx m) = stateSince (ctx e) ∧
       imbalanceSince (ctx m) = imbalanceSince (ctx e) ∧
       imbalanceHoldSeconds (ctx m) = imbalanceHoldSeconds (ctx e) ∧
       nudgeHoldSeconds (ctx m) = nudgeHoldSeconds (ctx e).
Proof.
  exists (updateMetrics (tick_effects dt e)).
  split; [reflexivity|]. split; [apply metrics_fresh_updateMetrics|].
  destruct (updateMetrics_eq (tick_effects dt e)) as (d & b & ->).
  unfold tick_effects. engine_cbn.
  destruct (activeSpeaker (ctx e)); [case_if|]; engine_cbn;
    repeat split; reflexivity.
Qed.

(** X18. A TICK takes the phase from MONITORING to IMBALANCE_DETECTED only
    with [autoMode] on and [quietMode] off, outside the grace period
    ([totalSeconds >= 15] after the tick) and with [imbalanceFlag] raised
    in the state it produces; and, [imbalanceHoldSeconds] being positive,
    only when the imbalance timer was already running and at least
    [imbalanceHoldSeconds] have passed since it started. *)
Theorem escalation_needs_sustained_imbalance (dt : Q) (e : DiscussionEngine) :
  state e = DiscussionState.MONITORING →
  state (send (TICK dt) e) = DiscussionState.IMBALANCE →
  autoMode (ctx e) = true ∧
  quietMode (ctx e) = false ∧
  (15 <= totalSeconds (ctx e) + dt)%Q ∧
  imbalanceFlag (ctx (send (TICK dt) e)) = true ∧
  ((0 < imbalanceHoldSeconds (ctx e))%Q →
   ∃ since, imbalanceSince (ctx e) = Some since ∧
     (imbalanceHoldSeconds (ctx e) <= totalSeconds (ctx e) + dt - since)%Q).
Proof.
  intros Hst Hnext.
  destruct (tick_before_advance dt e)
    as (m & Heq & Hfresh & Sm & Am & Qm & Tm & _ & Im & Hm & _).
  rewrite Heq in *. clear Heq. rewrite Hst in Sm. rewrite <- Am, <- Qm, <- Tm, <- Im, <- Hm. clear Am Qm Tm Im Hm Hst.
  unfold autoAdvanceIfNeeded in *.
  destruct (autoMode (ctx m)); simpl negb in *; cbv iota in *; [|congruence].
  rewrite Sm in *.
  destruct (quietMode (ctx m)) eqn:Hq; [simpl in Hnext; congruence|].
  destruct (imbalanceFlag (ctx m)) eqn:Hf; [|simpl in Hnext; congruence].
  destruct Hfresh as [Hd Hfl]. rewrite Hf in Hfl. unfold expected_flag in Hfl.
  rewrite Sm, Hq in Hfl. simpl in Hfl.
  destruct (ltb (totalSeconds (ctx m)) 15) eqn:Hg; [discriminate|].
  engine_cbn_in Hnext. engine_cbn.
  destruct (geb (totalSeconds (ctx m) - default (totalSeconds (ctx m)) (imbalanceSince (ctx m)))
              (imbalanceHoldSeconds (ctx m))) eqn:Hhold;
    [|simpl in Hnext; congruence].
  refine (conj eq_refl (conj eq_refl (conj _ (conj _ _)))).
  - unfold ltb in Hg. apply negb_false_iff, Qle_bool_iff in Hg. exact Hg.
  - unfold setState. engine_cbn. rewrite Sm.
    rewrite bool_decide_eq_false_2 by discriminate.
    rewrite updateMetrics_unfold. engine_cbn. simpl suppresses_flag.
    rewrite Hq, Hg, <- Hd. simpl. symmetry. exact Hfl.
  - intros Hpos. unfold geb in Hhold. apply Qle_bool_iff in Hhold.
    destruct (imbalanceSince (ctx m)) as [since|]; simpl in Hhold.
    + exists since. auto.
    + exfalso. lra.
Qed.

Lemma escalation_needs_sustained_imbalance_witness :
  imbalanceFlag (ctx (send (TICK 1) (A_speaks_for 29))) = true.
Proof.
  destruct (escalation_needs_sustained_imbalance 1 (A_speaks_for 29))
    as (_ & _ & _ & H & _).
  - vm_compute. reflexivity.
  - vm_compute. reflexivity.
  - exact H.
Defined.

(** X19. In the phases that only wait (IMBALANCE_DETECTED, NUDGE,
    REFLECTION_PAUSE, CHECK_IN) and with [autoMode] on, a TICK moves to the
    next phase exactly when, after the tick, the phase has lasted its
    dwell time: 15 seconds for IMBALANCE_DETECTED, [nudgeHoldSeconds] for
    NUDGE, 20 seconds for REFLECTION_PAUSE and for CHECK_IN. *)
Theorem waiting_phase_ends_after_dwell (dt : Q) (e : DiscussionEngine) :
  waits (state e) = true →
  autoMode (ctx e) = true →
  (state (send (TICK dt) e) = next_phase (state e) ↔
   (dwell (ctx e) (state e) <= totalSeconds (ctx e) + dt - stateSince (ctx e))%Q) ∧
  (state (send (TICK dt) e) = state e ↔
   ¬ (dwell (ctx e) (state e) <= totalSeconds (ctx e) + dt - stateSince (ctx e))%Q).
Proof.
  intros Hw Hauto.
  destruct (tick_before_advance dt e)
    as (m & Heq & _ & Sm & Am & _ & Tm & Ssm & _ & _ & Nm).
  rewrite Heq. clear Heq. rewrite <- Sm, <- Tm, <- Ssm.
  assert (Hdw : dwell (ctx e) (state m) = dwell (ctx m) (state m)).
  { unfold dwell. rewrite Nm. reflexivity. }
  rewrite Hdw. rewrite <- Sm in Hw. rewrite <- Am in Hauto.
  clear Sm Am Tm Ssm Nm Hdw. unfold autoAdvanceIfNeeded. rewrite Hauto. simpl negb.
  cbv iota.
  destruct (state m) eqn:Hst; try discriminate; simpl dwell; simpl next_phase;
    unfold geb;
    match goal with
    | |- context [Qle_bool ?a ?b] => destruct (Qle_bool a b) eqn:Hle
    end;
    rewrite ?setState_state, ?Hst;
    try (apply Qle_bool_iff in Hle);
    (split; split; intros H; try assumption; try reflexivity; try discriminate;
     try contradiction).
  all: try (exfalso; apply H; exact Hle).
  all: try (apply Qle_bool_iff in H; congruence).
  all: try (intros H'; apply Qle_bool_iff in H'; congruence).
Qed.

Lemma waiting_phase_ends_after_dwell_witness :
  state (send (TICK 1) (A_speaks_for 44)) = next_phase (state (A_speaks_for 44)).
Proof.
  destruct (waiting_phase_ends_after_dwell 1 (A_speaks_for 44)) as (H & _).
  - vm_compute. reflexivity.
  - vm_compute. reflexivity.
  - apply H. vm_compute. discriminate.
Defined.

(** ** Handing the floor over by SPEAKER_SET *)

Lemma indexOf_from_first (l : list string) (x : string) (i j : Z) :
  0 ≤ i → i ≤ j < indexOf_from i l x → l !! Z.to_nat (j - i) ≠ Some x.
Proof.
  revert i. induction l as [|y l IH]; intros i Hi Hj; simpl in *.
  - lia.
  - case_bool_decide as Hy; [lia|].
    destruct (decide (j = i)) as [->|Hne].
    + replace (i - i) with 0 by lia. simpl. congruence.
    + replace (Z.to_nat (j - i)) with (S (Z.to_nat (j - (i + 1)))) by lia.
      simpl. apply IH; lia.
Qed.

Lemma indexOf_first (l : list string) (x : string) (j : Z) :
  0 ≤ j < indexOf l x → at_index l j ≠ Some x.
Proof.
  intros Hj. unfold at_index. destruct (Z.ltb_spec j 0); [lia|].
  assert (H0 : 0 ≤ 0) by lia.
  pose proof (indexOf_from_first l x 0 j H0 Hj) as H'.
  rewrite Z.sub_0_r in H'. exact H'.
Qed.

(** X20. In STRUCTURED_TURN_TAKING, SPEAKER_SET with a name of [turnOrder]
    hands the floor to that name: the name becomes the active speaker,
    [turnIndex] becomes the first position of the name in [turnOrder], and
    the turn timer restarts at the current [totalSeconds]; [turnOrder] and
    the phase stay as they are.  In every other phase SPEAKER_SET makes any
    name the active speaker and leaves [turnIndex] alone. *)
Theorem speaker_set_hands_over_the_floor (name : string) (e : DiscussionEngine) :
  (state e = DiscussionState.STRUCTURED → name ∈ turnOrder (ctx e) →
   let e' := send (SPEAKER_SET name) e in
   state e' = DiscussionState.STRUCTURED ∧
   turnOrder (ctx e') = turnOrder (ctx e) ∧
   activeSpeaker (ctx e') = Some name ∧
   at_index (turnOrder (ctx e)) (turnIndex (ctx e')) = Some name ∧
   (∀ j, 0 ≤ j < turnIndex (ctx e') → at_index (turnOrder (ctx e)) j ≠ Some name) ∧
   turnSince (ctx e') = totalSeconds (ctx e)) ∧
  (state e ≠ DiscussionState.STRUCTURED →
   let e' := send (SPEAKER_SET name) e in
   state e' = state e ∧
   activeSpeaker (ctx e') = Some name ∧
   turnIndex (ctx e') = turnIndex (ctx e)).
Proof.
  split.
  - intros Hst Hin. cbv zeta. cbn [send].
    destruct (indexOf_spec (turnOrder (ctx e)) name) as [[_ Hn]|[Hr Hl]];
      [contradiction|].
    pose proof (indexOf_first (turnOrder (ctx e)) name) as Hfirst.
    destruct (negb (is_name (activeSpeaker (ctx e)) name)); engine_cbn;
      rewrite (bool_decide_eq_true_2 _ Hst);
      (destruct (Z.eqb_spec (indexOf (turnOrder (ctx e)) name) (-1)) as [E|_];
       [lia|]); simpl negb; cbv iota; engine_cbn;
      exact (conj Hst (conj eq_refl (conj eq_refl (conj Hl (conj Hfirst eq_refl))))).
  - intros Hst. cbv zeta. cbn [send].
    destruct (negb (is_name (activeSpeaker (ctx e)) name)); engine_cbn;
      rewrite (bool_decide_eq_false_2 _ Hst); engine_cbn;
      exact (conj eq_refl (conj eq_refl eq_refl)).
Qed.

Lemma speaker_set_hands_over_the_floor_witness :
  let e := send (FORCE_STATE DiscussionState.STRUCTURED)
             (constructor ["A"; "B"; "C"] no_thresholds) in
  turnIndex (ctx (send (SPEAKER_SET "C") e)) = 2.
Proof.
  intros e.
  destruct (speaker_set_hands_over_the_floor "C" e) as (H & _).
  destruct H as (_ & _ & _ & H & _).
  - reflexivity.
  - right. right. left.
  - vm_compute. reflexivity.
Defined.

(** ** The scorer and the order of the speakers *)

Lemma is_largest_unique (l1 l2 : list Q) (x1 x2 : Q) :
  l1 ≡ₚ l2 → is_largest x1 l1 → is_largest x2 l2 → (x1 == x2)%Q.
Proof.
  intros Hp [Hin1 Hub1] [Hin2 Hub2].
  rewrite Forall_forall in Hub1, Hub2.
  apply Qle_antisym.
  - apply Hub2. rewrite <- Hp. exact Hin1.
  - apply Hub1. rewrite Hp. exact Hin2.
Qed.

(** X21. The score does not depend on the order in which the speakers are
    listed: for two lists that are permutations of each other
    [calculateDominance] gives equal scores. *)
Theorem calculateDominance_ignores_order (tt : gmap string Q)
    (sp1 sp2 : list string) (tot : Q) :
  sp1 ≡ₚ sp2 →
  (calculateDominance tt sp1 tot == calculateDominance tt sp2 tot)%Q.
Proof.
  intros Hp.
  destruct (Qlt_le_dec 0 tot) as [Hpos|Hle].
  2:{ unfold calculateDominance, leb. apply Qle_bool_iff in Hle. rewrite Hle.
      rewrite !orb_true_r. reflexivity. }
  destruct sp1 as [|a sp1'].
  { apply Permutation_nil_l in Hp. subst sp2. reflexivity. }
  assert (Hne2 : sp2 ≠ []).
  { intros ->. apply Permutation_nil_r in Hp. discriminate. }
  destruct (calculateDominance_nondegenerate tt (a :: sp1') tot)
    as (m1 & L1 & ->); [discriminate | exact Hpos |].
  destruct (calculateDominance_nondegenerate tt sp2 tot)
    as (m2 & L2 & ->); [exact Hne2 | exact Hpos |].
  assert (Hm : (m1 == m2)%Q).
  { eapply is_largest_unique; [|exact L1|exact L2]. apply fmap_Permutation, Hp. }
  rewrite (Permutation_length Hp), Hm. reflexivity.
Qed.

Lemma calculateDominance_ignores_order_witness :
  (calculateDominance (talkAB 30 10) ["A"; "B"] 40
   == calculateDominance (talkAB 30 10) ["B"; "A"] 40)%Q.
Proof.
  apply (calculateDominance_ignores_order (talkAB 30 10) ["A"; "B"] ["B"; "A"] 40).
  apply perm_swap.
Defined.

(** ** The earlier engine variant *)

(** X22. The earlier two-argument scorer is the current scorer applied to
    the sum of the listed talk times: the later variant only moved the
    summation to its caller. *)
Theorem legacy_scorer_is_current_scorer_on_listed_sum (tt : gmap string Q)
    (sp : list string) :
  Legacy.calculateDominance tt sp
  = calculateDominance tt sp (fold_left Qplus (map (get_or_0 tt) sp) 0%Q).
Proof.
  unfold Legacy.calculateDominance, calculateDominance.
  destruct sp as [|s sp]; [reflexivity|].
  simpl length. simpl Nat.eqb. simpl orb. reflexivity.
Qed.




(** ** The advisory sentence *)

Lemma nonempty_Some (o : option string) (s : string) :
  GeminiService.nonempty o = Some s → o = Some s ∧ s ≠ "".
Proof.
  destruct o as [s'|]; simpl; [|discriminate].
  case_bool_decide; [discriminate|].
  intros [= ->]. split; [reflexivity | assumption].
Qed.

Lemma nonempty_None (o : option string) (s : string) :
  GeminiService.nonempty o = None → o = Some s → s = "".
Proof.
  intros Hn ->. simpl in Hn. case_bool_decide; [assumption | discriminate].
Qed.

Lemma default_nonempty (o : option string) :
  default GeminiService.FALLBACK_TEXT (GeminiService.nonempty o) ≠ "".
Proof.
  destruct (GeminiService.nonempty o) as [s|] eqn:E; simpl.
  - apply nonempty_Some in E. apply E.
  - discriminate.
Qed.

Lemma cacheKey_inj (state : DiscussionState.t) (c c' : EngineContext) :
  GeminiService.cacheKey state c = GeminiService.cacheKey state c' →
  length (speakers c) = length (speakers c').
Proof.
  unfold GeminiService.cacheKey. intros H.
  apply (inj (String.app _)) in H. apply (inj (String.app _)) in H.
  apply (inj pretty) in H. exact H.
Qed.

Lemma getModerationTip_keeps_entry (upstream : GeminiService.Upstream)
    (state : DiscussionState.t) (context : EngineContext)
    (tipCache : gmap string string) (k v : string) :
  tipCache !! k = Some v → v ≠ "" →
  (GeminiService.getModerationTip upstream state context tipCache).2 !! k = Some v.
Proof.
  intros Hk Hv. unfold GeminiService.getModerationTip, GeminiService.getModerationTip_begin.
  destruct state; try exact Hk.
  cbv zeta.
  destruct (GeminiService.nonempty (tipCache !! _)) as [cached|] eqn:E; [exact Hk|].
  destruct upstream as [t|[|]]; simpl; try exact Hk.
  destruct (decide (k = GeminiService.cacheKey DiscussionState.MONITORING context)) as [->|Hne].
  - exfalso. apply Hv. eapply nonempty_None; eassumption.
  - rewrite lookup_insert_ne by congruence. exact Hk.
Qed.

Lemma calls_keep_entry (script : list (GeminiService.Upstream * DiscussionState.t * EngineContext))
    (tipCache : gmap string string) (k v : string) :
  tipCache !! k = Some v → v ≠ "" →
  GeminiService.calls script tipCache !! k = Some v.
Proof.
  revert tipCache. induction script as [|c script IH]; intros tipCache Hk Hv.
  - exact Hk.
  - unfold GeminiService.calls. simpl fold_left. apply IH; [|exact Hv].
    apply getModerationTip_keeps_entry; assumption.
Qed.

Lemma getModerationTip_hit (upstream : GeminiService.Upstream)
    (context : EngineContext) (tipCache : gmap string string) (v : string) :
  tipCache !! GeminiService.cacheKey DiscussionState.MONITORING context = Some v →
  v ≠ "" →
  GeminiService.getModerationTip upstream DiscussionState.MONITORING context tipCache
  = (v, tipCache).
Proof.
  intros Hk Hv.
  unfold GeminiService.getModerationTip, GeminiService.getModerationTip_begin.
  cbv zeta. rewrite Hk. simpl. case_bool_decide; [contradiction | reflexivity].
Qed.

Lemma getModerationTip_answered_entry (t : option string)
    (context : EngineContext) (tipCache : gmap string string) :
  let r := GeminiService.getModerationTip (GeminiService.Answered t)
             DiscussionState.MONITORING context tipCache in
  r.2 !! GeminiService.cacheKey DiscussionState.MONITORING context = Some r.1
  ∧ r.1 ≠ "".
Proof.
  unfold GeminiService.getModerationTip, GeminiService.getModerationTip_begin.
  cbv zeta.
  destruct (GeminiService.nonempty (tipCache !! _)) as [cached|] eqn:E.
  - apply nonempty_Some in E. exact E.
  - simpl. split; [apply lookup_insert_eq | apply default_nonempty].
Qed.

(** X24. Whatever the phase, the context, the cache and the outcome of
    the call of the service, the sentence [getModerationTip] returns is
    never the empty string, and in each of the five intervention phases
    it is returned before the cache or the service is looked at. *)
Theorem moderation_tip_never_empty (upstream : GeminiService.Upstream)
    (state : DiscussionState.t) (context : EngineContext)
    (tipCache : gmap string string) :
  (GeminiService.getModerationTip upstream state context tipCache).1 ≠ ""
  ∧ (state ≠ DiscussionState.MONITORING →
     ∃ tip, ∀ upstream' context' tipCache',
       GeminiService.getModerationTip upstream' state context' tipCache'
       = (tip, tipCache')).
Proof.
  split.
  - unfold GeminiService.getModerationTip, GeminiService.getModerationTip_begin.
    destruct state; try discriminate.
    cbv zeta.
    destruct (GeminiService.nonempty (tipCache !! _)) as [cached|] eqn:E.
    + apply nonempty_Some in E. apply E.
    + destruct upstream as [t|[|]]; simpl; try discriminate.
      apply default_nonempty.
  - intros Hs. destruct state; try contradiction; eexists; intros; reflexivity.
Qed.

Lemma moderation_tip_never_empty_witness :
  (GeminiService.getModerationTip (GeminiService.Failed true)
     DiscussionState.NUDGE (ctx engineAB) ∅).1 ≠ ""
  ∧ ∃ tip, ∀ upstream' context' tipCache',
      GeminiService.getModerationTip upstream' DiscussionState.NUDGE context' tipCache'
      = (tip, tipCache').
Proof.
  destruct (moderation_tip_never_empty (GeminiService.Failed true)
              DiscussionState.NUDGE (ctx engineAB) ∅) as (Hne & Hfixed).
  split; [exact Hne | apply Hfixed; discriminate].
Defined.

(** X25. A call of [getModerationTip] that no other call interleaves
    with never removes or overwrites a non-empty entry of the cache,
    leaves the entries of groups of every other size as they are, and
    changes the cache only in the monitoring phase on an answer of the
    service, and then to store the sentence it returns under the key of
    the call. *)
Theorem moderation_tip_cache_only_grows (upstream : GeminiService.Upstream)
    (state : DiscussionState.t) (context : EngineContext)
    (tipCache : gmap string string) :
  let r := GeminiService.getModerationTip upstream state context tipCache in
  (∀ k v, tipCache !! k = Some v → v ≠ "" → r.2 !! k = Some v)
  ∧ (∀ context', length (speakers context') ≠ length (speakers context) →
       r.2 !! GeminiService.cacheKey state context'
       = tipCache !! GeminiService.cacheKey state context')
  ∧ (r.2 ≠ tipCache →
       state = DiscussionState.MONITORING
       ∧ (∃ t, upstream = GeminiService.Answered t)
       ∧ r.2 = <[GeminiService.cacheKey state context := r.1]> tipCache).
Proof.
  cbv zeta. split; [|split].
  - intros k v. apply getModerationTip_keeps_entry.
  - intros context' Hlen.
    unfold GeminiService.getModerationTip, GeminiService.getModerationTip_begin.
    destruct state; try reflexivity.
    cbv zeta.
    destruct (GeminiService.nonempty (tipCache !! _)) as [cached|]; [reflexivity|].
    destruct upstream as [t|[|]]; simpl; try reflexivity.
    apply lookup_insert_ne. intros Heq. apply Hlen. symmetry.
    eapply cacheKey_inj. exact Heq.
  - unfold GeminiService.getModerationTip, GeminiService.getModerationTip_begin.
    destruct state; try (intros H; contradiction H; reflexivity).
    cbv zeta.
    destruct (GeminiService.nonempty (tipCache !! _)) as [cached|];
      [intros H; contradiction H; reflexivity|].
    destruct upstream as [t|[|]]; simpl;
      try (intros H; contradiction H; reflexivity).
    intros _. split; [reflexivity|]. split; [eexists; reflexivity | reflexivity].
Qed.

Lemma moderation_tip_cache_only_grows_witness :
  let tipCache : gmap string string := {[ "monitoring-3" := "abc" ]} in
  let r := GeminiService.getModerationTip (GeminiService.Answered (Some "xyz"))
             DiscussionState.MONITORING (ctx engineAB) tipCache in
  r.2 !! "monitoring-3" = Some "abc"
  ∧ r.2 !! GeminiService.cacheKey DiscussionState.MONITORING
             (ctx (constructor ["A"; "B"; "C"] no_thresholds))
    = tipCache !! GeminiService.cacheKey DiscussionState.MONITORING
                    (ctx (constructor ["A"; "B"; "C"] no_thresholds))
  ∧ r.2 = <[GeminiService.cacheKey DiscussionState.MONITORING (ctx engineAB) := r.1]> tipCache.
Proof.
  cbv zeta.
  destruct (moderation_tip_cache_only_grows (GeminiService.Answered (Some "xyz"))
              DiscussionState.MONITORING (ctx engineAB) {[ "monitoring-3" := "abc" ]})
    as (Hkeep & Hother & Hnew).
  refine (conj _ (conj _ _)).
  - apply Hkeep; [reflexivity | discriminate].
  - apply Hother. vm_compute. discriminate.
  - apply Hnew. intros Heq.
    assert (Hl : (GeminiService.getModerationTip (GeminiService.Answered (Some "xyz"))
              DiscussionState.MONITORING (ctx engineAB) {[ "monitoring-3" := "abc" ]}).2
              !! "monitoring-2" = Some "xyz") by reflexivity.
    rewrite Heq in Hl. discriminate Hl.
Defined.

(** X26. Once the service has answered a call in the monitoring phase,
    every later call in the monitoring phase for a group of the same
    size returns the sentence of that call and leaves the cache as it
    is, whatever calls were made in between and whatever the service
    would answer now (calls made one after the other). *)
Theorem moderation_tip_repeats_once_answered (t : option string)
    (context context' : EngineContext) (tipCache : gmap string string)
    (script : list (GeminiService.Upstream * DiscussionState.t * EngineContext))
    (upstream' : GeminiService.Upstream) :
  length (speakers context') = length (speakers context) →
  let r := GeminiService.getModerationTip (GeminiService.Answered t)
             DiscussionState.MONITORING context tipCache in
  GeminiService.getModerationTip upstream' DiscussionState.MONITORING context'
    (GeminiService.calls script r.2)
  = (r.1, GeminiService.calls script r.2).
Proof.
  intros Hlen.
  destruct (getModerationTip_answered_entry t context tipCache) as (Hentry & Hne).
  cbv zeta in *.
  apply getModerationTip_hit; [|exact Hne].
  apply calls_keep_entry; [|exact Hne].
  unfold GeminiService.cacheKey in *. rewrite Hlen. exact Hentry.
Qed.

Lemma moderation_tip_repeats_once_answered_witness :
  length (speakers (ctx (constructor ["C"; "D"] no_thresholds))) = length (speakers (ctx engineAB))
  ∧ let r := GeminiService.getModerationTip (GeminiService.Answered (Some "xyz"))
               DiscussionState.MONITORING (ctx engineAB) ∅ in
    GeminiService.getModerationTip (GeminiService.Answered (Some "other"))
      DiscussionState.MONITORING (ctx (constructor ["C"; "D"] no_thresholds))
      (GeminiService.calls
         [(GeminiService.Failed true, DiscussionState.MONITORING, ctx engineAB);
          (GeminiService.Answered None, DiscussionState.MONITORING,
           ctx (constructor ["A"] no_thresholds))] r.2)
    = (r.1, GeminiService.calls
         [(GeminiService.Failed true, DiscussionState.MONITORING, ctx engineAB);
          (GeminiService.Answered None, DiscussionState.MONITORING,
           ctx (constructor ["A"] no_thresholds))] r.2).
Proof.
  split; [reflexivity|].
  exact (moderation_tip_repeats_once_answered (Some "xyz") (ctx engineAB)
           (ctx (constructor ["C"; "D"] no_thresholds)) ∅
           [(GeminiService.Failed true, DiscussionState.MONITORING, ctx engineAB);
            (GeminiService.Answered None, DiscussionState.MONITORING,
             ctx (constructor ["A"] no_thresholds))]
           (GeminiService.Answered (Some "other")) eq_refl).
Defined.
